(** * FinanceHub: the entity store and the market-update push channel

    A shallow embedding of [server/storage.ts], of the table declarations of
    [shared/schema.ts] and of the HTTP and WebSocket handlers of
    [server/routes.ts], with the properties of the specification proved or
    refuted on it.

    The store is PostgreSQL, reached through the drizzle query builder.  The
    part of their behaviour the code relies on is written out in [Pg]:
    unique indexes, [INSERT .. ON CONFLICT (col) DO UPDATE], [numeric(p,s)]
    columns, [ORDER BY .. DESC] and [LIMIT].  JavaScript values that cross
    into SQL do so as text, so [Js] gives [Number.prototype.toString]. *)

From Stdlib Require Import ZArith NArith Ascii String Lia.
From stdpp Require Import base decidable option list sorting strings gmap.

Local Open Scope string_scope.
Local Open Scope list_scope.
Local Open Scope Z_scope.

(** ** Outcomes of a database call *)

(** The errors a statement of [storage.ts] can end in, named after their
    SQLSTATE conditions; [connection_failure] is the database not being
    reachable. *)
Inductive PgError : Type :=
| unique_violation (constraint : string)
| foreign_key_violation (constraint : string)
| invalid_text_representation (type_name text : string)
| numeric_value_out_of_range
| connection_failure.

Inductive result (A : Type) : Type :=
| Ok (a : A)
| Err (e : PgError).
Arguments Ok {A} a.
Arguments Err {A} e.

Definition is_Ok {A} (r : result A) : bool :=
  match r with Ok _ => true | Err _ => false end.

Definition result_bind {A B} (r : result A) (k : A -> result B) : result B :=
  match r with Ok a => k a | Err e => Err e end.

Definition result_map {A B} (f : A -> B) (r : result A) : result B :=
  result_bind r (fun a => Ok (f a)).

(** ** Decimal digits *)

Module Digits.

Definition digit_char (d : N) : ascii := ascii_of_N (48 + d).

Definition char_digit (c : ascii) : option N :=
  let n := N_of_ascii c in
  if ((48 <=? n) && (n <=? 57))%N then Some (n - 48)%N else None.

(** Little-endian digits of [n], at most [fuel] of them. *)
Fixpoint le_digits_fuel (fuel : nat) (n : N) : list N :=
  match fuel with
  | O => []
  | S fuel' =>
      if (n =? 0)%N then [] else (n mod 10)%N :: le_digits_fuel fuel' (n / 10)%N
  end.

(** A number has no more decimal digits than binary ones. *)
Definition le_digits (n : N) : list N := le_digits_fuel (S (N.to_nat (N.log2 n))) n.

(** The number a little-endian digit list stands for. *)
Definition of_le_digits (ds : list N) : N :=
  fold_right (fun d acc => (d + 10 * acc)%N) 0%N ds.

(** Most significant digit first; empty for zero. *)
Definition digits (n : N) : list N := rev (le_digits n).

Definition of_digits (ds : list N) : N :=
  fold_left (fun acc d => (10 * acc + d)%N) ds 0%N.

Definition show (ds : list N) : string :=
  string_of_list_ascii (digit_char <$> ds).

Definition show_N (n : N) : string :=
  if (n =? 0)%N then "0" else show (digits n).

Definition zeros (n : nat) : string := show (replicate n 0%N).

(** How many zeros [ds] starts with. *)
Fixpoint leading_zeros (ds : list N) : nat :=
  match ds with
  | d :: ds' => if (d =? 0)%N then S (leading_zeros ds') else O
  | [] => O
  end.

(** The longest prefix of decimal digits of [cs], and the rest. *)
Fixpoint span (cs : list ascii) : list N * list ascii :=
  match cs with
  | [] => ([], [])
  | c :: cs' =>
      match char_digit c with
      | Some d => let '(ds, rest) := span cs' in (d :: ds, rest)
      | None => ([], cs)
      end
  end.

End Digits.

(** ** JavaScript values *)

Module Js.

(** A [number] as [Number.prototype.toString] sees it.  For a finite
    non-zero number ECMAScript picks the integers [s], [k], [n] with [k]
    as small as possible such that the number is [s * 10^(n-k)] and [s]
    has [k] digits; [Finite neg c e] stands for the number of magnitude
    [c * 10^e], of which [s] is [c] without its trailing zeros.  A zero
    is [Finite neg 0 e].  Every double has such a form (its shortest
    round-trip decimal); the type also holds decimals that are no double,
    which only widens what is proved for every number. *)
Inductive number : Type :=
| NaN
| Infinity (negative : bool)
| Finite (negative : bool) (c : N) (e : Z).

Definition of_Z (z : Z) : number := Finite (z <? 0) (Z.abs_N z) 0.
Definition of_nat (n : nat) : number := Finite false (N.of_nat n) 0.

(** [x < 0] *)
Definition lt_zero (x : number) : bool :=
  match x with
  | NaN => false
  | Infinity neg => neg
  | Finite neg c _ => neg && negb (c =? 0)%N
  end.

(** [x >= 0] *)
Definition ge_zero (x : number) : bool :=
  match x with
  | NaN => false
  | Infinity neg => negb neg
  | Finite neg c _ => negb neg || (c =? 0)%N
  end.

Definition sign_prefix (neg : bool) : string := if neg then "-" else EmptyString.

(** Number::toString(x) for radix 10. *)
Definition toString (x : number) : string :=
  match x with
  | NaN => "NaN"
  | Infinity neg => sign_prefix neg +:+ "Infinity"
  | Finite neg c e =>
      if (c =? 0)%N then "0" else
      let le := Digits.le_digits c in
      let j := Digits.leading_zeros le in
      let s := rev (drop j le) in
      let k := length s in
      let n := Z.of_nat k + Z.of_nat j + e in
      sign_prefix neg +:+
      (if (Z.of_nat k <=? n) && (n <=? 21) then
         Digits.show s +:+ Digits.zeros (Z.to_nat (n - Z.of_nat k))
       else if (0 <? n) && (n <=? 21) then
         Digits.show (take (Z.to_nat n) s) +:+ "." +:+ Digits.show (drop (Z.to_nat n) s)
       else if (-6 <? n) && (n <=? 0) then
         "0." +:+ Digits.zeros (Z.to_nat (- n)) +:+ Digits.show s
       else
         let ex := n - 1 in
         let exs := (if ex <? 0 then "-" else "+") +:+ Digits.show_N (Z.abs_N ex) in
         if (k =? 1)%nat then Digits.show s +:+ "e" +:+ exs
         else Digits.show (take 1 s) +:+ "." +:+ Digits.show (drop 1 s) +:+ "e" +:+ exs)
  end.

(** The values a parsed JSON body can hold under a key, [undefined] when
    the key is missing. *)
Inductive value : Type :=
| Undefined
| Null
| Bool (b : bool)
| Number (x : number)
| Str (s : string)
| Object.

(** Truthiness of a query-string parameter. *)
Definition truthy_string (s : option string) : bool :=
  match s with
  | None => false
  | Some s => negb (String.eqb s EmptyString)
  end.

End Js.

(** ** PostgreSQL *)

Module Pg.

(** *** Text input and output of [numeric] and [bigint] *)

(** A [numeric] value before a column's precision and scale are applied:
    [Num neg c e] has magnitude [c * 10^e]. *)
Inductive numeric_value : Type :=
| NumNaN
| NumInfinity (negative : bool)
| Num (negative : bool) (c : N) (e : Z).

Definition parse_sign (cs : list ascii) : bool * list ascii :=
  match cs with
  | c :: cs' =>
      if Ascii.eqb c "-" then (true, cs')
      else if Ascii.eqb c "+" then (false, cs')
      else (false, cs)
  | [] => (false, cs)
  end.

(** What may follow the mantissa: nothing, or [e], an optional sign and at
    least one digit. *)
Definition parse_exponent (cs : list ascii) : option Z :=
  match cs with
  | [] => Some 0
  | c :: cs' =>
      if Ascii.eqb c "e" || Ascii.eqb c "E" then
        let '(neg, cs'') := parse_sign cs' in
        match Digits.span cs'' with
        | ((_ :: _) as ds, []) =>
            let x := Z.of_N (Digits.of_digits ds) in
            Some (if neg then - x else x)
        | _ => None
        end
      else None
  end.

(** [numeric_in]: an optional sign, digits with an optional decimal point
    (at least one digit on either side), an optional exponent; or one of the
    special values as JavaScript prints them.  Blanks around the literal and
    the hexadecimal and underscore forms of recent servers are left out:
    nothing in [storage.ts] or [routes.ts] produces them. *)
Definition numeric_in (txt : string) : result numeric_value :=
  if String.eqb txt "NaN" then Ok NumNaN
  else if String.eqb txt "Infinity" then Ok (NumInfinity false)
  else if String.eqb txt "-Infinity" then Ok (NumInfinity true)
  else
    let '(neg, cs1) := parse_sign (list_ascii_of_string txt) in
    let '(ip, cs2) := Digits.span cs1 in
    let '(fp, cs3) :=
      match cs2 with
      | c :: cs' => if Ascii.eqb c "." then Digits.span cs' else ([], cs2)
      | [] => ([], cs2)
      end in
    match (ip ++ fp)%list, parse_exponent cs3 with
    | (_ :: _) as ds, Some ex =>
        Ok (Num neg (Digits.of_digits ds) (ex - Z.of_nat (length fp)))
    | _, _ => Err (invalid_text_representation "numeric" txt)
    end.

(** [c * 10^e] in units of [10^-scale], ties rounded away from zero. *)
Definition round_to_scale (scale : nat) (c : N) (e : Z) : N :=
  let sh := e + Z.of_nat scale in
  if 0 <=? sh then (c * 10 ^ Z.to_N sh)%N
  else let d := (10 ^ Z.to_N (- sh))%N in ((c + d / 2) / d)%N.

(** A value as a [numeric(precision, scale)] column keeps it. *)
Inductive stored_numeric : Type :=
| StoredNaN
| Stored (negative : bool) (units : N).

(** The coercion applied on assignment to a [numeric(precision, scale)]
    column: round to the scale, then refuse a value with more than
    [precision - scale] digits before the decimal point. *)
Definition apply_typmod (precision scale : nat) (v : numeric_value) : result stored_numeric :=
  match v with
  | NumNaN => Ok StoredNaN
  | NumInfinity _ => Err numeric_value_out_of_range
  | Num neg c e =>
      let u := round_to_scale scale c e in
      if (u <? 10 ^ N.of_nat precision)%N then Ok (Stored neg u)
      else Err numeric_value_out_of_range
  end.

(** [numeric_out] at the column's scale: always [scale] fractional digits,
    no sign on a zero. *)
Definition numeric_out (scale : nat) (v : stored_numeric) : string :=
  match v with
  | StoredNaN => "NaN"
  | Stored neg u =>
      let unit := (10 ^ N.of_nat scale)%N in
      let frac := Digits.digits (u mod unit)%N in
      (if neg && negb (u =? 0)%N then "-" else EmptyString) +:+
      Digits.show_N (u / unit)%N +:+
      (if (scale =? 0)%nat then EmptyString
       else "." +:+ Digits.zeros (scale - length frac) +:+ Digits.show frac)
  end.

(** A text parameter stored into a [numeric(precision, scale)] column and
    read back, as the driver returns it. *)
Definition numeric (precision scale : nat) (txt : string) : result string :=
  result_map (numeric_out scale)
    (result_bind (numeric_in txt) (apply_typmod precision scale)).

Definition numeric_opt (precision scale : nat) (txt : option string) : result (option string) :=
  match txt with
  | None => Ok None
  | Some t => result_map Some (numeric precision scale t)
  end.

(** [int8in]: an optional sign and digits, within the range of [bigint]. *)
Definition int8_in (txt : string) : result Z :=
  let '(neg, cs) := parse_sign (list_ascii_of_string txt) in
  match Digits.span cs with
  | ((_ :: _) as ds, []) =>
      let x := Z.of_N (Digits.of_digits ds) in
      let z := if neg then - x else x in
      if (- 2 ^ 63 <=? z) && (z <? 2 ^ 63) then Ok z
      else Err numeric_value_out_of_range
  | _ => Err (invalid_text_representation "bigint" txt)
  end.

(** *** Tables with unique indexes *)

Inductive Datum : Type :=
| DInt (z : Z)
| DText (s : string).

#[global] Instance Datum_eq_dec : EqDecision Datum.
Proof. solve_decision. Defined.

Record UniqueIndex (Row : Type) : Type := {
  conname : string;
  indexed : Row -> Datum;
}.
Arguments conname {Row} _.
Arguments indexed {Row} _ _.

(** [a] may stand before [b] under [ORDER BY key DESC]. *)
Definition desc {Row : Type} (key : Row -> Z) : relation Row :=
  fun a b => key b <= key a.

#[global] Instance desc_dec {Row : Type} (key : Row -> Z) (a b : Row) :
  Decision (desc key a b) := decide (key b <= key a).

Section Relation.
Context {Row : Type}.
Variable uniques : list (UniqueIndex Row).

Definition collides (ix : UniqueIndex Row) (r : Row) (rows : list Row) : bool :=
  bool_decide (indexed ix r ∈ indexed ix <$> rows).

(** The first unique index on which [r] duplicates a key of [rows]. *)
Definition violated (r : Row) (rows : list Row) : option string :=
  conname <$> List.find (fun ix => collides ix r rows) uniques.

(** [INSERT INTO t VALUES proposed] *)
Definition insert (proposed : Row) (rows : list Row) : result (list Row * Row) :=
  match violated proposed rows with
  | Some c => Err (unique_violation c)
  | None => Ok ((rows ++ [proposed])%list, proposed)
  end.

(** [INSERT INTO t VALUES proposed ON CONFLICT (target) DO UPDATE SET set
    RETURNING *].  Only a duplicate on the arbiter index [target] turns the
    insert into an update of the existing row; a duplicate on any other
    unique index, of the proposed row or of the updated one, is an error and
    the statement changes nothing. *)
Definition insert_on_conflict_do_update (target : Row -> Datum)
    (proposed : Row) (set : Row -> Row) (rows : list Row) : result (list Row * Row) :=
  match list_find (fun r => target r = target proposed) rows with
  | Some (i, old) =>
      let new := set old in
      match violated new (delete i rows) with
      | Some c => Err (unique_violation c)
      | None => Ok (<[i := new]> rows, new)
      end
  | None => insert proposed rows
  end.

(** [UPDATE t SET set WHERE cond], for a [set] that leaves indexed columns
    alone. *)
Definition update_where (cond : Row -> bool) (set : Row -> Row) (rows : list Row) : list Row :=
  (fun r => if cond r then set r else r) <$> rows.


(** [SELECT * FROM t WHERE cond] *)
Definition select_where (cond : Row -> bool) (rows : list Row) : list Row :=
  List.filter cond rows.

(** [ORDER BY key DESC].  PostgreSQL leaves the order of rows with equal
    keys open; the sort fixes one. *)
Definition order_by_desc (key : Row -> Z) (rows : list Row) : list Row :=
  merge_sort (desc key) rows.

(** [LIMIT n] *)
Definition limit (n : Z) (rows : list Row) : list Row := take (Z.to_nat n) rows.

(** The constraint the indexes maintain. *)
Definition unique_keys (rows : list Row) : Prop :=
  Forall (fun ix => NoDup (indexed ix <$> rows)) uniques.

End Relation.

End Pg.

(** ** The tables of [shared/schema.ts] *)

(** A [Date], in milliseconds since the epoch. *)
Definition Date : Type := Z.

(** A row type [T = typeof table.$inferSelect] is [T.t]; its insert type
    [InsertT] is [InsertT.t].  Columns of type [decimal] are strings on the
    JavaScript side.  In an insert type a column with a default or without
    [notNull()] is optional: [None] is a missing key, and for a nullable
    column [Some None] is an explicit [null].  The timestamp a storage method
    overwrites ([updatedAt], [createdAt]) is left out of the insert types; a
    row keeps the one the method wrote, so it is never [null]. *)

Module User.
Record t : Type := {
  id : string;
  email : option string;
  firstName : option string;
  lastName : option string;
  profileImageUrl : option string;
  role : string;
  createdAt : option Date;
  updatedAt : option Date;
}.
End User.

Module Stock.
Record t : Type := {
  id : Z;
  symbol : string;
  company : string;
  price : string;
  change : string;
  changePercent : string;
  volume : string;
  marketCap : option string;
  peRatio : option string;
  high52 : option string;
  low52 : option string;
  updatedAt : Date;
}.
End Stock.

Module InsertStock.
Record t : Type := {
  id : option Z;
  symbol : string;
  company : string;
  price : string;
  change : string;
  changePercent : string;
  volume : string;
  marketCap : option (option string);
  peRatio : option (option string);
  high52 : option (option string);
  low52 : option (option string);
}.
End InsertStock.

Module CurrencyPair.
Record t : Type := {
  id : Z;
  symbol : string;
  base : string;
  quote : string;
  rate : string;
  change : string;
  changePercent : string;
  margin : string;
  updatedAt : Date;
}.
End CurrencyPair.

Module InsertCurrencyPair.
Record t : Type := {
  id : option Z;
  symbol : string;
  base : string;
  quote : string;
  rate : string;
  change : string;
  changePercent : string;
  margin : option string;
}.
End InsertCurrencyPair.

Module NewsArticle.
Record t : Type := {
  id : Z;
  title : string;
  summary : string;
  content : option string;
  source : string;
  imageUrl : option string;
  publishedAt : Date;
  createdAt : Date;
}.
End NewsArticle.

Module InsertNewsArticle.
Record t : Type := {
  id : option Z;
  title : string;
  summary : string;
  content : option (option string);
  source : string;
  imageUrl : option (option string);
  publishedAt : Date;
}.
End InsertNewsArticle.

Module UserFavorite.
Record t : Type := {
  id : Z;
  userId : string;
  itemType : string;
  itemId : string;
  createdAt : Date;
}.
End UserFavorite.

Module InsertUserFavorite.
Record t : Type := {
  id : option Z;
  userId : string;
  itemType : string;
  itemId : string;
}.
End InsertUserFavorite.

Module MarketIndex.
Record t : Type := {
  id : Z;
  name : string;
  symbol : string;
  value : string;
  change : string;
  changePercent : string;
  updatedAt : Date;
}.
End MarketIndex.

Module InsertMarketIndex.
Record t : Type := {
  id : option Z;
  name : string;
  symbol : string;
  value : string;
  change : string;
  changePercent : string;
}.
End InsertMarketIndex.

(** The unique indexes of each table: the primary key and the columns
    declared [.unique()]. *)
Definition stocks_indexes : list (Pg.UniqueIndex Stock.t) :=
  [ {| Pg.conname := "stocks_pkey"; Pg.indexed := fun r => Pg.DInt (Stock.id r) |};
    {| Pg.conname := "stocks_symbol_unique"; Pg.indexed := fun r => Pg.DText (Stock.symbol r) |} ].

Definition currency_pairs_indexes : list (Pg.UniqueIndex CurrencyPair.t) :=
  [ {| Pg.conname := "currency_pairs_pkey"; Pg.indexed := fun r => Pg.DInt (CurrencyPair.id r) |};
    {| Pg.conname := "currency_pairs_symbol_unique";
       Pg.indexed := fun r => Pg.DText (CurrencyPair.symbol r) |} ].

Definition news_articles_indexes : list (Pg.UniqueIndex NewsArticle.t) :=
  [ {| Pg.conname := "news_articles_pkey"; Pg.indexed := fun r => Pg.DInt (NewsArticle.id r) |} ].

Definition user_favorites_indexes : list (Pg.UniqueIndex UserFavorite.t) :=
  [ {| Pg.conname := "user_favorites_pkey"; Pg.indexed := fun r => Pg.DInt (UserFavorite.id r) |} ].

Definition market_indices_indexes : list (Pg.UniqueIndex MarketIndex.t) :=
  [ {| Pg.conname := "market_indices_pkey"; Pg.indexed := fun r => Pg.DInt (MarketIndex.id r) |};
    {| Pg.conname := "market_indices_name_unique";
       Pg.indexed := fun r => Pg.DText (MarketIndex.name r) |};
    {| Pg.conname := "market_indices_symbol_unique";
       Pg.indexed := fun r => Pg.DText (MarketIndex.symbol r) |} ].

(** ** The database and its clients' world *)

(** A table with a [serial] primary key: its rows and the next value of the
    key's sequence. *)
Record Table (Row : Type) : Type := {
  rows : list Row;
  id_seq : Z;
}.
Arguments rows {Row} _.
Arguments id_seq {Row} _.

Definition empty_table {Row : Type} : Table Row := {| rows := []; id_seq := 1 |}.

Inductive Statement : Type :=
| SELECT (table : string)
| INSERT (table : string)
| UPDATE (table : string)
| DELETE (table : string).

#[global] Instance Statement_eq_dec : EqDecision Statement.
Proof. solve_decision. Defined.

(** What the server process works on: the tables, the wall clock ([clock n]
    is the [n]-th reading taken since the start), whether the database can be
    reached ([online n] for the [n]-th statement sent since the start), the
    statements sent so far, and the lines written to the console. *)
Record World : Type := {
  users : list User.t;
  stocks : Table Stock.t;
  currencyPairs : Table CurrencyPair.t;
  newsArticles : Table NewsArticle.t;
  userFavorites : Table UserFavorite.t;
  marketIndices : Table MarketIndex.t;
  clock : nat -> Date;
  clock_reads : nat;
  online : nat -> bool;
  statements : list Statement;
  console : list string;
}.

Definition empty_world (clock : nat -> Date) (online : nat -> bool) : World := {|
  users := [];
  stocks := empty_table;
  currencyPairs := empty_table;
  newsArticles := empty_table;
  userFavorites := empty_table;
  marketIndices := empty_table;
  clock := clock;
  clock_reads := O;
  online := online;
  statements := [];
  console := [];
|}.

Definition set_users (l : list User.t) (w : World) : World := {|
  users := l; stocks := stocks w; currencyPairs := currencyPairs w;
  newsArticles := newsArticles w; userFavorites := userFavorites w;
  marketIndices := marketIndices w; clock := clock w; online := online w;
  clock_reads := clock_reads w;
  statements := statements w; console := console w |}.

Definition set_online (f : nat -> bool) (w : World) : World := {|
  users := users w; stocks := stocks w; currencyPairs := currencyPairs w;
  newsArticles := newsArticles w; userFavorites := userFavorites w;
  marketIndices := marketIndices w; clock := clock w; online := f;
  clock_reads := clock_reads w;
  statements := statements w; console := console w |}.

Definition set_stocks (t : Table Stock.t) (w : World) : World := {|
  users := users w; stocks := t; currencyPairs := currencyPairs w;
  newsArticles := newsArticles w; userFavorites := userFavorites w;
  marketIndices := marketIndices w; clock := clock w; online := online w;
  clock_reads := clock_reads w;
  statements := statements w; console := console w |}.

Definition set_currencyPairs (t : Table CurrencyPair.t) (w : World) : World := {|
  users := users w; stocks := stocks w; currencyPairs := t;
  newsArticles := newsArticles w; userFavorites := userFavorites w;
  marketIndices := marketIndices w; clock := clock w; online := online w;
  clock_reads := clock_reads w;
  statements := statements w; console := console w |}.

Definition set_newsArticles (t : Table NewsArticle.t) (w : World) : World := {|
  users := users w; stocks := stocks w; currencyPairs := currencyPairs w;
  newsArticles := t; userFavorites := userFavorites w;
  marketIndices := marketIndices w; clock := clock w; online := online w;
  clock_reads := clock_reads w;
  statements := statements w; console := console w |}.

Definition set_userFavorites (t : Table UserFavorite.t) (w : World) : World := {|
  users := users w; stocks := stocks w; currencyPairs := currencyPairs w;
  newsArticles := newsArticles w; userFavorites := t;
  marketIndices := marketIndices w; clock := clock w; online := online w;
  clock_reads := clock_reads w;
  statements := statements w; console := console w |}.

Definition set_marketIndices (t : Table MarketIndex.t) (w : World) : World := {|
  users := users w; stocks := stocks w; currencyPairs := currencyPairs w;
  newsArticles := newsArticles w; userFavorites := userFavorites w;
  marketIndices := t; clock := clock w; online := online w;
  clock_reads := clock_reads w;
  statements := statements w; console := console w |}.

Definition set_clock_reads (n : nat) (w : World) : World := {|
  users := users w; stocks := stocks w; currencyPairs := currencyPairs w;
  newsArticles := newsArticles w; userFavorites := userFavorites w;
  marketIndices := marketIndices w; clock := clock w; online := online w;
  clock_reads := n;
  statements := statements w; console := console w |}.

Definition set_statements (l : list Statement) (w : World) : World := {|
  users := users w; stocks := stocks w; currencyPairs := currencyPairs w;
  newsArticles := newsArticles w; userFavorites := userFavorites w;
  marketIndices := marketIndices w; clock := clock w; online := online w;
  clock_reads := clock_reads w;
  statements := l; console := console w |}.

Definition set_console (l : list string) (w : World) : World := {|
  users := users w; stocks := stocks w; currencyPairs := currencyPairs w;
  newsArticles := newsArticles w; userFavorites := userFavorites w;
  marketIndices := marketIndices w; clock := clock w; online := online w;
  clock_reads := clock_reads w;
  statements := statements w; console := l |}.

(** A table of the world, to read and to replace. *)
Record TableRef (Row : Type) : Type := {
  table_name : string;
  get : World -> Table Row;
  put : Table Row -> World -> World;
}.
Arguments table_name {Row} _.
Arguments get {Row} _ _.
Arguments put {Row} _ _ _.

Definition stocks_table : TableRef Stock.t :=
  {| table_name := "stocks"; get := stocks; put := set_stocks |}.
Definition currency_pairs_table : TableRef CurrencyPair.t :=
  {| table_name := "currency_pairs"; get := currencyPairs; put := set_currencyPairs |}.
Definition news_articles_table : TableRef NewsArticle.t :=
  {| table_name := "news_articles"; get := newsArticles; put := set_newsArticles |}.
Definition user_favorites_table : TableRef UserFavorite.t :=
  {| table_name := "user_favorites"; get := userFavorites; put := set_userFavorites |}.
Definition market_indices_table : TableRef MarketIndex.t :=
  {| table_name := "market_indices"; get := marketIndices; put := set_marketIndices |}.

(** *** Asynchronous methods that may reject *)

(** An [async] method run to completion: it changes the world and either
    resolves with a value or rejects with the database's error.  What it did
    before rejecting stays done. *)
Definition Storage (A : Type) : Type := World -> World * result A.

#[global] Instance Storage_ret : MRet Storage := fun A a w => (w, Ok a).
#[global] Instance Storage_bind : MBind Storage := fun A B k m w =>
  match m w with
  | (w', Ok a) => k a w'
  | (w', Err e) => (w', Err e)
  end.

Definition reject {A : Type} (e : PgError) : Storage A := fun w => (w, Err e).

Definition settle {A : Type} (r : result A) : Storage A := fun w => (w, r).

Definition world : Storage World := fun w => (w, Ok w).

(** One more reading of the wall clock. *)
Definition read_clock (w : World) : World * Date :=
  (set_clock_reads (S (clock_reads w)) w, clock w (clock_reads w)).

(** [new Date()] *)
Definition new_Date : Storage Date := fun w =>
  let '(w', t) := read_clock w in (w', Ok t).

(** The statement goes out; an unreachable database rejects it. *)
Definition execute (s : Statement) : Storage unit := fun w =>
  (set_statements (statements w ++ [s]) w,
   if online w (length (statements w)) then Ok tt else Err connection_failure).

(** The value of a [serial] column: the one supplied, else [nextval] of the
    sequence, which stays advanced whatever becomes of the statement. *)
Definition serial {Row : Type} (t : TableRef Row) (supplied : option Z) : Storage Z := fun w =>
  match supplied with
  | Some i => (w, Ok i)
  | None =>
      let tb := get t w in
      (put t {| rows := rows tb; id_seq := id_seq tb + 1 |} w, Ok (id_seq tb))
  end.

(** Replace the rows of a table when the statement succeeds. *)
Definition commit {Row A : Type} (t : TableRef Row)
    (run : list Row -> result (list Row * A)) : Storage A := fun w =>
  let tb := get t w in
  match run (rows tb) with
  | Ok (rows', a) => (put t {| rows := rows'; id_seq := id_seq tb |} w, Ok a)
  | Err e => (w, Err e)
  end.

(** A nullable [decimal] column of an insert type. *)
Definition numeric_field (precision scale : nat) (v : option (option string)) :
    result (option (option string)) :=
  match v with
  | None => Ok None
  | Some t => result_map Some (Pg.numeric_opt precision scale t)
  end.

(** What an [INSERT] stores for an optional nullable column, and what the
    [SET] list of the upsert leaves in it: drizzle drops [undefined] keys
    from [set], so a missing key keeps the old value. *)
Definition inserted {A : Type} (v : option (option A)) : option A := default None v.
Definition updated {A : Type} (v : option A) (old : A) : A := default old v.

(** ** [server/storage.ts]: [DatabaseStorage] *)

Definition string_eq (a b : string) : bool := String.eqb a b.

(** [const [row] = await query]: the first row, or [undefined]. *)
Definition first_row {Row : Type} (l : list Row) : option Row := head l.

Definition getUser (id : string) : Storage (option User.t) :=
  _ ← execute (SELECT "users");
  w ← world;
  mret (first_row (Pg.select_where (fun u => string_eq (User.id u) id) (users w))).

(** *** Stocks *)

Definition getStocks : Storage (list Stock.t) :=
  _ ← execute (SELECT "stocks");
  w ← world;
  mret (Pg.order_by_desc Stock.updatedAt (rows (stocks w))).

Definition getStock (id : Z) : Storage (option Stock.t) :=
  _ ← execute (SELECT "stocks");
  w ← world;
  mret (first_row (Pg.select_where (fun r => Stock.id r =? id) (rows (stocks w)))).

Definition getStockBySymbol (symbol : string) : Storage (option Stock.t) :=
  _ ← execute (SELECT "stocks");
  w ← world;
  mret (first_row (Pg.select_where (fun r => string_eq (Stock.symbol r) symbol) (rows (stocks w)))).

(** The parameters of the statement as the columns take them: the
    [decimal] ones coerced to their precision and scale. *)
Definition stocks_coerce (stock : InsertStock.t) : result InsertStock.t :=
  result_bind (Pg.numeric 10 2 (InsertStock.price stock)) (fun price =>
  result_bind (Pg.numeric 10 2 (InsertStock.change stock)) (fun change =>
  result_bind (Pg.numeric 5 2 (InsertStock.changePercent stock)) (fun changePercent =>
  result_bind (numeric_field 8 2 (InsertStock.peRatio stock)) (fun peRatio =>
  result_bind (numeric_field 10 2 (InsertStock.high52 stock)) (fun high52 =>
  result_bind (numeric_field 10 2 (InsertStock.low52 stock)) (fun low52 =>
  Ok {|
    InsertStock.id := InsertStock.id stock;
    InsertStock.symbol := InsertStock.symbol stock;
    InsertStock.company := InsertStock.company stock;
    InsertStock.price := price;
    InsertStock.change := change;
    InsertStock.changePercent := changePercent;
    InsertStock.volume := InsertStock.volume stock;
    InsertStock.marketCap := InsertStock.marketCap stock;
    InsertStock.peRatio := peRatio;
    InsertStock.high52 := high52;
    InsertStock.low52 := low52 |})))))).

(** [.values({ ...stock, updatedAt })] *)
Definition stocks_values (stock : InsertStock.t) (id : Z) (updatedAt : Date) : Stock.t := {|
  Stock.id := id;
  Stock.symbol := InsertStock.symbol stock;
  Stock.company := InsertStock.company stock;
  Stock.price := InsertStock.price stock;
  Stock.change := InsertStock.change stock;
  Stock.changePercent := InsertStock.changePercent stock;
  Stock.volume := InsertStock.volume stock;
  Stock.marketCap := inserted (InsertStock.marketCap stock);
  Stock.peRatio := inserted (InsertStock.peRatio stock);
  Stock.high52 := inserted (InsertStock.high52 stock);
  Stock.low52 := inserted (InsertStock.low52 stock);
  Stock.updatedAt := updatedAt |}.

(** [set: { ...stock, updatedAt }] *)
Definition stocks_set (stock : InsertStock.t) (updatedAt : Date) (old : Stock.t) : Stock.t := {|
  Stock.id := updated (InsertStock.id stock) (Stock.id old);
  Stock.symbol := InsertStock.symbol stock;
  Stock.company := InsertStock.company stock;
  Stock.price := InsertStock.price stock;
  Stock.change := InsertStock.change stock;
  Stock.changePercent := InsertStock.changePercent stock;
  Stock.volume := InsertStock.volume stock;
  Stock.marketCap := updated (InsertStock.marketCap stock) (Stock.marketCap old);
  Stock.peRatio := updated (InsertStock.peRatio stock) (Stock.peRatio old);
  Stock.high52 := updated (InsertStock.high52 stock) (Stock.high52 old);
  Stock.low52 := updated (InsertStock.low52 stock) (Stock.low52 old);
  Stock.updatedAt := updatedAt |}.

Definition stocks_symbol (r : Stock.t) : Pg.Datum := Pg.DText (Stock.symbol r).

(** The two [new Date()] are evaluated while the query is built; the
    parameters are coerced before the statement runs and draws the key. *)
Definition upsertStock (stock : InsertStock.t) : Storage Stock.t :=
  t_values ← new_Date;
  t_set ← new_Date;
  _ ← execute (INSERT "stocks");
  v ← settle (stocks_coerce stock);
  id ← serial stocks_table (InsertStock.id v);
  commit stocks_table
    (Pg.insert_on_conflict_do_update stocks_indexes stocks_symbol
       (stocks_values v id t_values) (stocks_set v t_set)).

(** *** Currency pairs *)

Definition getCurrencyPairs : Storage (list CurrencyPair.t) :=
  _ ← execute (SELECT "currency_pairs");
  w ← world;
  mret (Pg.order_by_desc CurrencyPair.updatedAt (rows (currencyPairs w))).

Definition getCurrencyPair (id : Z) : Storage (option CurrencyPair.t) :=
  _ ← execute (SELECT "currency_pairs");
  w ← world;
  mret (first_row (Pg.select_where (fun r => CurrencyPair.id r =? id) (rows (currencyPairs w)))).

Definition getCurrencyPairBySymbol (symbol : string) : Storage (option CurrencyPair.t) :=
  _ ← execute (SELECT "currency_pairs");
  w ← world;
  mret (first_row (Pg.select_where (fun r => string_eq (CurrencyPair.symbol r) symbol)
                     (rows (currencyPairs w)))).

(** The column default of [margin]. *)
Definition margin_default : string := "0.25".

Definition currency_pairs_coerce (pair : InsertCurrencyPair.t) : result InsertCurrencyPair.t :=
  result_bind (Pg.numeric 10 6 (InsertCurrencyPair.rate pair)) (fun rate =>
  result_bind (Pg.numeric 8 6 (InsertCurrencyPair.change pair)) (fun change =>
  result_bind (Pg.numeric 5 2 (InsertCurrencyPair.changePercent pair)) (fun changePercent =>
  result_bind (Pg.numeric_opt 5 2 (InsertCurrencyPair.margin pair)) (fun margin =>
  Ok {|
    InsertCurrencyPair.id := InsertCurrencyPair.id pair;
    InsertCurrencyPair.symbol := InsertCurrencyPair.symbol pair;
    InsertCurrencyPair.base := InsertCurrencyPair.base pair;
    InsertCurrencyPair.quote := InsertCurrencyPair.quote pair;
    InsertCurrencyPair.rate := rate;
    InsertCurrencyPair.change := change;
    InsertCurrencyPair.changePercent := changePercent;
    InsertCurrencyPair.margin := margin |})))).

Definition currency_pairs_values (pair : InsertCurrencyPair.t) (id : Z) (updatedAt : Date) :
    CurrencyPair.t := {|
  CurrencyPair.id := id;
  CurrencyPair.symbol := InsertCurrencyPair.symbol pair;
  CurrencyPair.base := InsertCurrencyPair.base pair;
  CurrencyPair.quote := InsertCurrencyPair.quote pair;
  CurrencyPair.rate := InsertCurrencyPair.rate pair;
  CurrencyPair.change := InsertCurrencyPair.change pair;
  CurrencyPair.changePercent := InsertCurrencyPair.changePercent pair;
  CurrencyPair.margin := default margin_default (InsertCurrencyPair.margin pair);
  CurrencyPair.updatedAt := updatedAt |}.

Definition currency_pairs_set (pair : InsertCurrencyPair.t) (updatedAt : Date)
    (old : CurrencyPair.t) : CurrencyPair.t := {|
  CurrencyPair.id := updated (InsertCurrencyPair.id pair) (CurrencyPair.id old);
  CurrencyPair.symbol := InsertCurrencyPair.symbol pair;
  CurrencyPair.base := InsertCurrencyPair.base pair;
  CurrencyPair.quote := InsertCurrencyPair.quote pair;
  CurrencyPair.rate := InsertCurrencyPair.rate pair;
  CurrencyPair.change := InsertCurrencyPair.change pair;
  CurrencyPair.changePercent := InsertCurrencyPair.changePercent pair;
  CurrencyPair.margin := updated (InsertCurrencyPair.margin pair) (CurrencyPair.margin old);
  CurrencyPair.updatedAt := updatedAt |}.

Definition currency_pairs_symbol (r : CurrencyPair.t) : Pg.Datum :=
  Pg.DText (CurrencyPair.symbol r).

Definition upsertCurrencyPair (pair : InsertCurrencyPair.t) : Storage CurrencyPair.t :=
  t_values ← new_Date;
  t_set ← new_Date;
  _ ← execute (INSERT "currency_pairs");
  v ← settle (currency_pairs_coerce pair);
  id ← serial currency_pairs_table (InsertCurrencyPair.id v);
  commit currency_pairs_table
    (Pg.insert_on_conflict_do_update currency_pairs_indexes currency_pairs_symbol
       (currency_pairs_values v id t_values) (currency_pairs_set v t_set)).

(** The [SET] list of [updateCurrencyMargin]. *)
Definition set_margin (margin : string) (updatedAt : Date) (old : CurrencyPair.t) : CurrencyPair.t := {|
  CurrencyPair.id := CurrencyPair.id old;
  CurrencyPair.symbol := CurrencyPair.symbol old;
  CurrencyPair.base := CurrencyPair.base old;
  CurrencyPair.quote := CurrencyPair.quote old;
  CurrencyPair.rate := CurrencyPair.rate old;
  CurrencyPair.change := CurrencyPair.change old;
  CurrencyPair.changePercent := CurrencyPair.changePercent old;
  CurrencyPair.margin := margin;
  CurrencyPair.updatedAt := updatedAt |}.

(** The new margin is a parameter of the statement: its coercion to
    [numeric(5,2)] is settled before any row is looked at. *)
Definition updateCurrencyMargin (symbol : string) (margin : Js.number) : Storage unit :=
  let text := Js.toString margin in
  updatedAt ← new_Date;
  _ ← execute (UPDATE "currency_pairs");
  m ← settle (Pg.numeric 5 2 text);
  commit currency_pairs_table (fun rows =>
    Ok (Pg.update_where (fun r => string_eq (CurrencyPair.symbol r) symbol)
          (set_margin m updatedAt) rows, tt)).

(** *** News *)

(** [limit: number = 20]: the default stands in for [undefined].  drizzle
    writes the [LIMIT] clause only for a number that is [>= 0], as a
    parameter, which the server reads as a [bigint]. *)
Definition getNewsArticles (limit : option Js.number) : Storage (list NewsArticle.t) :=
  let limit := default (Js.of_nat 20) limit in
  _ ← execute (SELECT "news_articles");
  w ← world;
  let sorted := Pg.order_by_desc NewsArticle.publishedAt (rows (newsArticles w)) in
  if Js.ge_zero limit then
    n ← settle (Pg.int8_in (Js.toString limit));
    mret (Pg.limit n sorted)
  else mret sorted.

Definition getNewsArticle (id : Z) : Storage (option NewsArticle.t) :=
  _ ← execute (SELECT "news_articles");
  w ← world;
  mret (first_row (Pg.select_where (fun r => NewsArticle.id r =? id) (rows (newsArticles w)))).

Definition upsertNewsArticle (article : InsertNewsArticle.t) : Storage NewsArticle.t :=
  createdAt ← new_Date;
  _ ← execute (INSERT "news_articles");
  id ← serial news_articles_table (InsertNewsArticle.id article);
  commit news_articles_table
    (Pg.insert news_articles_indexes {|
       NewsArticle.id := id;
       NewsArticle.title := InsertNewsArticle.title article;
       NewsArticle.summary := InsertNewsArticle.summary article;
       NewsArticle.content := inserted (InsertNewsArticle.content article);
       NewsArticle.source := InsertNewsArticle.source article;
       NewsArticle.imageUrl := inserted (InsertNewsArticle.imageUrl article);
       NewsArticle.publishedAt := InsertNewsArticle.publishedAt article;
       NewsArticle.createdAt := createdAt |}).

(** *** Favorites *)

Definition getUserFavorites (userId : string) : Storage (list UserFavorite.t) :=
  _ ← execute (SELECT "user_favorites");
  w ← world;
  mret (Pg.order_by_desc UserFavorite.createdAt
          (Pg.select_where (fun r => string_eq (UserFavorite.userId r) userId)
             (rows (userFavorites w)))).

(** [user_id] references [users.id]. *)
Definition user_exists (w : World) (userId : string) : bool :=
  existsb (fun u => string_eq (User.id u) userId) (users w).

Definition addUserFavorite (favorite : InsertUserFavorite.t) : Storage UserFavorite.t :=
  createdAt ← new_Date;
  _ ← execute (INSERT "user_favorites");
  id ← serial user_favorites_table (InsertUserFavorite.id favorite);
  w ← world;
  commit user_favorites_table (fun rows =>
    result_bind
      (Pg.insert user_favorites_indexes {|
         UserFavorite.id := id;
         UserFavorite.userId := InsertUserFavorite.userId favorite;
         UserFavorite.itemType := InsertUserFavorite.itemType favorite;
         UserFavorite.itemId := InsertUserFavorite.itemId favorite;
         UserFavorite.createdAt := createdAt |} rows)
      (fun done =>
         if user_exists w (InsertUserFavorite.userId favorite) then Ok done
         else Err (foreign_key_violation "user_favorites_user_id_users_id_fk"))).



(** *** Market indices *)

Definition getMarketIndices : Storage (list MarketIndex.t) :=
  _ ← execute (SELECT "market_indices");
  w ← world;
  mret (Pg.order_by_desc MarketIndex.updatedAt (rows (marketIndices w))).

Definition getMarketIndex (id : Z) : Storage (option MarketIndex.t) :=
  _ ← execute (SELECT "market_indices");
  w ← world;
  mret (first_row (Pg.select_where (fun r => MarketIndex.id r =? id) (rows (marketIndices w)))).

Definition market_indices_coerce (index : InsertMarketIndex.t) : result InsertMarketIndex.t :=
  result_bind (Pg.numeric 10 2 (InsertMarketIndex.value index)) (fun value =>
  result_bind (Pg.numeric 10 2 (InsertMarketIndex.change index)) (fun change =>
  result_bind (Pg.numeric 5 2 (InsertMarketIndex.changePercent index)) (fun changePercent =>
  Ok {|
    InsertMarketIndex.id := InsertMarketIndex.id index;
    InsertMarketIndex.name := InsertMarketIndex.name index;
    InsertMarketIndex.symbol := InsertMarketIndex.symbol index;
    InsertMarketIndex.value := value;
    InsertMarketIndex.change := change;
    InsertMarketIndex.changePercent := changePercent |}))).

Definition market_indices_values (index : InsertMarketIndex.t) (id : Z) (updatedAt : Date) :
    MarketIndex.t := {|
  MarketIndex.id := id;
  MarketIndex.name := InsertMarketIndex.name index;
  MarketIndex.symbol := InsertMarketIndex.symbol index;
  MarketIndex.value := InsertMarketIndex.value index;
  MarketIndex.change := InsertMarketIndex.change index;
  MarketIndex.changePercent := InsertMarketIndex.changePercent index;
  MarketIndex.updatedAt := updatedAt |}.

Definition market_indices_set (index : InsertMarketIndex.t) (updatedAt : Date)
    (old : MarketIndex.t) : MarketIndex.t := {|
  MarketIndex.id := updated (InsertMarketIndex.id index) (MarketIndex.id old);
  MarketIndex.name := InsertMarketIndex.name index;
  MarketIndex.symbol := InsertMarketIndex.symbol index;
  MarketIndex.value := InsertMarketIndex.value index;
  MarketIndex.change := InsertMarketIndex.change index;
  MarketIndex.changePercent := InsertMarketIndex.changePercent index;
  MarketIndex.updatedAt := updatedAt |}.

Definition market_indices_symbol (r : MarketIndex.t) : Pg.Datum :=
  Pg.DText (MarketIndex.symbol r).

(** The arbiter of the upsert is the index on [symbol]; the one on [name]
    is not. *)
Definition upsertMarketIndex (index : InsertMarketIndex.t) : Storage MarketIndex.t :=
  t_values ← new_Date;
  t_set ← new_Date;
  _ ← execute (INSERT "market_indices");
  v ← settle (market_indices_coerce index);
  id ← serial market_indices_table (InsertMarketIndex.id v);
  commit market_indices_table
    (Pg.insert_on_conflict_do_update market_indices_indexes market_indices_symbol
       (market_indices_values v id t_values) (market_indices_set v t_set)).

(** ** [server/routes.ts]: the HTTP handlers *)

Inductive Json : Type :=
| JMessage (message : string)
| JNews (articles : list NewsArticle.t).

Record Response : Type := {
  status : nat;
  body : Json;
}.

(** [res.status(code).json({ message })] *)
Definition respond (code : nat) (message : string) : Response :=
  {| status := code; body := JMessage message |}.

Definition console_log (line : string) (w : World) : World :=
  set_console (console w ++ [line]) w.

Definition log (line : string) : Storage unit := fun w => (console_log line w, Ok tt).

(** [console.error(label, error)]; the rendering of the error object is
    left out of the line. *)
Definition console_error (label : string) (w : World) : World :=
  set_console (console w ++ [label]) w.

(** [try { body } catch (error) { handler }] around an [async] body. *)
Definition try_catch {A : Type} (body : Storage A) (handler : PgError -> World -> World * A) :
    World -> World * A := fun w =>
  match body w with
  | (w', Ok a) => (w', a)
  | (w', Err e) => handler e w'
  end.

(** [user?.role !== 'admin'] *)
Definition not_admin (user : option User.t) : bool :=
  match user with
  | Some u => negb (string_eq (User.role u) "admin")
  | None => true
  end.

(** [app.put('/api/currencies/:symbol/margin', isAuthenticated, ...)], once
    [isAuthenticated] has let the request through: [sub] is
    [req.user.claims.sub], [symbol] is [req.params.symbol] and [margin] is
    [req.body.margin]. *)
Definition put_currency_margin (sub symbol : string) (margin : Js.value) : World -> World * Response :=
  try_catch
    (user ← getUser sub;
     if not_admin user then mret (respond 403 "Admin access required")
     else
       match margin with
       | Js.Number m =>
           if Js.lt_zero m then mret (respond 400 "Invalid margin value")
           else
             _ ← updateCurrencyMargin symbol m;
             mret (respond 200 "Margin updated successfully")
       | _ => mret (respond 400 "Invalid margin value")
       end)
    (fun e w => (console_error "Error updating currency margin:" w,
                 respond 500 "Failed to update currency margin")).

Section News.

(** The global [parseInt], applied to a string with the default radix. *)
Variable parseInt : string -> Js.number.


End News.

(** ** [initializeSampleData] *)

(** [for (const x of xs) { await f(x); }] *)
Fixpoint for_of {A B : Type} (xs : list A) (f : A -> Storage B) : Storage unit :=
  match xs with
  | [] => mret tt
  | x :: xs' => _ ← f x; for_of xs' f
  end.

Definition sampleIndices : list InsertMarketIndex.t :=
  let index name symbol value change changePercent := {|
    InsertMarketIndex.id := None;
    InsertMarketIndex.name := name;
    InsertMarketIndex.symbol := symbol;
    InsertMarketIndex.value := value;
    InsertMarketIndex.change := change;
    InsertMarketIndex.changePercent := changePercent |} in
  [ index "S&P 500" "SPX" "4547.38" "54.23" "1.20";
    index "NASDAQ" "IXIC" "14221.71" "-71.23" "-0.50";
    index "DOW JONES" "DJI" "35630.68" "280.15" "0.80";
    index "VIX" "VIX" "18.42" "0.02" "0.10" ].

Definition sampleStocks : list InsertStock.t :=
  let stock symbol company price change changePercent volume marketCap peRatio high52 low52 := {|
    InsertStock.id := None;
    InsertStock.symbol := symbol;
    InsertStock.company := company;
    InsertStock.price := price;
    InsertStock.change := change;
    InsertStock.changePercent := changePercent;
    InsertStock.volume := volume;
    InsertStock.marketCap := Some (Some marketCap);
    InsertStock.peRatio := Some (Some peRatio);
    InsertStock.high52 := Some (Some high52);
    InsertStock.low52 := Some (Some low52) |} in
  [ stock "AAPL" "Apple Inc." "175.43" "3.64" "2.10" "47.2M" "$2.75T" "28.5" "199.62" "124.17";
    stock "MSFT" "Microsoft Corp." "378.85" "-2.15" "-0.60" "23.1M" "$2.81T" "32.1" "384.30" "212.43";
    stock "GOOGL" "Alphabet Inc." "2847.63" "-22.41" "-0.80" "18.9M" "$1.84T" "25.8" "2950.10" "2193.62";
    stock "TSLA" "Tesla Inc." "248.91" "12.34" "5.20" "62.7M" "$789B" "78.2" "299.29" "138.80";
    stock "NVDA" "NVIDIA Corp." "452.28" "8.92" "2.00" "34.5M" "$1.12T" "65.4" "502.66" "180.68" ].

Definition sampleCurrencies : list InsertCurrencyPair.t :=
  let pair symbol base quote rate change changePercent margin := {|
    InsertCurrencyPair.id := None;
    InsertCurrencyPair.symbol := symbol;
    InsertCurrencyPair.base := base;
    InsertCurrencyPair.quote := quote;
    InsertCurrencyPair.rate := rate;
    InsertCurrencyPair.change := change;
    InsertCurrencyPair.changePercent := changePercent;
    InsertCurrencyPair.margin := Some margin |} in
  [ pair "EUR/USD" "EUR" "USD" "1.084200" "0.001300" "0.12" "0.25";
    pair "GBP/USD" "GBP" "USD" "1.215600" "-0.000973" "-0.08" "0.30";
    pair "USD/JPY" "USD" "JPY" "149.850000" "0.360000" "0.24" "0.20";
    pair "AUD/USD" "AUD" "USD" "0.645500" "-0.000968" "-0.15" "0.35" ].

Definition hours (n : Z) : Z := n * 60 * 60 * 1000.

(** The four articles; each [Date.now()] is a reading of the clock. *)
Definition sampleNews : Storage (list InsertNewsArticle.t) :=
  let article title summary source imageUrl publishedAt := {|
    InsertNewsArticle.id := None;
    InsertNewsArticle.title := title;
    InsertNewsArticle.summary := summary;
    InsertNewsArticle.content := Some (Some "Full article content here...");
    InsertNewsArticle.source := source;
    InsertNewsArticle.imageUrl := Some (Some imageUrl);
    InsertNewsArticle.publishedAt := publishedAt |} in
  now1 ← new_Date;
  now2 ← new_Date;
  now3 ← new_Date;
  now4 ← new_Date;
  mret
  [ article "Fed Signals Potential Rate Cuts in 2024 as Inflation Shows Signs of Cooling"
      "Federal Reserve officials hint at possible interest rate reductions next year as consumer price index shows encouraging downward trend..."
      "Reuters"
      "https://images.unsplash.com/photo-1551288049-bebda4e38f71?ixlib=rb-4.0.3&auto=format&fit=crop&w=300&h=150"
      (now1 - hours 2);
    article "Tech Stocks Rally as AI Sector Continues Strong Performance"
      "Major technology companies see significant gains as artificial intelligence investments drive market confidence and quarterly earnings exceed expectations..."
      "MarketWatch"
      "https://images.unsplash.com/photo-1590283603385-17ffb3a7f29f?ixlib=rb-4.0.3&auto=format&fit=crop&w=300&h=150"
      (now2 - hours 4);
    article "Oil Prices Surge on OPEC+ Production Cut Announcement"
      "Crude oil futures jump 3% following OPEC+ decision to extend production cuts through Q2 2024, supporting global energy market stability..."
      "Bloomberg"
      "https://images.unsplash.com/photo-1578662996442-48f60103fc96?ixlib=rb-4.0.3&auto=format&fit=crop&w=300&h=150"
      (now3 - hours 6);
    article "Major Banks Report Strong Q4 Earnings Amid Rising Interest Rates"
      "Leading financial institutions benefit from higher net interest margins, with several banks beating analyst expectations for fourth quarter performance..."
      "Financial Times"
      "https://images.unsplash.com/photo-1486406146926-c627a92ad1ab?ixlib=rb-4.0.3&auto=format&fit=crop&w=300&h=150"
      (now4 - hours 8) ].

Definition initializeSampleData : World -> World * unit :=
  try_catch
    (_ ← for_of sampleIndices upsertMarketIndex;
     _ ← for_of sampleStocks upsertStock;
     _ ← for_of sampleCurrencies upsertCurrencyPair;
     news ← sampleNews;
     _ ← for_of news upsertNewsArticle;
     log "Sample data initialized successfully")
    (fun e w => (console_error "Error initializing sample data:" w, tt)).

(** ** [server/routes.ts]: the WebSocket server *)

(** [ws.readyState] *)
Inductive ReadyState : Type := CONNECTING | OPEN | CLOSING | CLOSED.

#[global] Instance ReadyState_eq_dec : EqDecision ReadyState.
Proof. solve_decision. Defined.

(** What the four reads of [sendMarketUpdate] resolve to. *)
Definition Snapshot : Type :=
  (list Stock.t * list CurrencyPair.t * list MarketIndex.t * list NewsArticle.t)%type.

(** The object handed to [JSON.stringify] and [ws.send]. *)
Module MarketUpdate.
Record data : Type := {
  stocks : list Stock.t;
  currencies : list CurrencyPair.t;
  indices : list MarketIndex.t;
  news : list NewsArticle.t;
  timestamp : Date;
}.
Record t : Type := {
  type : string;
  payload : data;
}.
End MarketUpdate.

(** [Promise.all([a, b, c, d])]: the four calls are all made; the result is
    fulfilled when each is, and rejected when one is. *)
Definition Promise_all4 {A B C D : Type}
    (a : Storage A) (b : Storage B) (c : Storage C) (d : Storage D) : Storage (A * B * C * D) :=
  fun w =>
    let '(w1, ra) := a w in
    let '(w2, rb) := b w1 in
    let '(w3, rc) := c w2 in
    let '(w4, rd) := d w3 in
    (w4, result_bind ra (fun x => result_bind rb (fun y => result_bind rc (fun z =>
           result_bind rd (fun u => Ok (x, y, z, u)))))).

(** The reads of one call of [sendMarketUpdate]. *)
Definition market_reads : Storage Snapshot :=
  Promise_all4 getStocks getCurrencyPairs getMarketIndices (getNewsArticles (Some (Js.of_nat 10))).

(** One connection, as the closures of its ['connection'] callback see it:
    the socket's state, the messages given to [ws.send], the timer in
    [updateInterval], the calls of [sendMarketUpdate] suspended at their
    [await] with what [Promise.all] settles to, and the number of calls of
    [sendMarketUpdate] made so far. *)
Record Socket : Type := {
  readyState : ReadyState;
  sent : list MarketUpdate.t;
  updateInterval : nat;
  pending : list (result Snapshot);
  calls : nat;
}.

(** An interval timer of the event loop: the socket whose
    [sendMarketUpdate] it calls, and its period in milliseconds. *)
Record Timer : Type := {
  callback : nat;
  delay : Z;
}.

Record Server : Type := {
  env : World;
  sockets : gmap nat Socket;
  timers : gmap nat Timer;
  next_socket : nat;
  next_timer : nat;
}.

Definition listening (w : World) : Server :=
  {| env := w; sockets := ∅; timers := ∅; next_socket := O; next_timer := O |}.

Definition set_env (w : World) (srv : Server) : Server :=
  {| env := w; sockets := sockets srv; timers := timers srv;
     next_socket := next_socket srv; next_timer := next_timer srv |}.

Definition set_sockets (m : gmap nat Socket) (srv : Server) : Server :=
  {| env := env srv; sockets := m; timers := timers srv;
     next_socket := next_socket srv; next_timer := next_timer srv |}.

Definition set_timers (m : gmap nat Timer) (srv : Server) : Server :=
  {| env := env srv; sockets := sockets srv; timers := m;
     next_socket := next_socket srv; next_timer := next_timer srv |}.

Definition set_readyState (r : ReadyState) (s : Socket) : Socket :=
  {| readyState := r; sent := sent s; updateInterval := updateInterval s;
     pending := pending s; calls := calls s |}.

Definition set_pending (l : list (result Snapshot)) (s : Socket) : Socket :=
  {| readyState := readyState s; sent := sent s; updateInterval := updateInterval s;
     pending := l; calls := calls s |}.

(** [ws.send(message)] *)
Definition send (m : MarketUpdate.t) (s : Socket) : Socket :=
  {| readyState := readyState s; sent := sent s ++ [m]; updateInterval := updateInterval s;
     pending := pending s; calls := calls s |}.

(** One more call of [sendMarketUpdate] waits for its reads. *)
Definition suspend (outcome : result Snapshot) (s : Socket) : Socket :=
  {| readyState := readyState s; sent := sent s; updateInterval := updateInterval s;
     pending := pending s ++ [outcome]; calls := S (calls s) |}.

(** [sendMarketUpdate()] up to its [await]: the four reads go out and the
    call is suspended. *)
Definition sendMarketUpdate (ws : nat) (srv : Server) : Server :=
  let '(w, outcome) := market_reads (env srv) in
  set_env w (set_sockets (alter (suspend outcome) ws (sockets srv)) srv).

(** [{ type: 'market_update', data: { stocks, currencies, indices, news,
    timestamp } }]; the timestamp is kept as the [Date], not as its ISO
    string, and the object is not serialised. *)
Definition market_update (snapshot : Snapshot) (now : Date) : MarketUpdate.t :=
  let '(stocks, currencies, indices, news) := snapshot in
  {| MarketUpdate.type := "market_update";
     MarketUpdate.payload := {|
       MarketUpdate.stocks := stocks;
       MarketUpdate.currencies := currencies;
       MarketUpdate.indices := indices;
       MarketUpdate.news := news;
       MarketUpdate.timestamp := now |} |}.

(** The rest of a call of [sendMarketUpdate], once its reads have settled:
    [s] is the socket with the call taken off its suspended ones. *)
Definition sendMarketUpdate_resume (ws : nat) (s : Socket) (outcome : result Snapshot)
    (srv : Server) : Server :=
  match outcome with
  | Ok snapshot =>
      if decide (readyState s = OPEN) then
        let '(w, now) := read_clock (env srv) in
        set_env w (set_sockets (<[ws := send (market_update snapshot now) s]> (sockets srv)) srv)
      else set_sockets (<[ws := s]> (sockets srv)) srv
  | Err e =>
      set_env (console_error "Error sending market update:" (env srv))
        (set_sockets (<[ws := s]> (sockets srv)) srv)
  end.

(** The statements of the ['close'] and ['error'] listeners. *)
Inductive Action : Type :=
| ConsoleLog (line : string)
| ConsoleError (label : string)
| ClearInterval (timer : nat).

Definition perform (a : Action) (srv : Server) : Server :=
  match a with
  | ConsoleLog line => set_env (console_log line (env srv)) srv
  | ConsoleError label => set_env (console_error label (env srv)) srv
  | ClearInterval t => set_timers (delete t (timers srv)) srv
  end.

Definition perform_all (l : list Action) (srv : Server) : Server :=
  fold_left (fun srv a => perform a srv) l srv.

(** [ws.on('close', ...)] *)
Definition on_close (updateInterval : nat) : list Action :=
  [ConsoleLog "WebSocket connection closed"; ClearInterval updateInterval].

(** [ws.on('error', ...)] *)
Definition on_error (updateInterval : nat) : list Action :=
  [ConsoleError "WebSocket error:"; ClearInterval updateInterval].

(** [wss.on('connection', (ws) => ...)]: the socket is open; the first
    snapshot is requested, then the interval is set and its timer kept in
    [updateInterval]. *)
Definition on_connection (srv : Server) : Server :=
  let ws := next_socket srv in
  let t := next_timer srv in
  let srv1 := set_env (console_log "New WebSocket connection" (env srv)) srv in
  let srv2 :=
    set_sockets
      (<[ws := {| readyState := OPEN; sent := []; updateInterval := t;
                  pending := []; calls := O |}]> (sockets srv1)) srv1 in
  let srv3 := sendMarketUpdate ws srv2 in
  {| env := env srv3;
     sockets := sockets srv3;
     timers := <[t := {| callback := ws; delay := 4000 |}]> (timers srv3);
     next_socket := S ws;
     next_timer := S t |}.

(** What the event loop of the process dispatches. *)
Inductive Event : Type :=
| Connection
| IntervalElapsed (timer : nat)
| ReadsSettled (socket k : nat)
| CloseFrame (socket : nat)
| Close (socket : nat)
| Error (socket : nat)
| Request (handler : World -> World).

(** One turn of the event loop.
    - [IntervalElapsed t] runs the callback of timer [t] if it is still set;
    - [ReadsSettled ws k] resumes the [k]-th suspended call of socket [ws];
    - [CloseFrame ws]: the peer starts the closing handshake, the library
      moves the socket to [CLOSING] and no listener of [routes.ts] runs;
    - [Close ws]: the library sets [CLOSED] and emits ['close'];
    - [Error ws]: the library leaves [OPEN] for [CLOSING] and emits ['error'];
    - [Request h]: an HTTP handler runs on the world. *)
Definition step (e : Event) (srv : Server) : Server :=
  match e with
  | Connection => on_connection srv
  | IntervalElapsed t =>
      match timers srv !! t with
      | Some tm => sendMarketUpdate (callback tm) srv
      | None => srv
      end
  | ReadsSettled ws k =>
      match sockets srv !! ws with
      | Some s =>
          match pending s !! k with
          | Some outcome =>
              sendMarketUpdate_resume ws (set_pending (delete k (pending s)) s) outcome srv
          | None => srv
          end
      | None => srv
      end
  | CloseFrame ws =>
      match sockets srv !! ws with
      | Some s =>
          if decide (readyState s = OPEN)
          then set_sockets (<[ws := set_readyState CLOSING s]> (sockets srv)) srv
          else srv
      | None => srv
      end
  | Close ws =>
      match sockets srv !! ws with
      | Some s =>
          perform_all (on_close (updateInterval s))
            (set_sockets (<[ws := set_readyState CLOSED s]> (sockets srv)) srv)
      | None => srv
      end
  | Error ws =>
      match sockets srv !! ws with
      | Some s =>
          perform_all (on_error (updateInterval s))
            (set_sockets
               (<[ws := set_readyState
                          (if decide (readyState s = CLOSED) then CLOSED else CLOSING) s]>
                  (sockets srv)) srv)
      | None => srv
      end
  | Request h => set_env (h (env srv)) srv
  end.

Definition run (es : list Event) (srv : Server) : Server :=
  fold_left (fun srv e => step e srv) es srv.

(** ** [server/routes.ts]: the handlers of the other routes *)

(** What these handlers answer with: [res.json(data)], which is status 200,
    or [res.status(code).json({ message })]. *)
Inductive Body (A : Type) : Type :=
| Data (a : A)
| Message (message : string).
Arguments Data {A} a.
Arguments Message {A} message.

Record Reply (A : Type) : Type := {
  code : nat;
  content : Body A;
}.
Arguments code {A} _.
Arguments content {A} _.

(** [res.json(data)] *)
Definition json {A : Type} (data : A) : Reply A := {| code := 200; content := Data data |}.

(** [res.status(code).json({ message })] *)
Definition status_json {A : Type} (code : nat) (message : string) : Reply A :=
  {| code := code; content := Message message |}.

(** [app.get('/api/auth/user', isAuthenticated, ...)]; [sub] is
    [req.user.claims.sub].  A user that is [undefined] is answered as
    such. *)
Definition get_auth_user (sub : string) : World -> World * Reply (option User.t) :=
  try_catch
    (user ← getUser sub;
     mret (json user))
    (fun e w => (console_error "Error fetching user:" w,
                 status_json 500 "Failed to fetch user")).

(** [app.get('/api/market/indices', ...)] *)
Definition get_market_indices : World -> World * Reply (list MarketIndex.t) :=
  try_catch
    (indices ← getMarketIndices;
     mret (json indices))
    (fun e w => (console_error "Error fetching market indices:" w,
                 status_json 500 "Failed to fetch market indices")).

(** [app.get('/api/stocks', ...)] *)
Definition get_stocks : World -> World * Reply (list Stock.t) :=
  try_catch
    (stocks ← getStocks;
     mret (json stocks))
    (fun e w => (console_error "Error fetching stocks:" w,
                 status_json 500 "Failed to fetch stocks")).

(** [int4in]: an optional sign and digits, within the range of [integer]. *)
Definition int4_in (txt : string) : result Z :=
  let '(neg, cs) := Pg.parse_sign (list_ascii_of_string txt) in
  match Digits.span cs with
  | ((_ :: _) as ds, []) =>
      let x := Z.of_N (Digits.of_digits ds) in
      let z := if neg then - x else x in
      if (- 2 ^ 31 <=? z) && (z <? 2 ^ 31) then Ok z
      else Err numeric_value_out_of_range
  | _ => Err (invalid_text_representation "integer" txt)
  end.

(** [getStock(id)] for whatever number it is called with: the number is a
    parameter of [where id = $1], sent as its [toString] and read by the
    server as an [integer]. *)
Definition getStock_number (id : Js.number) : Storage (option Stock.t) :=
  _ ← execute (SELECT "stocks");
  z ← settle (int4_in (Js.toString id));
  w ← world;
  mret (first_row (Pg.select_where (fun r => Stock.id r =? z) (rows (stocks w)))).

(** [app.get('/api/stocks/:id', ...)]; [id] is [parseInt(req.params.id)]. *)
Definition get_stock (id : Js.number) : World -> World * Reply Stock.t :=
  try_catch
    (stock ← getStock_number id;
     match stock with
     | None => mret (status_json 404 "Stock not found")
     | Some stock => mret (json stock)
     end)
    (fun e w => (console_error "Error fetching stock:" w,
                 status_json 500 "Failed to fetch stock")).

(** [app.get('/api/currencies', ...)] *)
Definition get_currencies : World -> World * Reply (list CurrencyPair.t) :=
  try_catch
    (pairs ← getCurrencyPairs;
     mret (json pairs))
    (fun e w => (console_error "Error fetching currency pairs:" w,
                 status_json 500 "Failed to fetch currency pairs")).

(** [app.get('/api/favorites', isAuthenticated, ...)] *)
Definition get_favorites (sub : string) : World -> World * Reply (list UserFavorite.t) :=
  try_catch
    (favorites ← getUserFavorites sub;
     mret (json favorites))
    (fun e w => (console_error "Error fetching favorites:" w,
                 status_json 500 "Failed to fetch favorites")).

(** [app.post('/api/favorites', isAuthenticated, ...)], for a body whose
    [itemType] and [itemId] are strings where they are present: [None] is a
    missing key. *)
Definition post_favorite (sub : string) (itemType itemId : option string) :
    World -> World * Reply UserFavorite.t :=
  try_catch
    (match itemType, itemId with
     | Some type, Some item =>
         if negb (Js.truthy_string itemType) || negb (Js.truthy_string itemId)
         then mret (status_json 400 "itemType and itemId are required")
         else
           favorite ← addUserFavorite {|
             InsertUserFavorite.id := None;
             InsertUserFavorite.userId := sub;
             InsertUserFavorite.itemType := type;
             InsertUserFavorite.itemId := item |};
           mret (json favorite)
     | _, _ => mret (status_json 400 "itemType and itemId are required")
     end)
    (fun e w => (console_error "Error adding favorite:" w,
                 status_json 500 "Failed to add favorite")).


Record MockUser : Type := {
  mock_id : string;
  mock_name : string;
  mock_email : string;
  mock_role : string;
}.

Definition mockUsers : list MockUser :=
  [ {| mock_id := "1"; mock_name := "John Trader";
       mock_email := "john.trader@company.com"; mock_role := "Regular User" |};
    {| mock_id := "2"; mock_name := "Sarah Admin";
       mock_email := "sarah.admin@company.com"; mock_role := "Administrator" |};
    {| mock_id := "3"; mock_name := "Mike Analyst";
       mock_email := "mike.analyst@company.com"; mock_role := "Premium User" |} ].

(** [app.get('/api/admin/users', isAuthenticated, ...)] *)
Definition get_admin_users (sub : string) : World -> World * Reply (list MockUser) :=
  try_catch
    (user ← getUser sub;
     if not_admin user then mret (status_json 403 "Admin access required")
     else mret (json mockUsers))
    (fun e w => (console_error "Error fetching users:" w,
                 status_json 500 "Failed to fetch users")).

(** ** Vocabulary of the specification *)

(** The database can be reached by the next statement. *)
Definition reachable (w : World) : bool := online w (length (statements w)).


(** The world once a method has run: the clocks read, the statement sent. *)
Definition after_statement (reads : nat) (s : Statement) (w : World) : World :=
  set_statements (statements w ++ [s]) (set_clock_reads (reads + clock_reads w) w).

(** The world once a [serial] key has been drawn, and the key. *)
Definition drawn {Row : Type} (t : TableRef Row) (supplied : option Z) (w : World) : World * Z :=
  match supplied with
  | Some i => (w, i)
  | None => (put t {| rows := rows (get t w); id_seq := id_seq (get t w) + 1 |} w,
             id_seq (get t w))
  end.




(** [row] holds what [stock] provides, each [decimal] as its column renders
    it. *)
Definition stock_written (stock : InsertStock.t) (row : Stock.t) : Prop :=
  Stock.symbol row = InsertStock.symbol stock /\
  Stock.company row = InsertStock.company stock /\
  Pg.numeric 10 2 (InsertStock.price stock) = Ok (Stock.price row) /\
  Pg.numeric 10 2 (InsertStock.change stock) = Ok (Stock.change row) /\
  Pg.numeric 5 2 (InsertStock.changePercent stock) = Ok (Stock.changePercent row) /\
  Stock.volume row = InsertStock.volume stock /\
  (forall x, InsertStock.id stock = Some x -> Stock.id row = x) /\
  (forall x, InsertStock.marketCap stock = Some x -> Stock.marketCap row = x) /\
  (forall x, InsertStock.peRatio stock = Some x -> Pg.numeric_opt 8 2 x = Ok (Stock.peRatio row)) /\
  (forall x, InsertStock.high52 stock = Some x -> Pg.numeric_opt 10 2 x = Ok (Stock.high52 row)) /\
  (forall x, InsertStock.low52 stock = Some x -> Pg.numeric_opt 10 2 x = Ok (Stock.low52 row)).

(** [new] is [old] with the margin and the timestamp replaced and every
    other column as it was. *)
Definition margin_updated (margin : string) (now : Date) (old new : CurrencyPair.t) : Prop :=
  CurrencyPair.margin new = margin /\
  CurrencyPair.updatedAt new = now /\
  CurrencyPair.rate new = CurrencyPair.rate old /\
  CurrencyPair.change new = CurrencyPair.change old /\
  CurrencyPair.changePercent new = CurrencyPair.changePercent old /\
  CurrencyPair.id new = CurrencyPair.id old /\
  CurrencyPair.symbol new = CurrencyPair.symbol old /\
  CurrencyPair.base new = CurrencyPair.base old /\
  CurrencyPair.quote new = CurrencyPair.quote old.

(** Whether the [numeric] literal [txt] has the value of the number [x]. *)
Definition denotes (txt : string) (x : Js.number) : bool :=
  match Pg.numeric_in txt, x with
  | Ok Pg.NumNaN, Js.NaN => true
  | Ok (Pg.NumInfinity a), Js.Infinity b => bool_decide (a = b)
  | Ok (Pg.Num n1 c1 e1), Js.Finite n2 c2 e2 =>
      let e := Z.min e1 e2 in
      (c1 * 10 ^ Z.to_N (e1 - e) =? c2 * 10 ^ Z.to_N (e2 - e))%N
      && (bool_decide (n1 = n2) || (c1 =? 0)%N)
  | _, _ => false
  end.

(** The [numeric] value a JavaScript number stands for. *)
Definition numeric_of_number (x : Js.number) : Pg.numeric_value :=
  match x with
  | Js.NaN => Pg.NumNaN
  | Js.Infinity neg => Pg.NumInfinity neg
  | Js.Finite neg c e => Pg.Num neg c e
  end.

(** What the digits of a literal end at: the end of the text, or a character
    that is neither a digit nor the decimal point. *)
Definition stops (tail : list ascii) : Prop :=
  match tail with
  | c :: _ => Digits.char_digit c = None /\ Ascii.eqb c "." = false
  | [] => True
  end.

(** A world in which every clock reading is a millisecond after the last
    and the database is always reachable, once [initializeSampleData] has
    run. *)
Definition ticking : nat -> Date := fun n => 1700000000000 + Z.of_nat n.
Definition always_online : nat -> bool := fun _ => true.
Definition seeded : World := fst (initializeSampleData (empty_world ticking always_online)).


(** [row] holds what [index] provides, each [decimal] as its column renders
    it. *)
Definition index_written (index : InsertMarketIndex.t) (row : MarketIndex.t) : Prop :=
  MarketIndex.name row = InsertMarketIndex.name index /\
  MarketIndex.symbol row = InsertMarketIndex.symbol index /\
  Pg.numeric 10 2 (InsertMarketIndex.value index) = Ok (MarketIndex.value row) /\
  Pg.numeric 10 2 (InsertMarketIndex.change index) = Ok (MarketIndex.change row) /\
  Pg.numeric 5 2 (InsertMarketIndex.changePercent index) = Ok (MarketIndex.changePercent row) /\
  (forall x, InsertMarketIndex.id index = Some x -> MarketIndex.id row = x).


(** The seeded AAPL stock at a new price. *)
Definition aapl_at_180 : InsertStock.t := {|
  InsertStock.id := None;
  InsertStock.symbol := "AAPL";
  InsertStock.company := "Apple Inc.";
  InsertStock.price := "180.00";
  InsertStock.change := "4.57";
  InsertStock.changePercent := "2.60";
  InsertStock.volume := "51.3M";
  InsertStock.marketCap := Some (Some "$2.82T");
  InsertStock.peRatio := None;
  InsertStock.high52 := None;
  InsertStock.low52 := None |}.

(** What [POST /api/favorites] hands to [addUserFavorite]; [id] is there
    for the insert type's optional key. *)
Definition favorite (id : option Z) (userId itemType itemId : string) : InsertUserFavorite.t := {|
  InsertUserFavorite.id := id;
  InsertUserFavorite.userId := userId;
  InsertUserFavorite.itemType := itemType;
  InsertUserFavorite.itemId := itemId |}.


(** The seeded world with a user and an administrator signed up. *)
Definition trader : User.t := {|
  User.id := "42";
  User.email := Some "john.trader@company.com";
  User.firstName := Some "John";
  User.lastName := Some "Trader";
  User.profileImageUrl := None;
  User.role := "user";
  User.createdAt := Some 1700000000000;
  User.updatedAt := Some 1700000000000 |}.

Definition administrator : User.t := {|
  User.id := "7";
  User.email := Some "sarah.admin@company.com";
  User.firstName := Some "Sarah";
  User.lastName := Some "Admin";
  User.profileImageUrl := None;
  User.role := "admin";
  User.createdAt := Some 1700000000000;
  User.updatedAt := Some 1700000000000 |}.

Definition signed_up : World := set_users [trader; administrator] seeded.


(** The actions of a listener that take the connection down; a line on the
    console does not. *)
Definition is_teardown (a : Action) : bool :=
  match a with
  | ClearInterval _ => true
  | ConsoleLog _ | ConsoleError _ => false
  end.

(** What holds of the server at every turn of the event loop: a timer calls
    the [sendMarketUpdate] of the one socket that keeps it in
    [updateInterval], with a period of four seconds, and sockets and timers
    are numbered below the next ones. *)
Record consistent (srv : Server) : Prop := {
  timer_owner : forall t tm, timers srv !! t = Some tm ->
    delay tm = 4000 /\
    exists s, sockets srv !! callback tm = Some s /\ updateInterval s = t;
  socket_bounds : forall ws s, sockets srv !! ws = Some s ->
    (ws < next_socket srv)%nat /\ (updateInterval s < next_timer srv)%nat;
  own_interval : forall ws1 ws2 s1 s2,
    sockets srv !! ws1 = Some s1 -> sockets srv !! ws2 = Some s2 ->
    updateInterval s1 = updateInterval s2 -> ws1 = ws2;
}.

(** The four reads of [sendMarketUpdate], one after the other. *)
Definition reads_of (w : World) :
    result (list Stock.t) * result (list CurrencyPair.t) *
    result (list MarketIndex.t) * result (list NewsArticle.t) :=
  let r1 := getStocks w in
  let r2 := getCurrencyPairs (fst r1) in
  let r3 := getMarketIndices (fst r2) in
  let r4 := getNewsArticles (Some (Js.of_nat 10)) (fst r3) in
  (snd r1, snd r2, snd r3, snd r4).

(** No timer calls the [sendMarketUpdate] of socket [ws], and the socket is
    not open. *)
Definition silenced (ws : nat) (srv : Server) : Prop :=
  (forall t tm, timers srv !! t = Some tm -> callback tm <> ws) /\
  exists s, sockets srv !! ws = Some s /\ readyState s <> OPEN.

(** What a connection has been sent, and how many snapshots were requested
    for it. *)
Definition traffic (ws : nat) (srv : Server) : option (list MarketUpdate.t * nat) :=
  (fun s => (sent s, calls s)) <$> sockets srv !! ws.

(** A server with two connections, in the seeded world. *)
Definition two_connections : Server := run [Connection; Connection] (listening seeded).

(** The seeded world with the database out of reach. *)
Definition outage : World := set_online (fun _ => false) seeded.

(** ** Vocabulary of the further properties *)


(** The tables of the world. *)
Definition database (w : World) :=
  (users w, stocks w, currencyPairs w, newsArticles w, userFavorites w, marketIndices w).

(** [row] holds what [pair] provides, each [decimal] as its column renders
    it. *)
Definition pair_written (pair : InsertCurrencyPair.t) (row : CurrencyPair.t) : Prop :=
  CurrencyPair.symbol row = InsertCurrencyPair.symbol pair /\
  CurrencyPair.base row = InsertCurrencyPair.base pair /\
  CurrencyPair.quote row = InsertCurrencyPair.quote pair /\
  Pg.numeric 10 6 (InsertCurrencyPair.rate pair) = Ok (CurrencyPair.rate row) /\
  Pg.numeric 8 6 (InsertCurrencyPair.change pair) = Ok (CurrencyPair.change row) /\
  Pg.numeric 5 2 (InsertCurrencyPair.changePercent pair) = Ok (CurrencyPair.changePercent row) /\
  (forall m, InsertCurrencyPair.margin pair = Some m ->
             Pg.numeric 5 2 m = Ok (CurrencyPair.margin row)).

(** The world beside one of its tables: the other tables and the console. *)
Definition beside {Row : Type} (t : TableRef Row) (w : World) :=
  (database (put t empty_table w), console w).

(** The two lines [initializeSampleData] ends with. *)
Definition seeding_done : string := "Sample data initialized successfully".
Definition seeding_failed : string := "Error initializing sample data:".

(** [initializeSampleData] ran to its end. *)
Definition seeds (w : World) : Prop :=
  console (fst (initializeSampleData w)) = console w ++ [seeding_done].

(** A fresh database behind a clock, always reachable. *)
Definition fresh (clock : nat -> Date) : World := empty_world clock always_online.

(** A run of [initializeSampleData], with what each of its stages leaves
    alone.  [w1], [w2], [w3] and [w5] are the worlds after the loops over
    indices, stocks, currency pairs and news. *)
Record stages (w w1 w2 w3 w5 : World) (news : list InsertNewsArticle.t) : Prop := {
  stage_indices : fst (for_of sampleIndices upsertMarketIndex w) = w1;
  stage_stocks : fst (for_of sampleStocks upsertStock w1) = w2;
  stage_currencies : fst (for_of sampleCurrencies upsertCurrencyPair w2) = w3;
  stage_news : fst (for_of news upsertNewsArticle (set_clock_reads (4 + clock_reads w3) w3)) = w5;
  stage_articles : length news = 4%nat;
  after_indices : beside market_indices_table w1 = beside market_indices_table w;
  after_stocks : beside stocks_table w2 = beside stocks_table w1;
  after_currencies : beside currency_pairs_table w3 = beside currency_pairs_table w2;
  after_news : beside news_articles_table w5 = beside news_articles_table w3;
}.

(** From [w] to [w'] users, favorites and console are the same and the
    unique indexes of the seeded tables are still intact. *)
Definition unharmed (w w' : World) : Prop :=
  users w' = users w /\ userFavorites w' = userFavorites w /\ console w' = console w /\
  (Pg.unique_keys market_indices_indexes (rows (marketIndices w)) ->
   Pg.unique_keys market_indices_indexes (rows (marketIndices w'))) /\
  (Pg.unique_keys stocks_indexes (rows (stocks w)) ->
   Pg.unique_keys stocks_indexes (rows (stocks w'))) /\
  (Pg.unique_keys currency_pairs_indexes (rows (currencyPairs w)) ->
   Pg.unique_keys currency_pairs_indexes (rows (currencyPairs w'))).

(** The seeded world once an administrator has set the margin of EUR/USD
    to 0.5. *)
Definition margin_raised : World :=
  fst (updateCurrencyMargin "EUR/USD" (Js.Finite false 5 (-1)) seeded).

(** The first of the seeded currency pairs. *)
Definition eur_usd : InsertCurrencyPair.t := {|
  InsertCurrencyPair.id := None;
  InsertCurrencyPair.symbol := "EUR/USD";
  InsertCurrencyPair.base := "EUR";
  InsertCurrencyPair.quote := "USD";
  InsertCurrencyPair.rate := "1.084200";
  InsertCurrencyPair.change := "0.001300";
  InsertCurrencyPair.changePercent := "0.12";
  InsertCurrencyPair.margin := Some "0.25" |}.

(** A new rate for EUR/USD, without a margin. *)
Definition eur_usd_rate : InsertCurrencyPair.t := {|
  InsertCurrencyPair.id := None;
  InsertCurrencyPair.symbol := "EUR/USD";
  InsertCurrencyPair.base := "EUR";
  InsertCurrencyPair.quote := "USD";
  InsertCurrencyPair.rate := "1.090000";
  InsertCurrencyPair.change := "0.005800";
  InsertCurrencyPair.changePercent := "0.53";
  InsertCurrencyPair.margin := None |}.

(** Every open connection has its timer set, and no closed connection has
    one. *)
Definition timed (srv : Server) : Prop :=
  forall ws s, sockets srv !! ws = Some s ->
    (readyState s = OPEN ->
     timers srv !! updateInterval s = Some {| callback := ws; delay := 4000 |}) /\
    (readyState s = CLOSED -> timers srv !! updateInterval s = None).

(** The four reads of a snapshot, as statements. *)
Definition snapshot_statements : list Statement :=
  [SELECT "stocks"; SELECT "currency_pairs"; SELECT "market_indices"; SELECT "news_articles"].

(** * Properties *)

(** ** Numbers as text *)

Example toString_half : Js.toString (Js.Finite false 5 (-1)) = "0.5".
Proof. reflexivity. Qed.
Example toString_half' : Js.toString (Js.Finite false 50 (-2)) = "0.5".
Proof. reflexivity. Qed.
Example toString_20 : Js.toString (Js.of_nat 20) = "20".
Proof. reflexivity. Qed.
Example toString_1e21 : Js.toString (Js.Finite false 1 21) = "1e+21".
Proof. reflexivity. Qed.
Example toString_1e20 : Js.toString (Js.Finite false 1 20) = "100000000000000000000".
Proof. reflexivity. Qed.
Example toString_small : Js.toString (Js.Finite true 15 (-8)) = "-1.5e-7".
Proof. reflexivity. Qed.
Example toString_small2 : Js.toString (Js.Finite true 15 (-7)) = "-0.0000015".
Proof. reflexivity. Qed.
Example toString_frac : Js.toString (Js.Finite false 123456 (-3)) = "123.456".
Proof. reflexivity. Qed.
Example toString_big : Js.toString (Js.Finite false 12345 20) = "1.2345e+24".
Proof. reflexivity. Qed.

Example numeric_half : Pg.numeric 5 2 "0.5" = Ok "0.50".
Proof. reflexivity. Qed.
Example numeric_rate : Pg.numeric 10 6 "1.084200" = Ok "1.084200".
Proof. reflexivity. Qed.
Example numeric_neg : Pg.numeric 8 6 "-0.000973" = Ok "-0.000973".
Proof. reflexivity. Qed.
Example numeric_round : Pg.numeric 5 2 "0.125" = Ok "0.13".
Proof. reflexivity. Qed.
Example numeric_round_down : Pg.numeric 5 2 "-0.0049" = Ok "0.00".
Proof. reflexivity. Qed.
Example numeric_exp : Pg.numeric 5 2 "1.5e-7" = Ok "0.00".
Proof. reflexivity. Qed.
Example numeric_exp2 : Pg.numeric 5 2 "1.5e2" = Ok "150.00".
Proof. reflexivity. Qed.
Example numeric_max : Pg.numeric 5 2 "999.994" = Ok "999.99".
Proof. reflexivity. Qed.
Example numeric_over : Pg.numeric 5 2 "999.995" = Err numeric_value_out_of_range.
Proof. reflexivity. Qed.
Example numeric_1000 : Pg.numeric 5 2 (Js.toString (Js.of_nat 1000)) = Err numeric_value_out_of_range.
Proof. reflexivity. Qed.
Example numeric_bad : Pg.numeric 5 2 "abc" = Err (invalid_text_representation "numeric" "abc").
Proof. reflexivity. Qed.
Example numeric_int : Pg.numeric 10 2 "180" = Ok "180.00".
Proof. reflexivity. Qed.
Example int8_20 : Pg.int8_in (Js.toString (Js.of_nat 20)) = Ok 20.
Proof. reflexivity. Qed.
Example int8_frac : is_Ok (Pg.int8_in "2.5") = false.
Proof. reflexivity. Qed.

(** ** Decimal digits *)

Lemma le_digits_fuel_value (fuel : nat) (n : N) :
  (n <> 0%N -> (N.to_nat (N.log2 n) < fuel)%nat) ->
  Digits.of_le_digits (Digits.le_digits_fuel fuel n) = n.
Proof.
  revert n. induction fuel as [|fuel IH]; intros n Hf.
  - simpl. destruct (N.eq_dec n 0%N) as [->|Hn]; [reflexivity|]. specialize (Hf Hn). lia.
  - simpl. destruct (N.eqb_spec n 0%N) as [->|Hn]; [reflexivity|].
    simpl. rewrite IH.
    + pose proof (N.div_mod n 10). lia.
    + intros Hm. specialize (Hf Hn).
      pose proof (N.Div0.mul_div_le n 10) as Hdiv.
      remember (n / 10)%N as m eqn:Em. clear Em.
      assert (N.log2 (2 * m) <= N.log2 n)%N as H by (apply N.log2_le_mono; lia).
      rewrite N.log2_double in H by lia. lia.
Qed.

Lemma le_digits_value (n : N) : Digits.of_le_digits (Digits.le_digits n) = n.
Proof. apply le_digits_fuel_value. lia. Qed.

Lemma le_digits_fuel_lt (fuel : nat) (n : N) :
  Forall (fun d => (d < 10)%N) (Digits.le_digits_fuel fuel n).
Proof.
  revert n. induction fuel as [|fuel IH]; intros n; simpl; [constructor|].
  destruct (n =? 0)%N; constructor; [|apply IH].
  apply N.mod_lt. discriminate.
Qed.

Lemma of_digits_rev (ds : list N) : Digits.of_digits (rev ds) = Digits.of_le_digits ds.
Proof.
  unfold Digits.of_digits. rewrite <- fold_left_rev_right, rev_involutive.
  unfold Digits.of_le_digits. induction ds as [|d ds IH]; simpl; [reflexivity|].
  rewrite IH. lia.
Qed.

Lemma digits_value (n : N) : Digits.of_digits (Digits.digits n) = n.
Proof. unfold Digits.digits. rewrite of_digits_rev. apply le_digits_value. Qed.

Lemma digits_lt (n : N) : Forall (fun d => (d < 10)%N) (Digits.digits n).
Proof. unfold Digits.digits. apply Forall_rev, le_digits_fuel_lt. Qed.

Lemma le_digits_nonempty (n : N) : n <> 0%N -> Digits.le_digits n <> [].
Proof.
  intros Hn. unfold Digits.le_digits. simpl.
  destruct (N.eqb_spec n 0%N); [contradiction|discriminate].
Qed.

(** A number with [k] digits is at least [10^(k-1)]. *)
Lemma le_digits_fuel_length (fuel : nat) (n : N) :
  n <> 0%N ->
  (10 ^ N.of_nat (length (Digits.le_digits_fuel fuel n) - 1) <= n)%N.
Proof.
  revert n. induction fuel as [|fuel IH]; intros n Hn; simpl; [lia|].
  destruct (N.eqb_spec n 0%N) as [|_]; [contradiction|]. simpl.
  rewrite Nat.sub_0_r.
  destruct (N.eq_dec (n / 10)%N 0%N) as [Hm|Hm].
  - rewrite Hm. assert (1 <= n)%N by lia. destruct fuel; simpl; assumption.
  - specialize (IH _ Hm). pose proof (N.Div0.mul_div_le n 10) as Hdiv.
    remember (n / 10)%N as m eqn:Em. clear Em.
    destruct (Digits.le_digits_fuel fuel m) as [|d ds] eqn:Hds; [simpl; lia|].
    simpl in IH |- *. rewrite Nat.sub_0_r in IH.
    replace (N.of_nat (S (length ds))) with (N.succ (N.of_nat (length ds))) by lia.
    rewrite N.pow_succ_r'. lia.
Qed.

Lemma leading_zeros_split (ds : list N) :
  ds = replicate (Digits.leading_zeros ds) 0%N ++ drop (Digits.leading_zeros ds) ds.
Proof.
  induction ds as [|d ds IH]; simpl; [reflexivity|].
  destruct (N.eqb_spec d 0%N) as [->|_]; simpl; [f_equal; exact IH|reflexivity].
Qed.

Lemma show_app (a b : list N) : Digits.show (a ++ b) = Digits.show a +:+ Digits.show b.
Proof.
  unfold Digits.show. rewrite fmap_app.
  induction (Digits.digit_char <$> a) as [|c cs IH]; simpl; [reflexivity|].
  rewrite IH. reflexivity.
Qed.

Lemma list_ascii_of_string_app (a b : string) :
  list_ascii_of_string (a +:+ b) = list_ascii_of_string a ++ list_ascii_of_string b.
Proof.
  induction a as [|c a IH]; [reflexivity|].
  change (c :: list_ascii_of_string (a +:+ b) = c :: (list_ascii_of_string a ++ list_ascii_of_string b)).
  rewrite IH. reflexivity.
Qed.

Lemma list_ascii_of_show (ds : list N) :
  list_ascii_of_string (Digits.show ds) = Digits.digit_char <$> ds.
Proof. unfold Digits.show. apply list_ascii_of_string_of_list_ascii. Qed.

Lemma char_digit_char (d : N) : (d < 10)%N -> Digits.char_digit (Digits.digit_char d) = Some d.
Proof.
  intros Hd.
  assert (d = 0 \/ d = 1 \/ d = 2 \/ d = 3 \/ d = 4 \/ d = 5 \/ d = 6 \/ d = 7 \/ d = 8 \/ d = 9)%N
    as H by lia.
  repeat (destruct H as [->|H]; [reflexivity|]). subst d. reflexivity.
Qed.

Lemma span_cons (c : ascii) (d : N) (cs : list ascii) :
  Digits.char_digit c = Some d ->
  Digits.span (c :: cs) = (d :: fst (Digits.span cs), snd (Digits.span cs)).
Proof. intros H. simpl. rewrite H. destruct (Digits.span cs). reflexivity. Qed.

Lemma span_digits (ds : list N) (rest : list ascii) :
  Forall (fun d => (d < 10)%N) ds ->
  match rest with c :: _ => Digits.char_digit c = None | [] => True end ->
  Digits.span ((Digits.digit_char <$> ds) ++ rest) = (ds, rest).
Proof.
  intros Hds Hrest. induction Hds as [|d ds Hd _ IH].
  - destruct rest as [|c rest]; [reflexivity|]. simpl. rewrite Hrest. reflexivity.
  - rewrite fmap_cons, <- app_comm_cons, (span_cons _ d) by (apply char_digit_char; exact Hd).
    rewrite IH. reflexivity.
Qed.

Lemma parse_sign_digit (d : N) (cs : list ascii) :
  (d < 10)%N -> Pg.parse_sign (Digits.digit_char d :: cs) = (false, Digits.digit_char d :: cs).
Proof.
  intros Hd.
  assert (d = 0 \/ d = 1 \/ d = 2 \/ d = 3 \/ d = 4 \/ d = 5 \/ d = 6 \/ d = 7 \/ d = 8 \/ d = 9)%N
    as H by lia.
  repeat (destruct H as [->|H]; [reflexivity|]). subst d. reflexivity.
Qed.

Lemma rev_replicate {A : Type} (n : nat) (x : A) : rev (replicate n x) = replicate n x.
Proof. rewrite rev_alt. apply reverse_replicate. Qed.

Lemma leading_zeros_le (ds : list N) : (Digits.leading_zeros ds <= length ds)%nat.
Proof. induction ds as [|d ds IH]; simpl; [lia|]. destruct (d =? 0)%N; simpl; lia. Qed.

Lemma leading_zeros_all (ds : list N) :
  Digits.leading_zeros ds = length ds -> Digits.of_le_digits ds = 0%N.
Proof.
  induction ds as [|d ds IH]; simpl; [reflexivity|].
  destruct (N.eqb_spec d 0%N) as [->|_]; [|discriminate].
  intros H. injection H as H. rewrite (IH H). reflexivity.
Qed.

(** The digits of a non-zero number, read as ECMAScript does: [s] without
    trailing zeros, and the zeros. *)
Lemma digits_split (c : N) :
  c <> 0%N ->
  let le := Digits.le_digits c in
  let j := Digits.leading_zeros le in
  let s := rev (drop j le) in
  Digits.digits c = s ++ replicate j 0%N /\
  s <> [] /\ Forall (fun d => (d < 10)%N) s /\
  (length s + j = length le)%nat /\
  (10 ^ N.of_nat (length le - 1) <= c)%N.
Proof.
  intros Hc le j s. subst s.
  pose proof (leading_zeros_split le) as Hsplit. fold j in Hsplit.
  pose proof (leading_zeros_le le) as Hle. fold j in Hle.
  split; [|split; [|split; [|split]]].
  - unfold Digits.digits. fold le. rewrite Hsplit at 1.
    rewrite rev_app_distr, rev_replicate. reflexivity.
  - intros Hnil. apply (f_equal (@length N)) in Hnil. rewrite length_rev, length_drop in Hnil.
    simpl in Hnil. assert (j = length le) as Hj by lia.
    apply leading_zeros_all in Hj. subst le. rewrite le_digits_value in Hj. contradiction.
  - apply Forall_rev, Forall_drop. apply le_digits_fuel_lt.
  - rewrite length_rev, length_drop. lia.
  - apply le_digits_fuel_length. exact Hc.
Qed.

Lemma toString_integer (c : N) :
  c <> 0%N -> (c < 10 ^ 21)%N ->
  Js.toString (Js.Finite false c 0) = Digits.show (Digits.digits c).
Proof.
  intros Hc Hlt. unfold Js.toString. destruct (N.eqb_spec c 0%N) as [|_]; [contradiction|].
  cbv zeta. destruct (digits_split c Hc) as (Hd & Hs & _ & Hlen & Hpow).
  set (le := Digits.le_digits c) in *. set (j := Digits.leading_zeros le) in *.
  set (s := rev (drop j le)) in *.
  assert (length le <= 21)%nat as Hk.
  { destruct (le_lt_dec (length le) 21) as [|Hbig]; [assumption|exfalso].
    assert (10 ^ 21 <= 10 ^ N.of_nat (length le - 1))%N by (apply N.pow_le_mono_r; lia).
    lia. }
  replace (Z.of_nat (length s) + Z.of_nat j + 0) with (Z.of_nat (length s) + Z.of_nat j) by lia.
  rewrite (proj2 (Z.leb_le _ _)) by lia. rewrite (proj2 (Z.leb_le _ _)) by lia. simpl.
  replace (Z.to_nat (Z.of_nat (length s) + Z.of_nat j - Z.of_nat (length s))) with j by lia.
  unfold Digits.zeros. rewrite <- show_app, <- Hd. reflexivity.
Qed.

(** A number of 22 digits or more is printed with an exponent: digits, then
    a character that is no digit. *)
Lemma toString_exponent (c : N) :
  (10 ^ 21 <= c)%N ->
  exists ds ch rest,
    ds <> [] /\ Forall (fun d => (d < 10)%N) ds /\ Digits.char_digit ch = None /\
    Js.toString (Js.Finite false c 0) = Digits.show ds +:+ String ch rest.
Proof.
  intros Hge. assert (c <> 0%N) as Hc by lia.
  unfold Js.toString. destruct (N.eqb_spec c 0%N) as [|_]; [contradiction|].
  cbv zeta. destruct (digits_split c Hc) as (Hd & Hs & Hlt & Hlen & _).
  set (le := Digits.le_digits c) in *. set (j := Digits.leading_zeros le) in *.
  set (s := rev (drop j le)) in *.
  assert (21 < length le)%nat as Hk.
  { destruct (le_lt_dec (length le) 21) as [Hsmall|]; [exfalso|assumption].
    pose proof (digits_value c) as Hv. pose proof (digits_lt c) as Hdl.
    assert (length (Digits.digits c) <= 21)%nat as Hl.
    { unfold Digits.digits. fold le. rewrite length_rev. exact Hsmall. }
    assert (forall ds, Forall (fun d => (d < 10)%N) ds ->
                       (Digits.of_le_digits ds < 10 ^ N.of_nat (length ds))%N) as Hbound.
    { induction 1 as [|d ds Hd' _ IH]; simpl; [lia|].
      replace (N.of_nat (S (length ds))) with (N.succ (N.of_nat (length ds))) by lia.
      rewrite N.pow_succ_r'. lia. }
    specialize (Hbound le (le_digits_fuel_lt _ _)).
    unfold le in Hbound at 1. rewrite le_digits_value in Hbound.
    assert (10 ^ N.of_nat (length le) <= 10 ^ 21)%N by (apply N.pow_le_mono_r; lia).
    lia. }
  replace (Z.of_nat (length s) + Z.of_nat j + 0) with (Z.of_nat (length le)) by lia.
  rewrite (proj2 (Z.leb_gt (Z.of_nat (length le)) 21)) by lia.
  rewrite !andb_false_r. rewrite (proj2 (Z.leb_gt (Z.of_nat (length le)) 0)) by lia.
  rewrite andb_false_r. cbn [Js.sign_prefix].
  destruct (length s =? 1)%nat.
  - exists s, "e"%char. eexists. split; [exact Hs|]. split; [exact Hlt|].
    split; reflexivity.
  - destruct s as [|d s']; [contradiction|]. exists [d], "."%char. eexists.
    split; [discriminate|]. split; [inversion Hlt; subst; constructor; [assumption|constructor]|].
    split; reflexivity.
Qed.

Lemma int8_in_digits (ds : list N) :
  ds <> [] -> Forall (fun d => (d < 10)%N) ds ->
  Pg.int8_in (Digits.show ds) =
  if (Z.of_N (Digits.of_digits ds) <? 2 ^ 63) then Ok (Z.of_N (Digits.of_digits ds))
  else Err numeric_value_out_of_range.
Proof.
  intros Hne Hlt. unfold Pg.int8_in. rewrite list_ascii_of_show.
  destruct ds as [|d ds]; [contradiction|].
  rewrite fmap_cons, parse_sign_digit by (inversion Hlt; assumption).
  rewrite <- fmap_cons, <- (app_nil_r (Digits.digit_char <$> d :: ds)).
  rewrite span_digits by (exact Hlt || exact I).
  rewrite (proj2 (Z.leb_le (- 2 ^ 63) _)) by lia. reflexivity.
Qed.

Lemma int8_in_not_digits (ds : list N) (ch : ascii) (rest : string) :
  ds <> [] -> Forall (fun d => (d < 10)%N) ds -> Digits.char_digit ch = None ->
  Pg.int8_in (Digits.show ds +:+ String ch rest) =
  Err (invalid_text_representation "bigint" (Digits.show ds +:+ String ch rest)).
Proof.
  intros Hne Hlt Hch. unfold Pg.int8_in.
  rewrite list_ascii_of_string_app, list_ascii_of_show.
  destruct ds as [|d ds]; [contradiction|].
  rewrite fmap_cons, <- app_comm_cons, parse_sign_digit by (inversion Hlt; assumption).
  rewrite app_comm_cons, <- fmap_cons. simpl list_ascii_of_string.
  rewrite span_digits by (exact Hlt || exact Hch). reflexivity.
Qed.

(** A natural number passed as the [LIMIT] parameter arrives as itself, if
    it arrives. *)
Lemma int8_in_toString_of_nat (n : nat) :
  Pg.int8_in (Js.toString (Js.of_nat n)) =
  if Z.of_nat n <? 2 ^ 63 then Ok (Z.of_nat n)
  else if Z.of_nat n <? 10 ^ 21 then Err numeric_value_out_of_range
  else Err (invalid_text_representation "bigint" (Js.toString (Js.of_nat n))).
Proof.
  unfold Js.of_nat. destruct (N.eq_dec (N.of_nat n) 0%N) as [Hz|Hnz].
  - rewrite Hz. replace (Z.of_nat n) with 0 by lia. reflexivity.
  - destruct (Z.ltb_spec (Z.of_nat n) (10 ^ 21)) as [Hlt|Hge].
    + rewrite toString_integer by lia.
      rewrite int8_in_digits by (apply digits_lt || (unfold Digits.digits;
        intros H; apply (f_equal (@rev N)) in H; rewrite rev_involutive in H;
        revert H; apply le_digits_nonempty; exact Hnz)).
      rewrite digits_value. replace (Z.of_N (N.of_nat n)) with (Z.of_nat n) by lia.
      reflexivity.
    + destruct (toString_exponent (N.of_nat n)) as (ds & ch & rest & Hne & Hlt & Hch & ->); [lia|].
      rewrite int8_in_not_digits by assumption.
      rewrite (proj2 (Z.ltb_ge _ _)) by lia. reflexivity.
Qed.

(** ** A JavaScript number as a [numeric] literal *)

Lemma digit_lt_10 (P : N -> Prop) :
  P 0%N -> P 1%N -> P 2%N -> P 3%N -> P 4%N -> P 5%N -> P 6%N -> P 7%N -> P 8%N -> P 9%N ->
  forall d, (d < 10)%N -> P d.
Proof.
  intros H0 H1 H2 H3 H4 H5 H6 H7 H8 H9 d Hd.
  assert (d = 0 \/ d = 1 \/ d = 2 \/ d = 3 \/ d = 4 \/ d = 5 \/ d = 6 \/ d = 7 \/ d = 8 \/ d = 9)%N
    as H by lia.
  repeat (destruct H as [->|H]; [assumption|]). subst d. assumption.
Qed.

Lemma of_digits_from (ds : list N) (a : N) :
  fold_left (fun acc d => (10 * acc + d)%N) ds a =
  (a * 10 ^ N.of_nat (length ds) + Digits.of_digits ds)%N.
Proof.
  unfold Digits.of_digits. revert a. induction ds as [|d ds IH]; intros a; simpl fold_left.
  - simpl. lia.
  - rewrite IH, (IH (10 * 0 + d)%N).
    replace (N.of_nat (length (d :: ds))) with (N.succ (N.of_nat (length ds))) by (simpl; lia).
    rewrite N.pow_succ_r'. lia.
Qed.

Lemma of_digits_app (a b : list N) :
  Digits.of_digits (a ++ b) =
  (Digits.of_digits a * 10 ^ N.of_nat (length b) + Digits.of_digits b)%N.
Proof. unfold Digits.of_digits at 1. rewrite fold_left_app. apply of_digits_from. Qed.

Lemma of_digits_zeros (n : nat) : Digits.of_digits (replicate n 0%N) = 0%N.
Proof.
  induction n as [|n IH]; [reflexivity|].
  change (replicate (S n) 0%N) with ([0%N] ++ replicate n 0%N).
  rewrite of_digits_app, IH. reflexivity.
Qed.

Lemma zeros_lt (n : nat) : Forall (fun d => (d < 10)%N) (replicate n 0%N).
Proof. apply Forall_replicate. lia. Qed.

(** [c * 10^e] with [c] multiplied by a power of ten is the same number as
    with that power added to [e], and rounds the same. *)
Lemma half_pow10 (m : N) : (10 ^ N.succ m / 2 = 5 * 10 ^ m)%N.
Proof.
  rewrite N.pow_succ_r'. replace (10 * 10 ^ m)%N with ((5 * 10 ^ m) * 2)%N by lia.
  apply N.div_mul. discriminate.
Qed.

Lemma round_to_scale_shift (scale : nat) (x i : N) (e : Z) :
  Pg.round_to_scale scale (x * 10 ^ i) e = Pg.round_to_scale scale x (e + Z.of_N i).
Proof.
  unfold Pg.round_to_scale. cbv zeta.
  replace (e + Z.of_N i + Z.of_nat scale) with (e + Z.of_nat scale + Z.of_N i) by lia.
  set (sh := e + Z.of_nat scale).
  destruct (Z.leb_spec 0 sh) as [Hsh|Hsh].
  - rewrite (proj2 (Z.leb_le 0 (sh + Z.of_N i))) by lia.
    replace (Z.to_N (sh + Z.of_N i)) with (i + Z.to_N sh)%N by lia.
    rewrite N.pow_add_r. lia.
  - assert (exists m, Z.to_N (- sh) = N.succ m) as [m Hm] by (exists (N.pred (Z.to_N (- sh))); lia).
    rewrite Hm. rewrite half_pow10.
    destruct (Z.leb_spec 0 (sh + Z.of_N i)) as [Hi|Hi].
    + assert (i = Z.to_N (sh + Z.of_N i) + N.succ m)%N as Hsum by lia.
      rewrite Hsum at 1. rewrite N.pow_add_r, N.mul_assoc.
      assert (10 ^ N.succ m <> 0)%N as Hnz by (apply N.pow_nonzero; discriminate).
      rewrite N.div_add_l by exact Hnz.
      rewrite N.div_small; [lia|].
      rewrite N.pow_succ_r'. assert (0 < 10 ^ m)%N by (apply N.neq_0_lt_0, N.pow_nonzero; discriminate).
      lia.
    + assert (exists m', Z.to_N (- (sh + Z.of_N i)) = N.succ m') as [m' Hm']
        by (exists (N.pred (Z.to_N (- (sh + Z.of_N i)))); lia).
      rewrite Hm', half_pow10.
      assert (m = m' + i)%N as -> by lia.
      replace (N.succ (m' + i)) with (N.succ m' + i)%N by lia.
      rewrite !N.pow_add_r.
      replace (x * 10 ^ i + 5 * (10 ^ m' * 10 ^ i))%N with ((x + 5 * 10 ^ m') * 10 ^ i)%N by lia.
      apply N.Div0.div_mul_cancel_r. apply N.pow_nonzero. discriminate.
Qed.

Lemma not_special (txt : string) (neg : bool) (d : N) (cs : list ascii) :
  (d < 10)%N ->
  list_ascii_of_string txt =
    list_ascii_of_string (Js.sign_prefix neg) ++ Digits.digit_char d :: cs ->
  String.eqb txt "NaN" = false /\ String.eqb txt "Infinity" = false /\
  String.eqb txt "-Infinity" = false.
Proof.
  intros Hd. revert d Hd cs. 
  apply (digit_lt_10 (fun d => forall cs, _ -> _)); intros cs H;
    (repeat split; apply String.eqb_neq; intros ->; destruct neg; discriminate H).
Qed.

Lemma parse_sign_prefix (neg : bool) (d : N) (cs : list ascii) :
  (d < 10)%N ->
  Pg.parse_sign (list_ascii_of_string (Js.sign_prefix neg) ++ Digits.digit_char d :: cs) =
  (neg, Digits.digit_char d :: cs).
Proof. intros Hd. destruct neg; [reflexivity|]. apply parse_sign_digit. exact Hd. Qed.

Lemma stops_span (ds : list N) (tail : list ascii) :
  Forall (fun d => (d < 10)%N) ds -> stops tail ->
  Digits.span ((Digits.digit_char <$> ds) ++ tail) = (ds, tail).
Proof.
  intros Hds Ht. apply span_digits; [exact Hds|].
  destruct tail as [|c tail]; [exact I|]. apply Ht.
Qed.

(** A literal without a decimal point. *)
Lemma numeric_in_whole (txt : string) (neg : bool) (ip : list N) (tail : list ascii) (ex : Z) :
  ip <> [] -> Forall (fun d => (d < 10)%N) ip -> stops tail ->
  Pg.parse_exponent tail = Some ex ->
  list_ascii_of_string txt =
    list_ascii_of_string (Js.sign_prefix neg) ++ (Digits.digit_char <$> ip) ++ tail ->
  Pg.numeric_in txt = Ok (Pg.Num neg (Digits.of_digits ip) ex).
Proof.
  intros Hne Hip Ht Hex Htxt. destruct ip as [|d ip]; [contradiction|].
  assert (Hd : (d < 10)%N) by (inversion Hip; assumption).
  rewrite fmap_cons, <- app_comm_cons in Htxt.
  destruct (not_special txt neg d _ Hd Htxt) as (H1 & H2 & H3).
  unfold Pg.numeric_in. rewrite H1, H2, H3, Htxt, parse_sign_prefix by exact Hd.
  rewrite app_comm_cons, <- fmap_cons, stops_span by assumption.
  assert (match tail with
          | c :: cs' => if Ascii.eqb c "." then Digits.span cs' else ([], tail)
          | [] => ([], tail)
          end = ([], tail)) as ->.
  { destruct tail as [|c tail]; [reflexivity|]. destruct Ht as [_ ->]. reflexivity. }
  rewrite app_nil_r, Hex. simpl. f_equal. f_equal. lia.
Qed.

(** A literal with a decimal point. *)
Lemma numeric_in_parts (txt : string) (neg : bool) (ip fp : list N) (tail : list ascii) (ex : Z) :
  ip <> [] -> Forall (fun d => (d < 10)%N) ip -> Forall (fun d => (d < 10)%N) fp ->
  stops tail -> Pg.parse_exponent tail = Some ex ->
  list_ascii_of_string txt =
    list_ascii_of_string (Js.sign_prefix neg) ++ (Digits.digit_char <$> ip) ++
    "."%char :: (Digits.digit_char <$> fp) ++ tail ->
  Pg.numeric_in txt =
  Ok (Pg.Num neg (Digits.of_digits (ip ++ fp)) (ex - Z.of_nat (length fp))).
Proof.
  intros Hne Hip Hfp Ht Hex Htxt. destruct ip as [|d ip]; [contradiction|].
  assert (Hd : (d < 10)%N) by (inversion Hip; assumption).
  rewrite fmap_cons, <- app_comm_cons in Htxt.
  destruct (not_special txt neg d _ Hd Htxt) as (H1 & H2 & H3).
  unfold Pg.numeric_in. rewrite H1, H2, H3, Htxt, parse_sign_prefix by exact Hd.
  rewrite app_comm_cons, <- fmap_cons, span_digits by (assumption || reflexivity).
  change (Ascii.eqb "." ".") with true. cbv iota.
  rewrite stops_span by assumption. rewrite Hex. reflexivity.
Qed.

Lemma show_N_chars (n : N) :
  exists ds, ds <> [] /\ Forall (fun d => (d < 10)%N) ds /\ Digits.of_digits ds = n /\
             list_ascii_of_string (Digits.show_N n) = Digits.digit_char <$> ds.
Proof.
  unfold Digits.show_N. destruct (N.eqb_spec n 0%N) as [->|Hn].
  - exists [0%N]. repeat split; [discriminate|repeat constructor].
  - exists (Digits.digits n). split; [|split; [apply digits_lt|split; [apply digits_value|]]].
    + unfold Digits.digits. intros H. apply (f_equal (@rev N)) in H.
      rewrite rev_involutive in H. revert H. apply le_digits_nonempty. exact Hn.
    + apply list_ascii_of_show.
Qed.

(** The exponent part as [Number.prototype.toString] writes it. *)
Lemma parse_exponent_shown (ex : Z) :
  let tail := list_ascii_of_string
                ("e" +:+ (if ex <? 0 then "-" else "+") +:+ Digits.show_N (Z.abs_N ex)) in
  stops tail /\ Pg.parse_exponent tail = Some ex.
Proof.
  cbv zeta. rewrite !list_ascii_of_string_app.
  destruct (show_N_chars (Z.abs_N ex)) as (ds & Hne & Hlt & Hv & ->).
  split; [split; reflexivity|].
  change (list_ascii_of_string "e") with ["e"%char]. cbn [app Pg.parse_exponent].
  change (Ascii.eqb "e" "e" || Ascii.eqb "e" "E") with true. cbv iota.
  assert (Pg.parse_sign (list_ascii_of_string (if ex <? 0 then "-" else "+") ++
                           (Digits.digit_char <$> ds)) =
          (ex <? 0, Digits.digit_char <$> ds)) as ->.
  { destruct (ex <? 0); reflexivity. }
  rewrite <- (app_nil_r (Digits.digit_char <$> ds)), stops_span by (exact Hlt || exact I).
  destruct ds as [|d ds]; [contradiction|]. rewrite Hv.
  destruct (Z.ltb_spec ex 0); f_equal; lia.
Qed.

(** [Number.prototype.toString] writes a finite number that is not zero as a
    literal [numeric_in] reads as the same number. *)
Lemma numeric_in_toString (neg : bool) (c : N) (e : Z) :
  c <> 0%N ->
  exists c' e',
    Pg.numeric_in (Js.toString (Js.Finite neg c e)) = Ok (Pg.Num neg c' e') /\
    forall scale, Pg.round_to_scale scale c' e' = Pg.round_to_scale scale c e.
Proof.
  intros Hc. unfold Js.toString. destruct (N.eqb_spec c 0%N) as [|_]; [contradiction|].
  cbv zeta. destruct (digits_split c Hc) as (Hd & Hs & Hlt & _ & _).
  set (le := Digits.le_digits c) in *. set (j := Digits.leading_zeros le) in *.
  set (s := rev (drop j le)) in *.
  assert (Hk : (0 < length s)%nat) by (destruct s; [contradiction|simpl; lia]).
  set (n := Z.of_nat (length s) + Z.of_nat j + e).
  assert (Hround : forall scale,
            Pg.round_to_scale scale (Digits.of_digits s) (n - Z.of_nat (length s)) =
            Pg.round_to_scale scale c e).
  { intros scale. rewrite <- (digits_value c) at 1.
    rewrite Hd, of_digits_app, of_digits_zeros, length_replicate, N.add_0_r.
    rewrite round_to_scale_shift. f_equal. lia. }
  assert (Hexp : exists c' e',
            Pg.numeric_in
              (Js.sign_prefix neg +:+
               (if (length s =? 1)%nat
                then Digits.show s +:+ "e" +:+
                     (if n - 1 <? 0 then "-" else "+") +:+ Digits.show_N (Z.abs_N (n - 1))
                else Digits.show (take 1 s) +:+ "." +:+ Digits.show (drop 1 s) +:+ "e" +:+
                     (if n - 1 <? 0 then "-" else "+") +:+ Digits.show_N (Z.abs_N (n - 1)))) =
            Ok (Pg.Num neg c' e') /\
            forall scale, Pg.round_to_scale scale c' e' = Pg.round_to_scale scale c e).
  { destruct (parse_exponent_shown (n - 1)) as [Hstop Hex]. cbv zeta in Hstop, Hex.
    match type of Hex with Pg.parse_exponent ?t = _ => set (tail := t) in * end.
    exists (Digits.of_digits s), (n - Z.of_nat (length s)). split; [|exact Hround].
    destruct (Nat.eqb_spec (length s) 1) as [H1|H1].
    - rewrite (numeric_in_whole _ neg s tail (n - 1) Hs Hlt Hstop Hex).
      + rewrite H1. reflexivity.
      + subst tail. rewrite !list_ascii_of_string_app, list_ascii_of_show. reflexivity.
    - rewrite (numeric_in_parts _ neg (take 1 s) (drop 1 s) tail (n - 1)).
      + rewrite take_drop, length_drop. f_equal. f_equal. lia.
      + destruct s; [contradiction|discriminate].
      + apply Forall_take. exact Hlt.
      + apply Forall_drop. exact Hlt.
      + exact Hstop.
      + exact Hex.
      + subst tail. rewrite !list_ascii_of_string_app, !list_ascii_of_show. reflexivity. }
  destruct (Z.leb_spec (Z.of_nat (length s)) n) as [Hkn|Hkn];
    destruct (Z.leb_spec n 21) as [H21|H21]; cbn [andb];
    [| rewrite ?andb_false_r, (proj2 (Z.leb_gt n 0)), ?andb_false_r by lia; exact Hexp
     | | rewrite ?andb_false_r, (proj2 (Z.leb_gt n 0)), ?andb_false_r by lia; exact Hexp].
  - (* digits, then zeros *)
    exists (Digits.of_digits s * 10 ^ Z.to_N (n - Z.of_nat (length s)))%N, 0. split.
    + rewrite (numeric_in_whole _ neg (s ++ replicate (Z.to_nat (n - Z.of_nat (length s))) 0%N) [] 0).
      * rewrite of_digits_app, of_digits_zeros, length_replicate. do 3 f_equal. lia.
      * destruct s; [contradiction|discriminate].
      * apply Forall_app. split; [exact Hlt|apply zeros_lt].
      * exact I.
      * reflexivity.
      * rewrite !list_ascii_of_string_app. unfold Digits.zeros.
        rewrite !list_ascii_of_show, fmap_app, app_nil_r. reflexivity.
    + intros scale. rewrite round_to_scale_shift, <- Hround. f_equal. lia.
  - rewrite andb_true_r. destruct (Z.ltb_spec 0 n) as [H0|H0].
    + (* the decimal point inside the digits *)
      exists (Digits.of_digits s), (n - Z.of_nat (length s)). split; [|exact Hround].
      rewrite (numeric_in_parts _ neg (take (Z.to_nat n) s) (drop (Z.to_nat n) s) [] 0).
      * rewrite take_drop, length_drop. f_equal. f_equal. lia.
      * intros Hnil. apply (f_equal (@length N)) in Hnil. rewrite length_take in Hnil.
        simpl in Hnil. lia.
      * apply Forall_take. exact Hlt.
      * apply Forall_drop. exact Hlt.
      * exact I.
      * reflexivity.
      * rewrite !list_ascii_of_string_app, !list_ascii_of_show, app_nil_r. reflexivity.
    + destruct (Z.ltb_spec (-6) n) as [H6|H6]; cbn [andb].
      * (* zeros between the decimal point and the digits *)
        rewrite (proj2 (Z.leb_le n 0)) by lia.
        exists (Digits.of_digits s), (n - Z.of_nat (length s)). split; [|exact Hround].
        rewrite (numeric_in_parts _ neg [0%N] (replicate (Z.to_nat (- n)) 0%N ++ s) [] 0).
        -- rewrite (of_digits_app [0%N]), of_digits_app, of_digits_zeros.
           rewrite length_app, length_replicate. f_equal. f_equal. lia.
        -- discriminate.
        -- repeat constructor.
        -- apply Forall_app. split; [apply zeros_lt|exact Hlt].
        -- exact I.
        -- reflexivity.
        -- rewrite !list_ascii_of_string_app. unfold Digits.zeros.
           rewrite !list_ascii_of_show, fmap_app, app_nil_r. reflexivity.
      * exact Hexp.
Qed.

Lemma round_to_scale_zero (scale : nat) (e : Z) : Pg.round_to_scale scale 0 e = 0%N.
Proof.
  unfold Pg.round_to_scale. cbv zeta. destruct (0 <=? e + Z.of_nat scale); [reflexivity|].
  apply N.div_small. rewrite N.add_0_l. apply N.div_lt; [|lia].
  apply N.neq_0_lt_0, N.pow_nonzero. discriminate.
Qed.

(** A JavaScript number written into a [numeric(precision, scale)] column
    through its [toString] is the number itself, coerced to the column. *)
Lemma numeric_toString (precision scale : nat) (neg : bool) (c : N) (e : Z) :
  Pg.numeric precision scale (Js.toString (Js.Finite neg c e)) =
  result_map (Pg.numeric_out scale) (Pg.apply_typmod precision scale (Pg.Num neg c e)).
Proof.
  unfold Pg.numeric. destruct (N.eq_dec c 0%N) as [->|Hc].
  - change (Js.toString (Js.Finite neg 0 e)) with "0".
    change (Pg.numeric_in "0") with (Ok (Pg.Num false 0 0)).
    cbn [result_bind Pg.apply_typmod]. rewrite !round_to_scale_zero.
    assert ((0 <? 10 ^ N.of_nat precision)%N = true) as ->.
    { apply N.ltb_lt, N.neq_0_lt_0, N.pow_nonzero. discriminate. }
    destruct neg; reflexivity.
  - destruct (numeric_in_toString neg c e Hc) as (c' & e' & -> & Hr).
    cbn [result_bind Pg.apply_typmod]. rewrite Hr. reflexivity.
Qed.

(** Any JavaScript number written into a [numeric(precision, scale)] column
    through its [toString] reads back as the number, coerced to the
    column. *)
Lemma numeric_of_toString (precision scale : nat) (x : Js.number) :
  Pg.numeric precision scale (Js.toString x) =
  result_map (Pg.numeric_out scale) (Pg.apply_typmod precision scale (numeric_of_number x)).
Proof.
  destruct x as [|neg|neg c e]; [reflexivity|destruct neg; reflexivity|].
  apply numeric_toString.
Qed.


(** ** The result monad and the primitive effects *)

Lemma result_map_Ok {A B : Type} (f : A -> B) (r : result A) (b : B) :
  result_map f r = Ok b -> exists a, r = Ok a /\ b = f a.
Proof. destruct r as [a|e]; simpl; intros H; [injection H as <-; eauto | discriminate]. Qed.

Lemma result_bind_Ok {A B : Type} (r : result A) (k : A -> result B) (b : B) :
  result_bind r k = Ok b -> exists a, r = Ok a /\ k a = Ok b.
Proof. destruct r as [a|e]; simpl; intros H; [eauto | discriminate]. Qed.

(** ** Unique indexes *)

Section RelationFacts.
Context {Row : Type}.
Variable uniques : list (Pg.UniqueIndex Row).
Implicit Types (r : Row) (rows : list Row).

Lemma violated_None r rows :
  Pg.violated uniques r rows = None <->
  Forall (fun ix => Pg.indexed ix r ∉ Pg.indexed ix <$> rows) uniques.
Proof.
  unfold Pg.violated. rewrite fmap_None.
  induction uniques as [|ix ixs IH]; simpl.
  - split; [constructor | reflexivity].
  - unfold Pg.collides at 1. destruct (bool_decide_reflect (Pg.indexed ix r ∈ Pg.indexed ix <$> rows)) as [Hin|Hnin].
    + split; [discriminate | intros H; inversion H; subst; contradiction].
    + rewrite IH. split; [intros H; constructor; assumption | intros H; inversion H; assumption].
Qed.

Lemma violated_Some r rows c :
  Pg.violated uniques r rows = Some c ->
  exists ix, ix ∈ uniques /\ Pg.conname ix = c /\ Pg.indexed ix r ∈ Pg.indexed ix <$> rows.
Proof.
  unfold Pg.violated. intros (ix & Hfind & ->)%fmap_Some.
  apply find_some in Hfind as [Hin Hc].
  exists ix. split; [apply list_elem_of_In; exact Hin|]. split; [reflexivity|].
  unfold Pg.collides in Hc. apply bool_decide_eq_true in Hc. exact Hc.
Qed.

Lemma insert_Ok proposed rows rows' r :
  Pg.insert uniques proposed rows = Ok (rows', r) ->
  rows' = rows ++ [proposed] /\ r = proposed /\
  Forall (fun ix => Pg.indexed ix proposed ∉ Pg.indexed ix <$> rows) uniques.
Proof.
  unfold Pg.insert. destruct (Pg.violated uniques proposed rows) eqn:Hv; [discriminate|].
  intros H; injection H as <- <-. apply violated_None in Hv. auto.
Qed.

Lemma insert_unique_keys proposed rows rows' r :
  Pg.unique_keys uniques rows ->
  Pg.insert uniques proposed rows = Ok (rows', r) ->
  Pg.unique_keys uniques rows'.
Proof.
  unfold Pg.unique_keys. intros Hu (-> & _ & Hfresh)%insert_Ok.
  rewrite Forall_forall in *. intros ix Hix.
  rewrite fmap_app. apply NoDup_app. split; [auto|]. split.
  - intros k Hk Hk'. simpl in Hk'. apply list_elem_of_singleton in Hk'. subst k.
    exact (Hfresh ix Hix Hk).
  - simpl. apply NoDup_singleton.
Qed.

Lemma list_insert_Permutation rows i old new :
  rows !! i = Some old -> <[i := new]> rows ≡ₚ new :: delete i rows.
Proof.
  intros Hi. assert (i < length rows)%nat by (eapply lookup_lt_Some; eassumption).
  rewrite insert_take_drop by assumption. rewrite delete_take_drop.
  symmetry. apply Permutation_middle.
Qed.

(** The outcome of the upsert when the arbiter index finds a row. *)
Lemma upsert_conflict target proposed set rows i old :
  list_find (fun r => target r = target proposed) rows = Some (i, old) ->
  Pg.insert_on_conflict_do_update uniques target proposed set rows =
  match Pg.violated uniques (set old) (delete i rows) with
  | Some c => Err (unique_violation c)
  | None => Ok (<[i := set old]> rows, set old)
  end.
Proof. unfold Pg.insert_on_conflict_do_update. intros ->. reflexivity. Qed.

(** ... and when it finds none. *)
Lemma upsert_no_conflict target proposed set rows :
  list_find (fun r => target r = target proposed) rows = None ->
  Pg.insert_on_conflict_do_update uniques target proposed set rows =
  Pg.insert uniques proposed rows.
Proof. unfold Pg.insert_on_conflict_do_update. intros ->. reflexivity. Qed.

Lemma upsert_unique_keys target proposed set rows rows' r :
  Pg.unique_keys uniques rows ->
  Pg.insert_on_conflict_do_update uniques target proposed set rows = Ok (rows', r) ->
  Pg.unique_keys uniques rows'.
Proof.
  intros Hu. destruct (list_find (fun r => target r = target proposed) rows) as [[i old]|] eqn:Hf.
  - rewrite (upsert_conflict _ _ _ _ _ _ Hf).
    destruct (Pg.violated uniques (set old) (delete i rows)) eqn:Hv; [discriminate|].
    intros H; injection H as <- <-.
    apply violated_None in Hv. apply list_find_Some in Hf as (Hi & _ & _).
    unfold Pg.unique_keys in *. rewrite Forall_forall in *. intros ix Hix.
    rewrite (list_insert_Permutation _ _ _ _ Hi). rewrite fmap_cons.
    apply NoDup_cons. split; [exact (Hv ix Hix)|].
    specialize (Hu ix Hix). rewrite (delete_Permutation _ _ _ Hi), fmap_cons in Hu.
    apply NoDup_cons in Hu. tauto.
  - rewrite (upsert_no_conflict _ _ _ _ Hf). apply insert_unique_keys; assumption.
Qed.


End RelationFacts.

(** ** Stocks *)

Ltac run_storage :=
  cbv [mbind mret Storage_bind Storage_ret new_Date read_clock execute settle commit serial
       world reachable after_statement drawn]; simpl.

(** [upsertStock] step by step. *)
Lemma upsertStock_run (stock : InsertStock.t) (w : World) :
  upsertStock stock w =
  let w1 := after_statement 2 (INSERT "stocks") w in
  if reachable w then
    match stocks_coerce stock with
    | Ok v =>
        let '(w2, id) := drawn stocks_table (InsertStock.id v) w1 in
        match Pg.insert_on_conflict_do_update stocks_indexes stocks_symbol
                (stocks_values v id (clock w (clock_reads w)))
                (stocks_set v (clock w (S (clock_reads w)))) (rows (stocks w)) with
        | Ok (rows', row) =>
            (set_stocks {| rows := rows'; id_seq := id_seq (stocks w2) |} w2, Ok row)
        | Err e => (w2, Err e)
        end
    | Err e => (w1, Err e)
    end
  else (w1, Err connection_failure).
Proof.
  unfold upsertStock. run_storage.
  destruct (online w (length (statements w))); [|reflexivity].
  destruct (stocks_coerce stock) as [v|e]; [|reflexivity].
  destruct (InsertStock.id v); simpl;
    destruct (Pg.insert_on_conflict_do_update _ _ _ _ _) as [[rows' row]|e]; reflexivity.
Qed.

Lemma numeric_field_Some (p s : nat) (v : option (option string)) (v' : option (option string))
    (x : option string) :
  numeric_field p s v = Ok v' -> v = Some x ->
  exists y, v' = Some y /\ Pg.numeric_opt p s x = Ok y.
Proof.
  intros H ->. simpl in H. apply result_map_Ok in H as (y & Hy & ->). eauto.
Qed.

Lemma stocks_coerce_Ok (stock v : InsertStock.t) :
  stocks_coerce stock = Ok v ->
  InsertStock.id v = InsertStock.id stock /\
  InsertStock.symbol v = InsertStock.symbol stock /\
  InsertStock.company v = InsertStock.company stock /\
  InsertStock.volume v = InsertStock.volume stock /\
  InsertStock.marketCap v = InsertStock.marketCap stock /\
  Pg.numeric 10 2 (InsertStock.price stock) = Ok (InsertStock.price v) /\
  Pg.numeric 10 2 (InsertStock.change stock) = Ok (InsertStock.change v) /\
  Pg.numeric 5 2 (InsertStock.changePercent stock) = Ok (InsertStock.changePercent v) /\
  numeric_field 8 2 (InsertStock.peRatio stock) = Ok (InsertStock.peRatio v) /\
  numeric_field 10 2 (InsertStock.high52 stock) = Ok (InsertStock.high52 v) /\
  numeric_field 10 2 (InsertStock.low52 stock) = Ok (InsertStock.low52 v).
Proof.
  unfold stocks_coerce. intros H.
  apply result_bind_Ok in H as (price & Hprice & H).
  apply result_bind_Ok in H as (change & Hchange & H).
  apply result_bind_Ok in H as (changePercent & HchangePercent & H).
  apply result_bind_Ok in H as (peRatio & HpeRatio & H).
  apply result_bind_Ok in H as (high52 & Hhigh52 & H).
  apply result_bind_Ok in H as (low52 & Hlow52 & H).
  injection H as <-. simpl. repeat split; assumption.
Qed.

Lemma stocks_values_written (stock v : InsertStock.t) (id : Z) (t : Date) :
  stocks_coerce stock = Ok v ->
  (forall x, InsertStock.id stock = Some x -> id = x) ->
  stock_written stock (stocks_values v id t).
Proof.
  intros (Hid & Hsym & Hco & Hvol & Hcap & Hp & Hc & Hcp & Hpe & Hhi & Hlo)%stocks_coerce_Ok Hsupplied.
  unfold stock_written, stocks_values; simpl.
  rewrite Hsym, Hco, Hvol, Hcap. repeat split; try assumption.
  - intros x ->. reflexivity.
  - intros x Hx. destruct (numeric_field_Some _ _ _ _ _ Hpe Hx) as (y & -> & Hy). exact Hy.
  - intros x Hx. destruct (numeric_field_Some _ _ _ _ _ Hhi Hx) as (y & -> & Hy). exact Hy.
  - intros x Hx. destruct (numeric_field_Some _ _ _ _ _ Hlo Hx) as (y & -> & Hy). exact Hy.
Qed.

Lemma stocks_set_written (stock v : InsertStock.t) (t : Date) (old : Stock.t) :
  stocks_coerce stock = Ok v ->
  stock_written stock (stocks_set v t old).
Proof.
  intros (Hid & Hsym & Hco & Hvol & Hcap & Hp & Hc & Hcp & Hpe & Hhi & Hlo)%stocks_coerce_Ok.
  unfold stock_written, stocks_set; simpl.
  rewrite Hsym, Hco, Hvol, Hcap, Hid. repeat split; try assumption.
  - intros x ->. reflexivity.
  - intros x ->. reflexivity.
  - intros x Hx. destruct (numeric_field_Some _ _ _ _ _ Hpe Hx) as (y & -> & Hy). exact Hy.
  - intros x Hx. destruct (numeric_field_Some _ _ _ _ _ Hhi Hx) as (y & -> & Hy). exact Hy.
  - intros x Hx. destruct (numeric_field_Some _ _ _ _ _ Hlo Hx) as (y & -> & Hy). exact Hy.
Qed.

Lemma getStocks_run (w : World) :
  getStocks w =
  (after_statement 0 (SELECT "stocks") w,
   if reachable w then Ok (Pg.order_by_desc Stock.updatedAt (rows (stocks w)))
   else Err connection_failure).
Proof.
  unfold getStocks. run_storage. destruct (online w (length (statements w))); reflexivity.
Qed.




(** Whatever its outcome, an upsert leaves the unique indexes of [stocks]
    intact, and a rejected one leaves the rows as they were. *)
Lemma upsertStock_unique_keys (stock : InsertStock.t) (w : World) :
  Pg.unique_keys stocks_indexes (rows (stocks w)) ->
  Pg.unique_keys stocks_indexes (rows (stocks (fst (upsertStock stock w)))) /\
  (is_Ok (snd (upsertStock stock w)) = false ->
   rows (stocks (fst (upsertStock stock w))) = rows (stocks w)).
Proof.
  intros Hu. rewrite upsertStock_run. cbv zeta.
  destruct (reachable w); [|simpl; auto].
  destruct (stocks_coerce stock) as [v|e]; [|simpl; auto].
  destruct (InsertStock.id v); simpl;
    destruct (Pg.insert_on_conflict_do_update _ _ _ _ _) as [[rows' row]|e] eqn:Hup;
    simpl; (split; [|auto; discriminate]);
    try assumption; eapply upsert_unique_keys; eassumption.
Qed.


Section UpsertFacts.
Context {Row : Type}.
Variable uniques : list (Pg.UniqueIndex Row).

(** What a successful upsert did: updated the row the arbiter found, in
    place, or appended the proposed row. *)
Lemma upsert_Ok (target : Row -> Pg.Datum) (proposed : Row) (set : Row -> Row)
    (rows rows' : list Row) (row : Row) :
  Pg.insert_on_conflict_do_update uniques target proposed set rows = Ok (rows', row) ->
  (exists i old, rows !! i = Some old /\ target old = target proposed /\
                 rows' = <[i := set old]> rows /\ row = set old /\
                 Forall (fun ix => Pg.indexed ix row ∉ Pg.indexed ix <$> delete i rows) uniques) \/
  ((target proposed ∉ target <$> rows) /\ rows' = rows ++ [proposed] /\ row = proposed /\
   Forall (fun ix => Pg.indexed ix row ∉ Pg.indexed ix <$> rows) uniques).
Proof.
  destruct (list_find (fun r => target r = target proposed) rows) as [[i old]|] eqn:Hf.
  - rewrite (upsert_conflict _ _ _ _ _ _ _ Hf).
    destruct (Pg.violated uniques (set old) (delete i rows)) eqn:Hv; [discriminate|].
    intros H; injection H as <- <-. apply list_find_Some in Hf as (Hi & Heq & _).
    apply violated_None in Hv. left. exists i, old. auto.
  - rewrite (upsert_no_conflict _ _ _ _ _ Hf). intros (-> & -> & Hfresh)%insert_Ok.
    right. split; [|auto]. apply list_find_None in Hf. rewrite Forall_forall in Hf.
    intros (x & Hx & Hin)%list_elem_of_fmap. exact (Hf x Hin (eq_sym Hx)).
Qed.

Lemma upsert_row_elem (target : Row -> Pg.Datum) (proposed : Row) (set : Row -> Row)
    (rows rows' : list Row) (row : Row) :
  Pg.insert_on_conflict_do_update uniques target proposed set rows = Ok (rows', row) ->
  row ∈ rows'.
Proof.
  intros [(i & old & Hi & _ & -> & -> & _)|(_ & -> & -> & _)]%upsert_Ok.
  - eapply list_elem_of_lookup_2. apply list_lookup_insert_eq. eapply lookup_lt_Some; eassumption.
  - apply elem_of_app. right. apply list_elem_of_singleton. reflexivity.
Qed.

End UpsertFacts.




(** What a fulfilled [upsertStock] ran. *)
Lemma upsertStock_Ok (stock : InsertStock.t) (w w' : World) (row : Stock.t) :
  upsertStock stock w = (w', Ok row) ->
  exists v id,
    reachable w = true /\ stocks_coerce stock = Ok v /\
    (forall x, InsertStock.id stock = Some x -> id = x) /\
    Pg.insert_on_conflict_do_update stocks_indexes stocks_symbol
      (stocks_values v id (clock w (clock_reads w)))
      (stocks_set v (clock w (S (clock_reads w)))) (rows (stocks w)) = Ok (rows (stocks w'), row).
Proof.
  rewrite upsertStock_run. cbv zeta.
  destruct (reachable w); [|discriminate].
  destruct (stocks_coerce stock) as [v|e] eqn:Hv; [|discriminate].
  pose proof (stocks_coerce_Ok _ _ Hv) as (Hid & _).
  destruct (InsertStock.id v) as [i|] eqn:Hi; simpl;
    destruct (Pg.insert_on_conflict_do_update _ _ _ _ _) as [[rows' r]|e] eqn:Hup;
    try discriminate; intros H; injection H as <- <-; simpl.
  - exists v, i. repeat split; try assumption. intros x Hx. congruence.
  - exists v, (id_seq (stocks w)). repeat split; try assumption. intros x Hx. congruence.
Qed.


(** ** Currency pairs *)

Lemma updateCurrencyMargin_run (symbol : string) (m : Js.number) (w : World) :
  updateCurrencyMargin symbol m w =
  let w1 := after_statement 1 (UPDATE "currency_pairs") w in
  if reachable w then
    match Pg.numeric 5 2 (Js.toString m) with
    | Ok margin =>
        (set_currencyPairs
           {| rows := Pg.update_where (fun r => string_eq (CurrencyPair.symbol r) symbol)
                        (set_margin margin (clock w (clock_reads w))) (rows (currencyPairs w));
              id_seq := id_seq (currencyPairs w) |} w1, Ok tt)
    | Err e => (w1, Err e)
    end
  else (w1, Err connection_failure).
Proof.
  unfold updateCurrencyMargin. run_storage.
  destruct (online w (length (statements w))); [|reflexivity].
  destruct (Pg.numeric 5 2 (Js.toString m)); reflexivity.
Qed.

Lemma set_margin_updated (margin : string) (now : Date) (old : CurrencyPair.t) :
  margin_updated margin now old (set_margin margin now old).
Proof. unfold margin_updated, set_margin; simpl. repeat split. Qed.







(** The margin 1000 does not fit [decimal(5,2)]: the call is rejected and
    the pair keeps its margin. *)
Example margin_1000_rejected :
  let '(w', outcome) := updateCurrencyMargin "EUR/USD" (Js.of_nat 1000) seeded in
  outcome = Err numeric_value_out_of_range /\
  result_map (fmap CurrencyPair.margin) (snd (getCurrencyPairBySymbol "EUR/USD" w')) =
  Ok (Some "0.25").
Proof. vm_compute. split; reflexivity. Qed.

(** Margins the column holds as they are. *)
Example margin_denoted :
  denotes "0.50" (Js.Finite false 5 (-1)) = true /\
  denotes "0.25" (Js.Finite false 25 (-2)) = true /\
  denotes "12.00" (Js.of_nat 12) = true.
Proof. vm_compute. repeat split. Qed.

(** C9. After [initializeSampleData] has seeded EUR/USD with margin 0.25,
    whatever the clock shows, [updateCurrencyMargin("EUR/USD", 0.50)] makes
    [getCurrencyPairBySymbol("EUR/USD")] return the margin ["0.50"] and the
    rate it had. *)
Theorem seeded_margin_update (clock : nat -> Date) :
  let w := fst (initializeSampleData (empty_world clock always_online)) in
  let w' := fst (updateCurrencyMargin "EUR/USD" (Js.Finite false 5 (-1)) w) in
  exists before after,
    snd (getCurrencyPairBySymbol "EUR/USD" w) = Ok (Some before) /\
    CurrencyPair.margin before = "0.25" /\
    snd (updateCurrencyMargin "EUR/USD" (Js.Finite false 5 (-1)) w) = Ok tt /\
    snd (getCurrencyPairBySymbol "EUR/USD" w') = Ok (Some after) /\
    CurrencyPair.margin after = "0.50" /\
    CurrencyPair.rate after = CurrencyPair.rate before /\
    CurrencyPair.rate after = "1.084200".
Proof.
  vm_compute. do 2 eexists. repeat split; reflexivity.
Qed.

(** ** Market indices *)

Lemma upsertMarketIndex_run (index : InsertMarketIndex.t) (w : World) :
  upsertMarketIndex index w =
  let w1 := after_statement 2 (INSERT "market_indices") w in
  if reachable w then
    match market_indices_coerce index with
    | Ok v =>
        let '(w2, id) := drawn market_indices_table (InsertMarketIndex.id v) w1 in
        match Pg.insert_on_conflict_do_update market_indices_indexes market_indices_symbol
                (market_indices_values v id (clock w (clock_reads w)))
                (market_indices_set v (clock w (S (clock_reads w))))
                (rows (marketIndices w)) with
        | Ok (rows', row) =>
            (set_marketIndices {| rows := rows'; id_seq := id_seq (marketIndices w2) |} w2, Ok row)
        | Err e => (w2, Err e)
        end
    | Err e => (w1, Err e)
    end
  else (w1, Err connection_failure).
Proof.
  unfold upsertMarketIndex. run_storage.
  destruct (online w (length (statements w))); [|reflexivity].
  destruct (market_indices_coerce index) as [v|e]; [|reflexivity].
  destruct (InsertMarketIndex.id v); simpl;
    destruct (Pg.insert_on_conflict_do_update _ _ _ _ _) as [[rows' row]|e]; reflexivity.
Qed.

Lemma market_indices_coerce_Ok (index v : InsertMarketIndex.t) :
  market_indices_coerce index = Ok v ->
  InsertMarketIndex.id v = InsertMarketIndex.id index /\
  InsertMarketIndex.name v = InsertMarketIndex.name index /\
  InsertMarketIndex.symbol v = InsertMarketIndex.symbol index /\
  Pg.numeric 10 2 (InsertMarketIndex.value index) = Ok (InsertMarketIndex.value v) /\
  Pg.numeric 10 2 (InsertMarketIndex.change index) = Ok (InsertMarketIndex.change v) /\
  Pg.numeric 5 2 (InsertMarketIndex.changePercent index) = Ok (InsertMarketIndex.changePercent v).
Proof.
  unfold market_indices_coerce. intros H.
  apply result_bind_Ok in H as (value & Hvalue & H).
  apply result_bind_Ok in H as (change & Hchange & H).
  apply result_bind_Ok in H as (changePercent & HchangePercent & H).
  injection H as <-. simpl. repeat split; assumption.
Qed.

Lemma market_indices_values_written (index v : InsertMarketIndex.t) (id : Z) (t : Date) :
  market_indices_coerce index = Ok v ->
  (forall x, InsertMarketIndex.id index = Some x -> id = x) ->
  index_written index (market_indices_values v id t).
Proof.
  intros (Hid & Hname & Hsym & Hv & Hc & Hcp)%market_indices_coerce_Ok Hsupplied.
  unfold index_written, market_indices_values; simpl.
  rewrite Hname, Hsym. repeat split; assumption.
Qed.

Lemma market_indices_set_written (index v : InsertMarketIndex.t) (t : Date) (old : MarketIndex.t) :
  market_indices_coerce index = Ok v ->
  index_written index (market_indices_set v t old).
Proof.
  intros (Hid & Hname & Hsym & Hv & Hc & Hcp)%market_indices_coerce_Ok.
  unfold index_written, market_indices_set; simpl.
  rewrite Hname, Hsym, Hid. repeat split; try assumption. intros x ->. reflexivity.
Qed.


Lemma upsertMarketIndex_unique_keys (index : InsertMarketIndex.t) (w : World) :
  Pg.unique_keys market_indices_indexes (rows (marketIndices w)) ->
  Pg.unique_keys market_indices_indexes (rows (marketIndices (fst (upsertMarketIndex index w)))) /\
  (is_Ok (snd (upsertMarketIndex index w)) = false ->
   rows (marketIndices (fst (upsertMarketIndex index w))) = rows (marketIndices w)).
Proof.
  intros Hu. rewrite upsertMarketIndex_run. cbv zeta.
  destruct (reachable w); [|simpl; auto].
  destruct (market_indices_coerce index) as [v|e]; [|simpl; auto].
  destruct (InsertMarketIndex.id v); simpl;
    destruct (Pg.insert_on_conflict_do_update _ _ _ _ _) as [[rows' row]|e] eqn:Hup;
    simpl; (split; [|auto; discriminate]);
    try assumption; eapply upsert_unique_keys; eassumption.
Qed.


Lemma upsertMarketIndex_Ok (index : InsertMarketIndex.t) (w w' : World) (row : MarketIndex.t) :
  upsertMarketIndex index w = (w', Ok row) ->
  exists v id,
    reachable w = true /\ market_indices_coerce index = Ok v /\
    (forall x, InsertMarketIndex.id index = Some x -> id = x) /\
    (InsertMarketIndex.id index = None -> id = id_seq (marketIndices w)) /\
    Pg.insert_on_conflict_do_update market_indices_indexes market_indices_symbol
      (market_indices_values v id (clock w (clock_reads w)))
      (market_indices_set v (clock w (S (clock_reads w)))) (rows (marketIndices w)) =
    Ok (rows (marketIndices w'), row).
Proof.
  rewrite upsertMarketIndex_run. cbv zeta.
  destruct (reachable w); [|discriminate].
  destruct (market_indices_coerce index) as [v|e] eqn:Hv; [|discriminate].
  pose proof (market_indices_coerce_Ok _ _ Hv) as (Hid & _).
  destruct (InsertMarketIndex.id v) as [i|] eqn:Hi; simpl;
    destruct (Pg.insert_on_conflict_do_update _ _ _ _ _) as [[rows' r]|e] eqn:Hup;
    try discriminate; intros H; injection H as <- <-; simpl.
  - exists v, i. repeat split; try assumption; intros; congruence.
  - exists v, (id_seq (marketIndices w)). repeat split; try assumption; intros; congruence.
Qed.






(** The scenario of the specification: AAPL seeded at 175.43 and upserted
    again at 180.00 is one row, at 180.00. *)
Example upsert_aapl_again :
  let w' := fst (upsertStock aapl_at_180 seeded) in
  result_map (fmap Stock.price) (snd (getStockBySymbol "AAPL" seeded)) = Ok (Some "175.43") /\
  result_map (fmap Stock.price) (snd (getStockBySymbol "AAPL" w')) = Ok (Some "180.00") /\
  length (filter (fun r => Stock.symbol r = "AAPL") (rows (stocks w'))) = 1%nat /\
  length (rows (stocks w')) = length (rows (stocks seeded)).
Proof. vm_compute. repeat split. Qed.

(** ** Favorites *)

Lemma getUserFavorites_run (userId : string) (w : World) :
  getUserFavorites userId w =
  (after_statement 0 (SELECT "user_favorites") w,
   if reachable w then
     Ok (Pg.order_by_desc UserFavorite.createdAt
           (Pg.select_where (fun r => string_eq (UserFavorite.userId r) userId)
              (rows (userFavorites w))))
   else Err connection_failure).
Proof.
  unfold getUserFavorites. run_storage. destruct (online w (length (statements w))); reflexivity.
Qed.


(** [addUserFavorite] appends one row with the triple of the favorite, or,
    rejected, leaves the rows as they were. *)
Lemma addUserFavorite_rows (fav : InsertUserFavorite.t) (w : World) :
  let '(w', outcome) := addUserFavorite fav w in
  match outcome with
  | Ok row =>
      rows (userFavorites w') = rows (userFavorites w) ++ [row] /\
      UserFavorite.userId row = InsertUserFavorite.userId fav /\
      UserFavorite.itemType row = InsertUserFavorite.itemType fav /\
      UserFavorite.itemId row = InsertUserFavorite.itemId fav /\
      UserFavorite.createdAt row = clock w (clock_reads w)
  | Err _ => rows (userFavorites w') = rows (userFavorites w)
  end.
Proof.
  unfold addUserFavorite. run_storage.
  destruct (online w (length (statements w))); [|reflexivity].
  destruct (InsertUserFavorite.id fav); simpl;
    match goal with
    | |- context [Pg.insert ?ix ?r ?l] => destruct (Pg.insert ix r l) as [[rows' row]|e] eqn:Hins
    end; simpl; try reflexivity;
    match goal with
    | |- context [user_exists ?w ?u] => destruct (user_exists w u)
    end; simpl; try reflexivity;
    apply insert_Ok in Hins as (-> & -> & _); simpl; repeat split.
Qed.











(** ** News *)

#[global] Instance desc_total {Row : Type} (key : Row -> Z) : Total (Pg.desc key).
Proof. intros a b. unfold Pg.desc. lia. Qed.

#[global] Instance desc_transitive {Row : Type} (key : Row -> Z) : Transitive (Pg.desc key).
Proof. intros a b c. unfold Pg.desc. lia. Qed.


Lemma order_by_desc_sorted {Row : Type} (key : Row -> Z) (l : list Row) :
  StronglySorted (fun a b => key b <= key a) (Pg.order_by_desc key l).
Proof. unfold Pg.order_by_desc. apply (StronglySorted_merge_sort (Pg.desc key)). Qed.

Lemma order_by_desc_elem {Row : Type} (key : Row -> Z) (l : list Row) (r : Row) :
  r ∈ Pg.order_by_desc key l <-> r ∈ l.
Proof. unfold Pg.order_by_desc. rewrite (merge_sort_Permutation (Pg.desc key) l). reflexivity. Qed.

Lemma getNewsArticles_run (limit : option Js.number) (w : World) :
  getNewsArticles limit w =
  (after_statement 0 (SELECT "news_articles") w,
   if reachable w then
     let limit := default (Js.of_nat 20) limit in
     let sorted := Pg.order_by_desc NewsArticle.publishedAt (rows (newsArticles w)) in
     if Js.ge_zero limit
     then result_map (fun n => Pg.limit n sorted) (Pg.int8_in (Js.toString limit))
     else Ok sorted
   else Err connection_failure).
Proof.
  unfold getNewsArticles. run_storage.
  destruct (online w (length (statements w))); [|reflexivity].
  destruct (Js.ge_zero (default (Js.of_nat 20) limit)); [|reflexivity].
  destruct (Pg.int8_in _); reflexivity.
Qed.

(** [getNewsArticles(n)] for a natural number [n]. *)
Lemma getNewsArticles_of_nat (n : nat) (w : World) :
  snd (getNewsArticles (Some (Js.of_nat n)) w) =
  if reachable w then
    if Z.of_nat n <? 2 ^ 63
    then Ok (take n (Pg.order_by_desc NewsArticle.publishedAt (rows (newsArticles w))))
    else if Z.of_nat n <? 10 ^ 21 then Err numeric_value_out_of_range
    else Err (invalid_text_representation "bigint" (Js.toString (Js.of_nat n)))
  else Err connection_failure.
Proof.
  rewrite getNewsArticles_run. cbn [snd]. destruct (reachable w); [|reflexivity].
  cbv zeta. change (default (Js.of_nat 20) (Some (Js.of_nat n))) with (Js.of_nat n).
  change (Js.ge_zero (Js.of_nat n)) with true. cbv iota.
  rewrite int8_in_toString_of_nat.
  destruct (Z.of_nat n <? 2 ^ 63); [|destruct (Z.of_nat n <? 10 ^ 21); reflexivity].
  simpl. unfold Pg.limit. rewrite Nat2Z.id. reflexivity.
Qed.


(** The seeded articles, two at a time. *)
Example two_newest :
  result_map (fmap NewsArticle.source) (snd (getNewsArticles (Some (Js.of_nat 2)) seeded)) =
  Ok ["Reuters"; "MarketWatch"].
Proof. vm_compute. reflexivity. Qed.

(** ** [PUT /api/currencies/:symbol/margin] *)

Lemma getUser_run (id : string) (w : World) :
  getUser id w =
  (after_statement 0 (SELECT "users") w,
   if reachable w
   then Ok (first_row (Pg.select_where (fun u => string_eq (User.id u) id) (users w)))
   else Err connection_failure).
Proof.
  unfold getUser. run_storage. destruct (online w (length (statements w))); reflexivity.
Qed.

Lemma updateCurrencyMargin_statements (symbol : string) (m : Js.number) (w : World) :
  statements (fst (updateCurrencyMargin symbol m w)) = statements w ++ [UPDATE "currency_pairs"].
Proof.
  rewrite updateCurrencyMargin_run. cbv zeta. destruct (reachable w); [|reflexivity].
  destruct (Pg.numeric 5 2 (Js.toString m)); reflexivity.
Qed.

(** C6, as amended.  For every request that [isAuthenticated] lets through,
    the handler first reads the caller's user row.  If that read is
    rejected the response is 500.  If the caller is no admin the response is
    403, whatever the body.  If the caller is an admin and the margin is
    missing, not a number or negative, the response is 400; in these cases
    the read of the user is the only statement sent and no pair changes.
    If the caller is an admin and the margin is a number that is not
    negative, [updateCurrencyMargin] is called once, and the response is 200
    when it is fulfilled and 500 when it is rejected. *)
Theorem put_currency_margin_responses (w : World) (sub symbol : string) (margin : Js.value) :
  let '(w', res) := put_currency_margin sub symbol margin w in
  let w1 := fst (getUser sub w) in
  let read_only :=
    statements w' = statements w ++ [SELECT "users"] /\
    currencyPairs w' = currencyPairs w in
  match snd (getUser sub w) with
  | Err _ => status res = 500%nat /\ read_only
  | Ok user =>
      if not_admin user then status res = 403%nat /\ read_only
      else
        match margin with
        | Js.Number m =>
            if Js.lt_zero m then status res = 400%nat /\ read_only
            else
              statements w' = statements w ++ [SELECT "users"; UPDATE "currency_pairs"] /\
              status res = (if is_Ok (snd (updateCurrencyMargin symbol m w1)) then 200 else 500)%nat /\
              rows (currencyPairs w') = rows (currencyPairs (fst (updateCurrencyMargin symbol m w1)))
        | _ => status res = 400%nat /\ read_only
        end
  end.
Proof.
  unfold put_currency_margin, try_catch. cbv [mbind mret Storage_bind Storage_ret].
  rewrite getUser_run. cbn [fst snd].
  destruct (reachable w); [|simpl; auto].
  destruct (not_admin _); [simpl; auto|].
  destruct margin as [| |b|m|s|]; try (simpl; auto).
  destruct (Js.lt_zero m); [simpl; auto|].
  pose proof (updateCurrencyMargin_statements symbol m
                (after_statement 0 (SELECT "users") w)) as Hst.
  destruct (updateCurrencyMargin symbol m (after_statement 0 (SELECT "users") w))
    as [w2 [[]|e]]; simpl in *; rewrite Hst, <- app_assoc; auto.
Qed.

(** C6 as stated fails.  A caller who is no admin and sends no margin gets
    403, not 400; for an admin who sends a negative margin the store has been
    asked for the user row before the 400; and an admin who sends the margin
    1000, a number that is not negative, gets 500, the column refusing it. *)
Lemma put_currency_margin_not_as_stated :
  status (snd (put_currency_margin "42" "EUR/USD" Js.Undefined signed_up)) = 403%nat /\
  (let '(w', res) :=
     put_currency_margin "7" "EUR/USD" (Js.Number (Js.Finite true 1 0)) signed_up in
   status res = 400%nat /\ statements w' = statements signed_up ++ [SELECT "users"]) /\
  status (snd (put_currency_margin "7" "EUR/USD" (Js.Number (Js.of_nat 1000)) signed_up)) = 500%nat.
Proof. vm_compute. repeat split. Qed.

(** An admin sets the margin of EUR/USD to 0.5. *)
Example put_margin_half :
  let '(w', res) :=
    put_currency_margin "7" "EUR/USD" (Js.Number (Js.Finite false 5 (-1))) signed_up in
  res = respond 200 "Margin updated successfully" /\
  result_map (fmap CurrencyPair.margin) (snd (getCurrencyPairBySymbol "EUR/USD" w')) =
  Ok (Some "0.50").
Proof. vm_compute. split; reflexivity. Qed.

(** ** The WebSocket server *)

Lemma sendMarketUpdate_run (ws : nat) (srv : Server) :
  sendMarketUpdate ws srv =
  {| env := fst (market_reads (env srv));
     sockets := alter (suspend (snd (market_reads (env srv)))) ws (sockets srv);
     timers := timers srv;
     next_socket := next_socket srv;
     next_timer := next_timer srv |}.
Proof. unfold sendMarketUpdate. destruct (market_reads (env srv)). reflexivity. Qed.

Lemma sendMarketUpdate_resume_run (ws : nat) (s : Socket) (outcome : result Snapshot)
    (srv : Server) :
  exists w s',
    sendMarketUpdate_resume ws s outcome srv =
    {| env := w; sockets := <[ws := s']> (sockets srv); timers := timers srv;
       next_socket := next_socket srv; next_timer := next_timer srv |} /\
    readyState s' = readyState s /\ updateInterval s' = updateInterval s /\
    pending s' = pending s /\ calls s' = calls s /\
    match outcome with
    | Ok snapshot =>
        if decide (readyState s = OPEN)
        then sent s' = sent s ++ [market_update snapshot (clock (env srv) (clock_reads (env srv)))] /\
             console w = console (env srv)
        else sent s' = sent s /\ w = env srv
    | Err _ =>
        sent s' = sent s /\
        console w = console (env srv) ++ ["Error sending market update:"]
    end.
Proof.
  unfold sendMarketUpdate_resume. destruct outcome as [snapshot|e].
  - destruct (decide (readyState s = OPEN)).
    + eexists _, (send _ s). simpl. repeat split; reflexivity.
    + exists (env srv), s. repeat split; reflexivity.
  - eexists _, s. simpl. repeat split; reflexivity.
Qed.

Lemma perform_all_on_close (t : nat) (srv : Server) :
  perform_all (on_close t) srv =
  {| env := console_log "WebSocket connection closed" (env srv);
     sockets := sockets srv; timers := delete t (timers srv);
     next_socket := next_socket srv; next_timer := next_timer srv |}.
Proof. reflexivity. Qed.

Lemma perform_all_on_error (t : nat) (srv : Server) :
  perform_all (on_error t) srv =
  {| env := console_error "WebSocket error:" (env srv);
     sockets := sockets srv; timers := delete t (timers srv);
     next_socket := next_socket srv; next_timer := next_timer srv |}.
Proof. reflexivity. Qed.

Lemma listening_consistent (w : World) : consistent (listening w).
Proof.
  split; simpl.
  - intros t tm H. rewrite lookup_empty in H. discriminate.
  - intros ws s H. rewrite lookup_empty in H. discriminate.
  - intros ws1 ws2 s1 s2 H. rewrite lookup_empty in H. discriminate.
Qed.

(** Replacing a socket by one with the same timer keeps the server
    consistent. *)
Lemma consistent_replace (srv : Server) (w : World) (ws : nat) (s s' : Socket) :
  consistent srv -> sockets srv !! ws = Some s -> updateInterval s' = updateInterval s ->
  consistent {| env := w; sockets := <[ws := s']> (sockets srv); timers := timers srv;
                next_socket := next_socket srv; next_timer := next_timer srv |}.
Proof.
  intros [Hown Hbound Hinj] Hs Hu. split; simpl.
  - intros t tm Ht. destruct (Hown t tm Ht) as (Hd & so & Hso & Hsu). split; [exact Hd|].
    destruct (decide (ws = callback tm)) as [->|Hne].
    + exists s'. rewrite lookup_insert_eq. split; [reflexivity|]. congruence.
    + exists so. rewrite lookup_insert_ne by exact Hne. auto.
  - intros ws0 s0. destruct (decide (ws = ws0)) as [->|Hne].
    + rewrite lookup_insert_eq. intros H; injection H as <-. rewrite Hu. eauto.
    + rewrite lookup_insert_ne by exact Hne. apply Hbound.
  - intros ws1 ws2 s1 s2 H1 H2 He.
    assert (forall x sx, <[ws := s']> (sockets srv) !! x = Some sx ->
              exists sy, sockets srv !! x = Some sy /\ updateInterval sy = updateInterval sx) as Hback.
    { intros x sx. destruct (decide (ws = x)) as [->|Hne].
      - rewrite lookup_insert_eq. intros H; injection H as <-. eauto.
      - rewrite lookup_insert_ne by exact Hne. eauto. }
    destruct (Hback _ _ H1) as (y1 & Hy1 & E1). destruct (Hback _ _ H2) as (y2 & Hy2 & E2).
    apply (Hinj ws1 ws2 y1 y2); congruence.
Qed.

Lemma consistent_env (srv : Server) (w : World) :
  consistent srv -> consistent (set_env w srv).
Proof. intros [Hown Hbound Hinj]. split; simpl; assumption. Qed.

Lemma alter_as_insert {A : Type} (f : A -> A) (i : nat) (m : gmap nat A) (x : A) :
  m !! i = Some x -> alter f i m = <[i := f x]> m.
Proof.
  intros Hx. apply map_eq. intros j. rewrite lookup_alter.
  destruct (decide (i = j)) as [->|Hne].
  - rewrite lookup_insert_eq, Hx. reflexivity.
  - rewrite lookup_insert_ne by exact Hne. reflexivity.
Qed.

Lemma alter_absent {A : Type} (f : A -> A) (i : nat) (m : gmap nat A) :
  m !! i = None -> alter f i m = m.
Proof.
  intros Hx. apply map_eq. intros j. rewrite lookup_alter.
  destruct (decide (i = j)) as [->|Hne]; [rewrite Hx|]; reflexivity.
Qed.

Lemma sendMarketUpdate_consistent (ws : nat) (srv : Server) :
  consistent srv -> consistent (sendMarketUpdate ws srv).
Proof.
  intros Hc. rewrite sendMarketUpdate_run.
  destruct (sockets srv !! ws) as [s|] eqn:Hs.
  - rewrite (alter_as_insert _ _ _ _ Hs). eapply consistent_replace; eauto.
  - rewrite (alter_absent _ _ _ Hs). destruct Hc as [Hown Hbound Hinj]. split; simpl; assumption.
Qed.

(** Cancelling a timer keeps the server consistent. *)
Lemma consistent_clear (srv : Server) (w : World) (t : nat) :
  consistent srv ->
  consistent {| env := w; sockets := sockets srv; timers := delete t (timers srv);
                next_socket := next_socket srv; next_timer := next_timer srv |}.
Proof.
  intros [Hown Hbound Hinj]. split; simpl; try assumption.
  intros t' tm Ht. apply lookup_delete_Some in Ht as [_ Ht]. apply Hown. exact Ht.
Qed.

Lemma on_connection_consistent (srv : Server) :
  consistent srv -> consistent (on_connection srv).
Proof.
  intros Hc. unfold on_connection. cbv zeta. rewrite sendMarketUpdate_run. simpl.
  rewrite (alter_as_insert _ _ _ _ (lookup_insert_eq _ _ _)), insert_insert_eq.
  destruct Hc as [Hown Hbound Hinj].
  assert (Hfresh : sockets srv !! next_socket srv = None).
  { destruct (sockets srv !! next_socket srv) as [s|] eqn:Hs; [|reflexivity].
    apply Hbound in Hs. lia. }
  split; simpl.
  - intros t tm Ht. destruct (decide (next_timer srv = t)) as [<-|Hne].
    + rewrite lookup_insert_eq in Ht. injection Ht as <-. simpl. split; [reflexivity|].
      eexists. rewrite lookup_insert_eq. split; reflexivity.
    + rewrite lookup_insert_ne in Ht by exact Hne.
      destruct (Hown t tm Ht) as (Hd & so & Hso & Hsu). split; [exact Hd|]. exists so.
      rewrite lookup_insert_ne; [auto|]. intros Heq. rewrite <- Heq in Hso. congruence.
  - intros ws s. destruct (decide (next_socket srv = ws)) as [<-|Hne].
    + rewrite lookup_insert_eq. intros H; injection H as <-. simpl. lia.
    + rewrite lookup_insert_ne by exact Hne. intros H. apply Hbound in H. lia.
  - intros ws1 ws2 s1 s2.
    destruct (decide (next_socket srv = ws1)) as [<-|Hne1];
      destruct (decide (next_socket srv = ws2)) as [<-|Hne2];
      rewrite ?lookup_insert_eq, ?lookup_insert_ne by assumption.
    + reflexivity.
    + intros H1 H2 He. injection H1 as <-. simpl in He. apply Hbound in H2. lia.
    + intros H1 H2 He. injection H2 as <-. simpl in He. apply Hbound in H1. lia.
    + apply Hinj.
Qed.

(** Every turn of the event loop keeps the server consistent. *)
Lemma step_consistent (e : Event) (srv : Server) : consistent srv -> consistent (step e srv).
Proof.
  intros Hc. destruct e as [|t|ws k|ws|ws|ws|h]; cbn [step].
  - apply on_connection_consistent. exact Hc.
  - destruct (timers srv !! t); [apply sendMarketUpdate_consistent|]; exact Hc.
  - destruct (sockets srv !! ws) as [s|] eqn:Hs; [|exact Hc].
    destruct (pending s !! k) as [outcome|]; [|exact Hc].
    destruct (sendMarketUpdate_resume_run ws (set_pending (delete k (pending s)) s) outcome srv)
      as (w & s' & -> & _ & Hu & _).
    eapply consistent_replace; eauto.
  - destruct (sockets srv !! ws) as [s|] eqn:Hs; [|exact Hc].
    destruct (decide (readyState s = OPEN)); [|exact Hc].
    apply (consistent_replace srv (env srv) ws s); auto.
  - destruct (sockets srv !! ws) as [s|] eqn:Hs; [|exact Hc].
    rewrite perform_all_on_close.
    apply (consistent_clear
             {| env := env srv; sockets := <[ws := set_readyState CLOSED s]> (sockets srv);
                timers := timers srv; next_socket := next_socket srv;
                next_timer := next_timer srv |}
             (console_log "WebSocket connection closed" (env srv)) (updateInterval s)).
    apply (consistent_replace srv (env srv) ws s); auto.
  - destruct (sockets srv !! ws) as [s|] eqn:Hs; [|exact Hc].
    rewrite perform_all_on_error.
    apply (consistent_clear
             {| env := env srv;
                sockets := <[ws := set_readyState
                                     (if decide (readyState s = CLOSED) then CLOSED else CLOSING) s]>
                             (sockets srv);
                timers := timers srv; next_socket := next_socket srv;
                next_timer := next_timer srv |}
             (console_error "WebSocket error:" (env srv)) (updateInterval s)).
    apply (consistent_replace srv (env srv) ws s); auto.
  - apply consistent_env. exact Hc.
Qed.

Lemma run_consistent (es : list Event) (srv : Server) : consistent srv -> consistent (run es srv).
Proof.
  revert srv. induction es as [|e es IH]; intros srv Hc; [exact Hc|].
  simpl. apply IH, step_consistent, Hc.
Qed.

Lemma traffic_insert_same (ws : nat) (s s' : Socket) (srv : Server) (w : World)
    (tms : gmap nat Timer) (n1 n2 : nat) :
  sockets srv !! ws = Some s -> sent s' = sent s -> calls s' = calls s ->
  forall ws0,
    traffic ws0 {| env := w; sockets := <[ws := s']> (sockets srv); timers := tms;
                   next_socket := n1; next_timer := n2 |} = traffic ws0 srv.
Proof.
  intros Hs Hsent Hcalls ws0. unfold traffic. simpl.
  destruct (decide (ws = ws0)) as [->|Hne].
  - rewrite lookup_insert_eq, Hs. simpl. congruence.
  - rewrite lookup_insert_ne by exact Hne. reflexivity.
Qed.

(** Silence survives the replacement of a socket by one that is not open
    either, and the cancelling of timers. *)
Lemma silenced_replace (ws ws' : nat) (s0 s' : Socket) (srv : Server) (w : World)
    (tms : gmap nat Timer) (n1 n2 : nat) :
  silenced ws srv -> sockets srv !! ws' = Some s0 ->
  (ws' = ws -> readyState s' <> OPEN) ->
  (forall t tm, tms !! t = Some tm -> timers srv !! t = Some tm) ->
  silenced ws {| env := w; sockets := <[ws' := s']> (sockets srv); timers := tms;
                 next_socket := n1; next_timer := n2 |}.
Proof.
  intros [Hnone (s & Hs & Hclosed)] Hs0 Hr Htm. split; simpl.
  - intros t tm Ht. eapply Hnone, Htm, Ht.
  - destruct (decide (ws' = ws)) as [->|Hne].
    + exists s'. rewrite lookup_insert_eq. auto.
    + exists s. rewrite lookup_insert_ne by exact Hne. auto.
Qed.

(** Once silenced, a connection stays silenced, and nothing is sent to it
    or requested for it, whatever the event loop dispatches. *)
Lemma step_silenced (e : Event) (ws : nat) (srv : Server) :
  consistent srv -> silenced ws srv ->
  silenced ws (step e srv) /\ traffic ws (step e srv) = traffic ws srv.
Proof.
  intros Hc Hsil. pose proof Hsil as [Hnone (s & Hs & Hclosed)].
  destruct e as [|t|ws' k|ws'|ws'|ws'|h]; cbn [step].
  - unfold on_connection. cbv zeta. rewrite sendMarketUpdate_run. simpl.
    rewrite (alter_as_insert _ _ _ _ (lookup_insert_eq _ _ _)), insert_insert_eq.
    assert (Hlt : (ws < next_socket srv)%nat) by (eapply socket_bounds; eassumption).
    split; [split|].
    + simpl. intros t tm Ht. destruct (decide (next_timer srv = t)) as [<-|Hne].
      * rewrite lookup_insert_eq in Ht. injection Ht as <-. simpl. lia.
      * rewrite lookup_insert_ne in Ht by exact Hne. eapply Hnone. exact Ht.
    + exists s. simpl. rewrite lookup_insert_ne by lia. auto.
    + unfold traffic. simpl. rewrite lookup_insert_ne by lia. reflexivity.
  - destruct (timers srv !! t) as [tm|] eqn:Ht; [|split; [exact Hsil|reflexivity]].
    assert (Hne : callback tm <> ws) by (eapply Hnone; exact Ht).
    rewrite sendMarketUpdate_run. split; [split|]; simpl.
    + exact Hnone.
    + exists s. rewrite lookup_alter_ne by exact Hne. auto.
    + unfold traffic. simpl. rewrite lookup_alter_ne by exact Hne. reflexivity.
  - destruct (sockets srv !! ws') as [s0|] eqn:Hs0; [|split; [exact Hsil|reflexivity]].
    destruct (pending s0 !! k) as [outcome|]; [|split; [exact Hsil|reflexivity]].
    destruct (sendMarketUpdate_resume_run ws' (set_pending (delete k (pending s0)) s0) outcome srv)
      as (w & s' & -> & Hr & _ & _ & Hcalls & Hout). simpl in Hr, Hcalls, Hout.
    split.
    + apply (silenced_replace ws ws' s0 s' srv _ _ _ _ Hsil Hs0); [|auto].
      intros ->. rewrite Hr. simpl. congruence.
    + destruct (decide (ws' = ws)) as [->|Hne].
      * assert (s0 = s) by congruence. subst s0.
        apply (traffic_insert_same ws s); [exact Hs| |exact Hcalls].
        destruct outcome as [snapshot|err]; [|tauto].
        destruct (decide (readyState s = OPEN)); [contradiction|tauto].
      * unfold traffic. simpl. rewrite lookup_insert_ne by exact Hne. reflexivity.
  - destruct (sockets srv !! ws') as [s0|] eqn:Hs0; [|split; [exact Hsil|reflexivity]].
    destruct (decide (readyState s0 = OPEN)); [|split; [exact Hsil|reflexivity]].
    split.
    + apply (silenced_replace ws ws' s0 _ srv _ _ _ _ Hsil Hs0); [|auto].
      intros _. discriminate.
    + apply (traffic_insert_same ws' s0); auto.
  - destruct (sockets srv !! ws') as [s0|] eqn:Hs0; [|split; [exact Hsil|reflexivity]].
    rewrite perform_all_on_close. simpl. split.
    + apply (silenced_replace ws ws' s0 _ srv _ _ _ _ Hsil Hs0); [intros _; discriminate|].
      intros t tm Ht. apply lookup_delete_Some in Ht. tauto.
    + apply (traffic_insert_same ws' s0); auto.
  - destruct (sockets srv !! ws') as [s0|] eqn:Hs0; [|split; [exact Hsil|reflexivity]].
    rewrite perform_all_on_error. simpl. split.
    + apply (silenced_replace ws ws' s0 _ srv _ _ _ _ Hsil Hs0).
      * intros _. simpl. destruct (decide (readyState s0 = CLOSED)); discriminate.
      * intros t tm Ht. apply lookup_delete_Some in Ht. tauto.
    + apply (traffic_insert_same ws' s0); auto.
  - split; [exact Hsil|reflexivity].
Qed.

Lemma run_silenced (es : list Event) (ws : nat) (srv : Server) :
  consistent srv -> silenced ws srv -> traffic ws (run es srv) = traffic ws srv.
Proof.
  revert srv. induction es as [|e es IH]; intros srv Hc Hsil; [reflexivity|].
  simpl. destruct (step_silenced e ws srv Hc Hsil) as [Hsil' Htr].
  rewrite IH; [exact Htr|apply step_consistent; exact Hc|exact Hsil'].
Qed.

(** C7. For every connection of a consistent server, the listener of
    ['close'] and the listener of ['error'] cancel the connection's own
    timer as their first teardown action, only a line on the console coming
    before it.  The event leaves the timers of the other connections set and
    the other connections as they were, and after it, whatever the event
    loop dispatches and however long, no snapshot is requested for the
    connection and nothing is sent to it. *)
Theorem closed_connection_is_silent (srv : Server) (ws : nat) (s : Socket)
    (e : Event) (es : list Event) :
  consistent srv -> sockets srv !! ws = Some s -> e = Close ws \/ e = Error ws ->
  let listener :=
    match e with
    | Error _ => on_error (updateInterval s)
    | _ => on_close (updateInterval s)
    end in
  let closed := step e srv in
  (exists r, r <> OPEN /\
     closed = perform_all listener
                (set_sockets (<[ws := set_readyState r s]> (sockets srv)) srv)) /\
  List.find is_teardown listener = Some (ClearInterval (updateInterval s)) /\
  timers closed = delete (updateInterval s) (timers srv) /\
  (forall t tm, timers closed !! t = Some tm -> callback tm <> ws) /\
  (forall t tm, timers srv !! t = Some tm -> callback tm <> ws -> timers closed !! t = Some tm) /\
  (forall ws', ws' <> ws -> sockets closed !! ws' = sockets srv !! ws') /\
  traffic ws (run es closed) = Some (sent s, calls s).
Proof.
  intros Hc Hs He listener closed.
  assert (Hstep : exists r w, r <> OPEN /\
            closed = perform_all listener
                       (set_sockets (<[ws := set_readyState r s]> (sockets srv)) srv) /\
            closed = {| env := w; sockets := <[ws := set_readyState r s]> (sockets srv);
                        timers := delete (updateInterval s) (timers srv);
                        next_socket := next_socket srv; next_timer := next_timer srv |} /\
            List.find is_teardown listener = Some (ClearInterval (updateInterval s))).
  { subst closed listener. destruct He as [->| ->]; cbn [step]; rewrite Hs.
    - exists CLOSED. eexists. split; [discriminate|]. split; [reflexivity|].
      split; reflexivity.
    - exists (if decide (readyState s = CLOSED) then CLOSED else CLOSING). eexists.
      split; [destruct (decide (readyState s = CLOSED)); discriminate|].
      split; [reflexivity|]. split; reflexivity. }
  destruct Hstep as (r & w & Hr & Hperf & Hclosed & Hfirst).
  assert (Hown : forall t tm, timers closed !! t = Some tm -> callback tm <> ws).
  { rewrite Hclosed. simpl. intros t tm Ht Hcb. apply lookup_delete_Some in Ht as [Hne Ht].
    destruct (timer_owner srv Hc t tm Ht) as (_ & so & Hso & Hsu).
    rewrite Hcb, Hs in Hso. injection Hso as <-. congruence. }
  split; [exists r; auto|]. split; [exact Hfirst|].
  split; [rewrite Hclosed; reflexivity|]. split; [exact Hown|]. split; [|split].
  - rewrite Hclosed. simpl. intros t tm Ht Hcb. rewrite lookup_delete_ne; [exact Ht|].
    intros <-. destruct (timer_owner srv Hc _ tm Ht) as (_ & so & Hso & Hsu).
    apply Hcb. eapply (own_interval srv Hc); eauto.
  - rewrite Hclosed. simpl. intros ws' Hne. rewrite lookup_insert_ne by congruence. reflexivity.
  - rewrite run_silenced.
    + rewrite Hclosed. unfold traffic. simpl. rewrite lookup_insert_eq. reflexivity.
    + apply step_consistent. exact Hc.
    + split; [exact Hown|]. exists (set_readyState r s). rewrite Hclosed. simpl.
      rewrite lookup_insert_eq. auto.
Qed.

(** C7 at a server with two connections: the first is closed, then both
    timers elapse and the suspended calls settle. *)
Lemma closed_connection_is_silent_witness :
  consistent two_connections /\
  exists s, sockets two_connections !! 0%nat = Some s /\
    traffic 0 (run [IntervalElapsed 0; IntervalElapsed 1; ReadsSettled 0 0; ReadsSettled 1 0]
                 (step (Close 0) two_connections)) = Some (sent s, calls s).
Proof.
  assert (Hc : consistent two_connections)
    by (apply run_consistent, listening_consistent).
  split; [exact Hc|].
  destruct (sockets two_connections !! 0%nat) as [s|] eqn:Hs; [|vm_compute in Hs; discriminate].
  exists s. split; [reflexivity|].
  exact (proj2 (proj2 (proj2 (proj2 (proj2 (proj2
           (closed_connection_is_silent two_connections 0 s (Close 0)
              [IntervalElapsed 0; IntervalElapsed 1; ReadsSettled 0 0; ReadsSettled 1 0]
              Hc Hs (or_introl eq_refl)))))))).
Defined.

(** After the first of two connections has closed, the second is still
    served: its timer elapses, the reads settle, and it has two messages,
    the first connection none. *)
Example other_connection_still_served :
  let srv := run [Close 0; ReadsSettled 1 0; IntervalElapsed 0; IntervalElapsed 1;
                  ReadsSettled 0 0; ReadsSettled 1 0] two_connections in
  (length ∘ sent) <$> sockets srv !! 0%nat = Some 0%nat /\
  (length ∘ sent) <$> sockets srv !! 1%nat = Some 2%nat /\
  dom (timers srv) = {[1%nat]}.
Proof. vm_compute. repeat split. Qed.

(** ** Snapshots are whole *)

(** [Promise.all] over the four reads is fulfilled with the four lists when
    every read is fulfilled, and rejected when one is rejected. *)
Lemma market_reads_all (w : World) :
  match snd (market_reads w), reads_of w with
  | Ok (a, b, c, d), (r1, r2, r3, r4) =>
      r1 = Ok a /\ r2 = Ok b /\ r3 = Ok c /\ r4 = Ok d /\ (length d <= 10)%nat
  | Err _, (r1, r2, r3, r4) => is_Ok r1 && is_Ok r2 && is_Ok r3 && is_Ok r4 = false
  end.
Proof.
  unfold market_reads, Promise_all4, reads_of. cbv zeta.
  pose proof (getNewsArticles_of_nat 10
                (fst (getMarketIndices (fst (getCurrencyPairs (fst (getStocks w))))))) as H10.
  destruct (getStocks w) as [w1 r1]. cbn [fst snd] in *.
  destruct (getCurrencyPairs w1) as [w2 r2]. cbn [fst snd] in *.
  destruct (getMarketIndices w2) as [w3 r3]. cbn [fst snd] in *.
  destruct (getNewsArticles (Some (Js.of_nat 10)) w3) as [w4 r4]. cbn [fst snd] in *.
  destruct r1 as [a|e1]; [|reflexivity]. destruct r2 as [b|e2]; [|reflexivity].
  destruct r3 as [c|e3]; [|reflexivity]. destruct r4 as [d|e4]; [|reflexivity].
  simpl. repeat split; try reflexivity.
  destruct (reachable w3); [|discriminate]. simpl in H10. injection H10 as ->.
  rewrite length_take. lia.
Qed.

Lemma sendMarketUpdate_suspends (ws : nat) (s : Socket) (srv : Server) :
  sockets srv !! ws = Some s ->
  sockets (sendMarketUpdate ws srv) !! ws = Some (suspend (snd (market_reads (env srv))) s) /\
  timers (sendMarketUpdate ws srv) = timers srv /\
  forall ws', ws' <> ws -> sockets (sendMarketUpdate ws srv) !! ws' = sockets srv !! ws'.
Proof.
  intros Hs. rewrite sendMarketUpdate_run. simpl. split; [|split].
  - rewrite lookup_alter_eq, Hs. reflexivity.
  - reflexivity.
  - intros ws' Hne. rewrite lookup_alter_ne by congruence. reflexivity.
Qed.

(** C10. When the reads of a suspended [sendMarketUpdate] have settled,
    exactly one message goes to the socket if [Promise.all] was fulfilled and
    the socket is [OPEN] at that moment, and none otherwise; no other socket
    is touched.  The message holds the four lists of the snapshot and the
    clock reading of that moment.  What settles is what [Promise.all] over
    the reads of stocks, currency pairs, market indices and the 10 most
    recent news gave when the call was made: the four lists when every read
    was fulfilled, a rejection when one was rejected. *)
Theorem market_update_all_or_nothing (srv : Server) (ws k : nat) (s : Socket)
    (outcome : result Snapshot) :
  sockets srv !! ws = Some s -> pending s !! k = Some outcome ->
  let srv' := step (ReadsSettled ws k) srv in
  let now := clock (env srv) (clock_reads (env srv)) in
  (exists s', sockets srv' !! ws = Some s' /\
     sent s' = sent s ++
       match outcome with
       | Ok snapshot => if decide (readyState s = OPEN) then [market_update snapshot now] else []
       | Err _ => []
       end) /\
  (forall ws', ws' <> ws -> sockets srv' !! ws' = sockets srv !! ws') /\
  (forall a b c d t,
     let m := market_update (a, b, c, d) t in
     MarketUpdate.type m = "market_update" /\
     MarketUpdate.stocks (MarketUpdate.payload m) = a /\
     MarketUpdate.currencies (MarketUpdate.payload m) = b /\
     MarketUpdate.indices (MarketUpdate.payload m) = c /\
     MarketUpdate.news (MarketUpdate.payload m) = d /\
     MarketUpdate.timestamp (MarketUpdate.payload m) = t) /\
  (forall t tm s0,
     timers srv !! t = Some tm -> sockets srv !! callback tm = Some s0 ->
     exists s1, sockets (step (IntervalElapsed t) srv) !! callback tm = Some s1 /\
                pending s1 = pending s0 ++ [snd (market_reads (env srv))]) /\
  (forall w,
     match snd (market_reads w), reads_of w with
     | Ok (a, b, c, d), (r1, r2, r3, r4) =>
         r1 = Ok a /\ r2 = Ok b /\ r3 = Ok c /\ r4 = Ok d /\ (length d <= 10)%nat
     | Err _, (r1, r2, r3, r4) => is_Ok r1 && is_Ok r2 && is_Ok r3 && is_Ok r4 = false
     end).
Proof.
  intros Hs Hk srv' now. subst srv'. cbn [step]. rewrite Hs, Hk.
  destruct (sendMarketUpdate_resume_run ws (set_pending (delete k (pending s)) s) outcome srv)
    as (w & s' & -> & _ & _ & _ & _ & Hout). simpl in Hout.
  split; [|split; [|split; [|split]]].
  - exists s'. simpl. rewrite lookup_insert_eq. split; [reflexivity|].
    destruct outcome as [snapshot|e].
    + destruct (decide (readyState s = OPEN)); [tauto|]. rewrite app_nil_r. tauto.
    + rewrite app_nil_r. tauto.
  - intros ws' Hne. simpl. rewrite lookup_insert_ne by congruence. reflexivity.
  - intros a b c d t. simpl. repeat split.
  - intros t tm s0 Ht Hs0. cbn [step]. rewrite Ht.
    destruct (sendMarketUpdate_suspends _ _ _ Hs0) as (-> & _). eexists. split; reflexivity.
  - apply market_reads_all.
Qed.

(** C10 at a server with two connections: the first snapshot of the first
    connection arrives whole. *)
Lemma market_update_all_or_nothing_witness :
  exists s outcome,
    sockets two_connections !! 0%nat = Some s /\ pending s !! 0%nat = Some outcome /\
    is_Ok outcome = true /\
    exists s', sockets (step (ReadsSettled 0 0) two_connections) !! 0%nat = Some s' /\
               length (sent s') = 1%nat.
Proof.
  destruct (sockets two_connections !! 0%nat) as [s|] eqn:Hs; [|vm_compute in Hs; discriminate].
  assert (Hopen : readyState s = OPEN /\ sent s = [] /\ is_Ok <$> pending s !! 0%nat = Some true).
  { vm_compute in Hs. injection Hs as <-. vm_compute. auto. }
  destruct Hopen as (Hopen & Hsent & Hp).
  destruct (pending s !! 0%nat) as [outcome|] eqn:Hk; [|discriminate Hp].
  simpl in Hp. injection Hp as Hp.
  exists s, outcome. split; [reflexivity|]. split; [exact Hk|]. split; [exact Hp|].
  destruct (proj1 (market_update_all_or_nothing two_connections 0 0 s outcome Hs Hk))
    as (s' & Hs' & Hsent').
  exists s'. split; [exact Hs'|]. rewrite Hsent', Hsent.
  destruct outcome as [snapshot|e]; [|simpl in Hp; discriminate Hp].
  destruct (decide (readyState s = OPEN)) as [_|Hn]; [reflexivity|].
  exfalso. exact (Hn Hopen).
Defined.

(** ** A failed assembly *)

Lemma step_keeps_timer (ev : Event) (srv : Server) (t : nat) (tm : Timer) :
  consistent srv -> timers srv !! t = Some tm -> timers (step ev srv) !! t = None ->
  ev = Close (callback tm) \/ ev = Error (callback tm).
Proof.
  intros Hc Ht. destruct (timer_owner srv Hc t tm Ht) as (_ & so & Hso & Hsu).
  destruct ev as [|t'|ws' k|ws'|ws'|ws'|h]; cbn [step].
  - unfold on_connection. cbv zeta. rewrite sendMarketUpdate_run. simpl.
    rewrite lookup_insert_ne; [congruence|].
    apply (socket_bounds srv Hc) in Hso. lia.
  - destruct (timers srv !! t'); [rewrite sendMarketUpdate_run; simpl|]; congruence.
  - destruct (sockets srv !! ws') as [s0|]; [|congruence].
    destruct (pending s0 !! k) as [outcome|]; [|congruence].
    destruct (sendMarketUpdate_resume_run ws' (set_pending (delete k (pending s0)) s0) outcome srv)
      as (w & s' & -> & _). simpl. congruence.
  - destruct (sockets srv !! ws') as [s0|]; [|congruence].
    destruct (decide (readyState s0 = OPEN)); simpl; congruence.
  - destruct (sockets srv !! ws') as [s0|] eqn:Hs0; [|congruence].
    rewrite perform_all_on_close. simpl. intros Hdel.
    apply lookup_delete_None in Hdel as [Heq|Hnone]; [|congruence].
    left. f_equal. symmetry. eapply (own_interval srv Hc); eauto. congruence.
  - destruct (sockets srv !! ws') as [s0|] eqn:Hs0; [|congruence].
    rewrite perform_all_on_error. simpl. intros Hdel.
    apply lookup_delete_None in Hdel as [Heq|Hnone]; [|congruence].
    right. f_equal. symmetry. eapply (own_interval srv Hc); eauto. congruence.
  - simpl. congruence.
Qed.

(** C8. When the snapshot of a tick could not be assembled, the resumed
    call writes the failure to the console and sends nothing; the connection
    keeps its state, and the timers stay as they were: the connection's
    timer, of period four seconds, still calls [sendMarketUpdate] when it
    next elapses.  A timer of a consistent server stops being set only by
    the ['close'] or the ['error'] event of its connection.  An assembly
    fails whenever the database cannot be reached for its first read. *)
Theorem failed_assembly_keeps_timer (srv : Server) (ws k : nat) (s : Socket) (err : PgError) :
  consistent srv -> sockets srv !! ws = Some s -> pending s !! k = Some (Err err) ->
  let srv' := step (ReadsSettled ws k) srv in
  console (env srv') = console (env srv) ++ ["Error sending market update:"] /\
  timers srv' = timers srv /\
  (exists s', sockets srv' !! ws = Some s' /\ sent s' = sent s /\
              readyState s' = readyState s /\ updateInterval s' = updateInterval s /\
              calls s' = calls s /\
              forall t tm, timers srv' !! t = Some tm -> callback tm = ws ->
                delay tm = 4000 /\ t = updateInterval s /\
                traffic ws (step (IntervalElapsed t) srv') = Some (sent s, S (calls s))) /\
  (forall ws', ws' <> ws -> sockets srv' !! ws' = sockets srv !! ws') /\
  (forall ev t tm,
     timers srv !! t = Some tm -> timers (step ev srv) !! t = None ->
     ev = Close (callback tm) \/ ev = Error (callback tm)) /\
  (forall w, reachable w = false -> is_Ok (snd (market_reads w)) = false).
Proof.
  intros Hc Hs Hk srv'. subst srv'. cbn [step]. rewrite Hs, Hk.
  destruct (sendMarketUpdate_resume_run ws (set_pending (delete k (pending s)) s) (Err err) srv)
    as (w & s' & Hrun & Hr & Hu & _ & Hcalls & Hsent & Hconsole).
  simpl in Hr, Hu, Hcalls, Hsent. rewrite Hrun.
  split; [exact Hconsole|]. split; [reflexivity|]. split; [|split; [|split]].
  - exists s'. simpl. rewrite lookup_insert_eq.
    split; [reflexivity|]. split; [exact Hsent|]. split; [exact Hr|].
    split; [exact Hu|]. split; [exact Hcalls|].
    intros t tm Ht Hcb. destruct (timer_owner srv Hc t tm Ht) as (Hd & so & Hso & Hsu).
    split; [exact Hd|]. split; [congruence|].
    cbn [step]. simpl. rewrite Ht, Hcb.
    match goal with
    | |- traffic ws (sendMarketUpdate ws ?x) = _ =>
        destruct (sendMarketUpdate_suspends ws s' x) as (Hlook & _)
    end.
    + simpl. apply lookup_insert_eq.
    + unfold traffic. rewrite Hlook. simpl. congruence.
  - intros ws' Hne. simpl. rewrite lookup_insert_ne by congruence. reflexivity.
  - intros ev t tm. apply step_keeps_timer. exact Hc.
  - intros w0 Hoff. pose proof (market_reads_all w0) as H. unfold reads_of in H.
    rewrite getStocks_run in H. cbn [fst snd] in H. rewrite Hoff in H.
    destruct (snd (market_reads w0)) as [[[[a b] c] d]|e]; [|reflexivity].
    destruct H as [H _]. discriminate.
Qed.

(** C8 at a server whose database is unreachable when the connection
    arrives: the first snapshot fails, and the timer is still set. *)
Lemma failed_assembly_keeps_timer_witness :
  let srv := run [Connection] (listening outage) in
  consistent srv /\
  exists s, sockets srv !! 0%nat = Some s /\
            pending s !! 0%nat = Some (Err connection_failure) /\
            timers (step (ReadsSettled 0 0) srv) = timers srv.
Proof.
  intros srv.
  assert (Hc : consistent srv) by (apply run_consistent, listening_consistent).
  split; [exact Hc|].
  destruct (sockets srv !! 0%nat) as [s|] eqn:Hs; [|vm_compute in Hs; discriminate].
  assert (Hk : pending s !! 0%nat = Some (Err connection_failure)).
  { vm_compute in Hs. injection Hs as <-. reflexivity. }
  exists s. split; [reflexivity|]. split; [exact Hk|].
  exact (proj1 (proj2 (failed_assembly_keeps_timer srv 0 0 s connection_failure Hc Hs Hk))).
Defined.

(** A failed tick is followed by a served one once the database is back. *)
Example tick_after_failure :
  let srv := run [Connection; ReadsSettled 0 0; Request (set_online always_online);
                  IntervalElapsed 0; ReadsSettled 0 0] (listening outage) in
  (length ∘ sent) <$> sockets srv !! 0%nat = Some 1%nat /\
  console (env srv) = console seeded ++ ["New WebSocket connection"; "Error sending market update:"].
Proof. vm_compute. split; reflexivity. Qed.

(** * Further properties of the code *)

(** ** Lookups by key *)




Lemma getStock_run (id : Z) (w : World) :
  getStock id w =
  (after_statement 0 (SELECT "stocks") w,
   if reachable w
   then Ok (first_row (Pg.select_where (fun r => Stock.id r =? id) (rows (stocks w))))
   else Err connection_failure).
Proof.
  unfold getStock. run_storage. destruct (online w (length (statements w))); reflexivity.
Qed.


(** A fulfilled [upsertStock] returns a row of the table that holds the
    record. *)
Lemma upsertStock_written (stock : InsertStock.t) (w w' : World) (row : Stock.t) :
  upsertStock stock w = (w', Ok row) ->
  stock_written stock row /\ row ∈ rows (stocks w').
Proof.
  intros (v & id & _ & Hv & Hid & Hup)%upsertStock_Ok.
  split; [|exact (upsert_row_elem _ _ _ _ _ _ _ Hup)].
  apply upsert_Ok in Hup as [(i & old & _ & _ & _ & -> & _)|(_ & _ & -> & _)].
  - apply stocks_set_written. exact Hv.
  - apply stocks_values_written; assumption.
Qed.



(** ** Currency pairs, upserted *)

Lemma upsertCurrencyPair_run (pair : InsertCurrencyPair.t) (w : World) :
  upsertCurrencyPair pair w =
  let w1 := after_statement 2 (INSERT "currency_pairs") w in
  if reachable w then
    match currency_pairs_coerce pair with
    | Ok v =>
        let '(w2, id) := drawn currency_pairs_table (InsertCurrencyPair.id v) w1 in
        match Pg.insert_on_conflict_do_update currency_pairs_indexes currency_pairs_symbol
                (currency_pairs_values v id (clock w (clock_reads w)))
                (currency_pairs_set v (clock w (S (clock_reads w))))
                (rows (currencyPairs w)) with
        | Ok (rows', row) =>
            (set_currencyPairs {| rows := rows'; id_seq := id_seq (currencyPairs w2) |} w2, Ok row)
        | Err e => (w2, Err e)
        end
    | Err e => (w1, Err e)
    end
  else (w1, Err connection_failure).
Proof.
  unfold upsertCurrencyPair. run_storage.
  destruct (online w (length (statements w))); [|reflexivity].
  destruct (currency_pairs_coerce pair) as [v|e]; [|reflexivity].
  destruct (InsertCurrencyPair.id v); simpl;
    destruct (Pg.insert_on_conflict_do_update _ _ _ _ _) as [[rows' row]|e]; reflexivity.
Qed.

Lemma currency_pairs_coerce_Ok (pair v : InsertCurrencyPair.t) :
  currency_pairs_coerce pair = Ok v ->
  InsertCurrencyPair.id v = InsertCurrencyPair.id pair /\
  InsertCurrencyPair.symbol v = InsertCurrencyPair.symbol pair /\
  InsertCurrencyPair.base v = InsertCurrencyPair.base pair /\
  InsertCurrencyPair.quote v = InsertCurrencyPair.quote pair /\
  Pg.numeric 10 6 (InsertCurrencyPair.rate pair) = Ok (InsertCurrencyPair.rate v) /\
  Pg.numeric 8 6 (InsertCurrencyPair.change pair) = Ok (InsertCurrencyPair.change v) /\
  Pg.numeric 5 2 (InsertCurrencyPair.changePercent pair) =
    Ok (InsertCurrencyPair.changePercent v) /\
  Pg.numeric_opt 5 2 (InsertCurrencyPair.margin pair) = Ok (InsertCurrencyPair.margin v).
Proof.
  unfold currency_pairs_coerce. intros H.
  apply result_bind_Ok in H as (rate & Hrate & H).
  apply result_bind_Ok in H as (change & Hchange & H).
  apply result_bind_Ok in H as (changePercent & HchangePercent & H).
  apply result_bind_Ok in H as (margin & Hmargin & H).
  injection H as <-. simpl. repeat split; assumption.
Qed.

Lemma upsertCurrencyPair_Ok (pair : InsertCurrencyPair.t) (w w' : World) (row : CurrencyPair.t) :
  upsertCurrencyPair pair w = (w', Ok row) ->
  exists v id,
    reachable w = true /\ currency_pairs_coerce pair = Ok v /\
    (forall x, InsertCurrencyPair.id pair = Some x -> id = x) /\
    Pg.insert_on_conflict_do_update currency_pairs_indexes currency_pairs_symbol
      (currency_pairs_values v id (clock w (clock_reads w)))
      (currency_pairs_set v (clock w (S (clock_reads w)))) (rows (currencyPairs w)) =
    Ok (rows (currencyPairs w'), row).
Proof.
  rewrite upsertCurrencyPair_run. cbv zeta.
  destruct (reachable w); [|discriminate].
  destruct (currency_pairs_coerce pair) as [v|e] eqn:Hv; [|discriminate].
  pose proof (currency_pairs_coerce_Ok _ _ Hv) as (Hid & _).
  destruct (InsertCurrencyPair.id v) as [i|] eqn:Hi; simpl;
    destruct (Pg.insert_on_conflict_do_update _ _ _ _ _) as [[rows' r]|e] eqn:Hup;
    try discriminate; intros H; injection H as <- <-; simpl.
  - exists v, i. repeat split; try assumption. intros x Hx. congruence.
  - exists v, (id_seq (currencyPairs w)). repeat split; try assumption. intros x Hx. congruence.
Qed.

Lemma upsertCurrencyPair_unique_keys (pair : InsertCurrencyPair.t) (w : World) :
  Pg.unique_keys currency_pairs_indexes (rows (currencyPairs w)) ->
  Pg.unique_keys currency_pairs_indexes (rows (currencyPairs (fst (upsertCurrencyPair pair w)))) /\
  (is_Ok (snd (upsertCurrencyPair pair w)) = false ->
   rows (currencyPairs (fst (upsertCurrencyPair pair w))) = rows (currencyPairs w)).
Proof.
  intros Hu. rewrite upsertCurrencyPair_run. cbv zeta.
  destruct (reachable w); [|simpl; auto].
  destruct (currency_pairs_coerce pair) as [v|e]; [|simpl; auto].
  destruct (InsertCurrencyPair.id v); simpl;
    destruct (Pg.insert_on_conflict_do_update _ _ _ _ _) as [[rows' row]|e] eqn:Hup;
    simpl; (split; [|auto; discriminate]);
    try assumption; eapply upsert_unique_keys; eassumption.
Qed.




(** ** News articles, inserted *)

Lemma upsertNewsArticle_run (article : InsertNewsArticle.t) (w : World) :
  upsertNewsArticle article w =
  let w1 := after_statement 1 (INSERT "news_articles") w in
  if reachable w then
    let '(w2, id) := drawn news_articles_table (InsertNewsArticle.id article) w1 in
    match Pg.insert news_articles_indexes {|
            NewsArticle.id := id;
            NewsArticle.title := InsertNewsArticle.title article;
            NewsArticle.summary := InsertNewsArticle.summary article;
            NewsArticle.content := inserted (InsertNewsArticle.content article);
            NewsArticle.source := InsertNewsArticle.source article;
            NewsArticle.imageUrl := inserted (InsertNewsArticle.imageUrl article);
            NewsArticle.publishedAt := InsertNewsArticle.publishedAt article;
            NewsArticle.createdAt := clock w (clock_reads w) |}
            (rows (newsArticles w)) with
    | Ok (rows', row) =>
        (set_newsArticles {| rows := rows'; id_seq := id_seq (newsArticles w2) |} w2, Ok row)
    | Err e => (w2, Err e)
    end
  else (w1, Err connection_failure).
Proof.
  unfold upsertNewsArticle. run_storage.
  destruct (online w (length (statements w))); [|reflexivity].
  destruct (InsertNewsArticle.id article); simpl;
    destruct (Pg.insert _ _ _) as [[rows' row]|e]; reflexivity.
Qed.





(** ** Favorites, listed, added and removed *)

Lemma select_where_elem {Row : Type} (test : Row -> bool) (l : list Row) (r : Row) :
  r ∈ Pg.select_where test l <-> r ∈ l /\ test r = true.
Proof.
  unfold Pg.select_where. rewrite !list_elem_of_In. apply filter_In.
Qed.


Lemma order_by_desc_Permutation {Row : Type} (key : Row -> Z) (l : list Row) :
  Pg.order_by_desc key l ≡ₚ l.
Proof. unfold Pg.order_by_desc. apply (merge_sort_Permutation (Pg.desc key)). Qed.


Lemma addUserFavorite_run (fav : InsertUserFavorite.t) (w : World) :
  addUserFavorite fav w =
  let w1 := after_statement 1 (INSERT "user_favorites") w in
  if reachable w then
    let '(w2, id) := drawn user_favorites_table (InsertUserFavorite.id fav) w1 in
    match Pg.insert user_favorites_indexes {|
            UserFavorite.id := id;
            UserFavorite.userId := InsertUserFavorite.userId fav;
            UserFavorite.itemType := InsertUserFavorite.itemType fav;
            UserFavorite.itemId := InsertUserFavorite.itemId fav;
            UserFavorite.createdAt := clock w (clock_reads w) |}
            (rows (userFavorites w)) with
    | Ok (rows', row) =>
        if user_exists w (InsertUserFavorite.userId fav)
        then (set_userFavorites {| rows := rows'; id_seq := id_seq (userFavorites w2) |} w2,
              Ok row)
        else (w2, Err (foreign_key_violation "user_favorites_user_id_users_id_fk"))
    | Err e => (w2, Err e)
    end
  else (w1, Err connection_failure).
Proof.
  unfold addUserFavorite. run_storage.
  destruct (online w (length (statements w))); [|reflexivity].
  destruct (InsertUserFavorite.id fav); simpl;
    destruct (Pg.insert _ _ _) as [[rows' row]|e]; simpl; try reflexivity;
    destruct (user_exists _ _); reflexivity.
Qed.


Lemma addUserFavorite_needs_user (w : World) (fav : InsertUserFavorite.t) :
  user_exists w (InsertUserFavorite.userId fav) = false ->
  is_Ok (snd (addUserFavorite fav w)) = false.
Proof.
  intros Hno. rewrite addUserFavorite_run. cbv zeta.
  destruct (reachable w); [|reflexivity].
  destruct (InsertUserFavorite.id fav); simpl;
    destruct (Pg.insert _ _ _) as [[rows' row]|e]; [rewrite Hno| |rewrite Hno|]; reflexivity.
Qed.











(** ** A margin, updated and looked up *)

Lemma getCurrencyPairBySymbol_run (symbol : string) (w : World) :
  getCurrencyPairBySymbol symbol w =
  (after_statement 0 (SELECT "currency_pairs") w,
   if reachable w
   then Ok (first_row (Pg.select_where (fun r => string_eq (CurrencyPair.symbol r) symbol)
                         (rows (currencyPairs w))))
   else Err connection_failure).
Proof.
  unfold getCurrencyPairBySymbol. run_storage.
  destruct (online w (length (statements w))); reflexivity.
Qed.

Lemma select_update_where {Row : Type} (test : Row -> bool) (set : Row -> Row) (l : list Row) :
  (forall r, test (set r) = test r) ->
  Pg.select_where test (Pg.update_where test set l) = set <$> Pg.select_where test l.
Proof.
  unfold Pg.select_where, Pg.update_where. intros Hset.
  induction l as [|r l IH]; [reflexivity|].
  rewrite fmap_cons. simpl. destruct (test r) eqn:Hr.
  - rewrite Hset, Hr. rewrite fmap_cons. f_equal. exact IH.
  - rewrite Hr. exact IH.
Qed.

Lemma first_row_fmap {A B : Type} (f : A -> B) (l : list A) :
  first_row (f <$> l) = f <$> first_row l.
Proof. destruct l; reflexivity. Qed.

Lemma update_where_keeps {Row A : Type} (key : Row -> A) (cond : Row -> bool)
    (set : Row -> Row) (l : list Row) :
  (forall r, key (set r) = key r) ->
  key <$> Pg.update_where cond set l = key <$> l.
Proof.
  unfold Pg.update_where. intros Hset. induction l as [|r l IH]; [reflexivity|].
  rewrite !fmap_cons. f_equal; [|exact IH]. destruct (cond r); [apply Hset|reflexivity].
Qed.

(** X8. After a fulfilled [updateCurrencyMargin(s, m)] a lookup of [s]
    returns the pair a lookup returned before, with the margin [m] rounded to
    two decimals, [updatedAt] the clock reading of the call and every other
    column as it was.  The call adds and removes no pair: ids and symbols of
    the table are the same, in the same order, and the unique indexes stay
    intact. *)
Theorem updateCurrencyMargin_then_lookup (w : World) (s : string) (m : Js.number)
    (old : CurrencyPair.t) :
  snd (getCurrencyPairBySymbol s w) = Ok (Some old) ->
  snd (updateCurrencyMargin s m w) = Ok tt ->
  let w' := fst (updateCurrencyMargin s m w) in
  reachable w' = true ->
  (exists v new,
     Pg.apply_typmod 5 2 (numeric_of_number m) = Ok v /\
     snd (getCurrencyPairBySymbol s w') = Ok (Some new) /\
     margin_updated (Pg.numeric_out 2 v) (clock w (clock_reads w)) old new) /\
  CurrencyPair.id <$> rows (currencyPairs w') = CurrencyPair.id <$> rows (currencyPairs w) /\
  CurrencyPair.symbol <$> rows (currencyPairs w') =
    CurrencyPair.symbol <$> rows (currencyPairs w) /\
  (Pg.unique_keys currency_pairs_indexes (rows (currencyPairs w)) ->
   Pg.unique_keys currency_pairs_indexes (rows (currencyPairs w'))).
Proof.
  intros Hold Hrun w'. subst w'. revert Hold Hrun.
  rewrite getCurrencyPairBySymbol_run, updateCurrencyMargin_run. cbv zeta.
  rewrite numeric_of_toString. cbn [snd].
  destruct (reachable w); [|discriminate].
  destruct (Pg.apply_typmod 5 2 (numeric_of_number m)) as [v|e]; [|discriminate].
  cbn [result_map result_bind fst snd]. intros Hold _ Hreach.
  injection Hold as Hold.
  split; [|split; [|split]].
  - exists v, (set_margin (Pg.numeric_out 2 v) (clock w (clock_reads w)) old).
    split; [reflexivity|]. split; [|apply set_margin_updated].
    rewrite getCurrencyPairBySymbol_run. cbn [snd]. rewrite Hreach. simpl rows.
    rewrite select_update_where by reflexivity. rewrite first_row_fmap, Hold. reflexivity.
  - simpl rows. apply update_where_keeps. reflexivity.
  - simpl rows. apply update_where_keeps. reflexivity.
  - simpl rows. unfold Pg.unique_keys, currency_pairs_indexes. intros Hu.
    inversion Hu as [|? ? Hi H2]; subst. inversion H2 as [|? ? Hs _]; subst.
    repeat constructor; simpl in *.
    + rewrite (update_where_keeps (fun r => Pg.DInt (CurrencyPair.id r))) by reflexivity.
      exact Hi.
    + rewrite (update_where_keeps (fun r => Pg.DText (CurrencyPair.symbol r))) by reflexivity.
      exact Hs.
Qed.

(** X8 at the seeded EUR/USD pair and the margin 0.5. *)
Lemma updateCurrencyMargin_then_lookup_witness :
  exists old,
    snd (getCurrencyPairBySymbol "EUR/USD" seeded) = Ok (Some old) /\
    CurrencyPair.id <$> rows (currencyPairs
                                (fst (updateCurrencyMargin "EUR/USD" (Js.Finite false 5 (-1)) seeded))) =
    CurrencyPair.id <$> rows (currencyPairs seeded).
Proof.
  assert (Hold : exists old, snd (getCurrencyPairBySymbol "EUR/USD" seeded) = Ok (Some old))
    by (vm_compute; eexists; reflexivity).
  destruct Hold as [old Hold]. exists old. split; [exact Hold|].
  assert (Hrun : snd (updateCurrencyMargin "EUR/USD" (Js.Finite false 5 (-1)) seeded) = Ok tt)
    by (vm_compute; reflexivity).
  assert (Hreach : reachable (fst (updateCurrencyMargin "EUR/USD" (Js.Finite false 5 (-1)) seeded))
                   = true) by (vm_compute; reflexivity).
  exact (proj1 (proj2 (updateCurrencyMargin_then_lookup seeded "EUR/USD" (Js.Finite false 5 (-1))
                         old Hold Hrun Hreach))).
Defined.

(** ** The stock upserted last comes first *)

Lemma sorted_head_max {A : Type} (key : A -> Z) (l : list A) (x : A) :
  StronglySorted (fun a b => key b <= key a) l -> x ∈ l ->
  (forall y, y ∈ l -> y = x \/ key y < key x) ->
  exists rest, l = x :: rest.
Proof.
  intros Hs Hin Hmax. destruct l as [|h l]; [inversion Hin|].
  exists l. f_equal. destruct (Hmax h (list_elem_of_here _ _)) as [->|Hlt]; [reflexivity|].
  apply elem_of_cons in Hin as [->|Hin]; [reflexivity|].
  apply StronglySorted_inv in Hs as [_ Hall]. rewrite Forall_forall in Hall.
  specialize (Hall x Hin). simpl in Hall. lia.
Qed.

(** X9. When every stored stock was updated before the clock reading an
    [upsertStock] starts with, and the clock does not step back during the
    call, the row the fulfilled call returns is the first of what
    [getStocks] returns next. *)
Theorem getStocks_latest_first (w w' : World) (stock : InsertStock.t) (row : Stock.t) :
  upsertStock stock w = (w', Ok row) ->
  reachable w' = true ->
  Forall (fun r => Stock.updatedAt r < clock w (clock_reads w)) (rows (stocks w)) ->
  clock w (clock_reads w) <= clock w (S (clock_reads w)) ->
  exists rest,
    snd (getStocks w') = Ok (row :: rest) /\
    row :: rest ≡ₚ rows (stocks w').
Proof.
  intros Hrun Hreach Hold Hclock.
  apply upsertStock_Ok in Hrun as (v & id & _ & _ & _ & Hup).
  pose proof (upsert_row_elem _ _ _ _ _ _ _ Hup) as Hin.
  assert (Hmax : forall y, y ∈ rows (stocks w') ->
                           y = row \/ Stock.updatedAt y < Stock.updatedAt row).
  { rewrite Forall_forall in Hold.
    apply upsert_Ok in Hup as [(i & old & Hi & _ & -> & -> & _)|(_ & -> & -> & _)].
    - intros y Hy. rewrite (list_insert_Permutation _ _ _ _ Hi) in Hy.
      apply elem_of_cons in Hy as [->|Hy]; [left; reflexivity|right].
      apply list_elem_of_delete_inv in Hy. specialize (Hold y Hy). simpl. lia.
    - intros y Hy. apply elem_of_app in Hy as [Hy|Hy].
      + right. specialize (Hold y Hy). simpl. lia.
      + apply list_elem_of_singleton in Hy. left. exact Hy. }
  rewrite getStocks_run. cbn [snd]. rewrite Hreach.
  destruct (sorted_head_max Stock.updatedAt
              (Pg.order_by_desc Stock.updatedAt (rows (stocks w'))) row) as [rest Hrest].
  - apply order_by_desc_sorted.
  - apply order_by_desc_elem. exact Hin.
  - intros y Hy. apply Hmax. apply order_by_desc_elem in Hy. exact Hy.
  - exists rest. rewrite Hrest. split; [reflexivity|].
    rewrite <- Hrest. apply order_by_desc_Permutation.
Qed.

(** X9 at the seeded stocks and AAPL upserted again. *)
Lemma getStocks_latest_first_witness :
  exists row rest,
    snd (upsertStock aapl_at_180 seeded) = Ok row /\
    snd (getStocks (fst (upsertStock aapl_at_180 seeded))) = Ok (row :: rest).
Proof.
  assert (Hok : exists row, snd (upsertStock aapl_at_180 seeded) = Ok row)
    by (vm_compute; eexists; reflexivity).
  destruct Hok as [row Hrow].
  assert (Hrun : upsertStock aapl_at_180 seeded = (fst (upsertStock aapl_at_180 seeded), Ok row)).
  { rewrite <- Hrow. apply surjective_pairing. }
  assert (Hreach : reachable (fst (upsertStock aapl_at_180 seeded)) = true)
    by (vm_compute; reflexivity).
  assert (Hold : Forall (fun r => Stock.updatedAt r < clock seeded (clock_reads seeded))
                   (rows (stocks seeded))).
  { apply (bool_decide_unpack _). vm_compute. exact I. }
  assert (Hclock : clock seeded (clock_reads seeded) <= clock seeded (S (clock_reads seeded))).
  { vm_compute. discriminate. }
  destruct (getStocks_latest_first seeded _ aapl_at_180 row Hrun Hreach Hold Hclock)
    as (rest & Hrest & _).
  exists row, rest. split; [exact Hrow|exact Hrest].
Defined.

(** ** The handlers that only read *)

Lemma getCurrencyPairs_run (w : World) :
  getCurrencyPairs w =
  (after_statement 0 (SELECT "currency_pairs") w,
   if reachable w then Ok (Pg.order_by_desc CurrencyPair.updatedAt (rows (currencyPairs w)))
   else Err connection_failure).
Proof.
  unfold getCurrencyPairs. run_storage. destruct (online w (length (statements w))); reflexivity.
Qed.

Lemma getMarketIndices_run (w : World) :
  getMarketIndices w =
  (after_statement 0 (SELECT "market_indices") w,
   if reachable w then Ok (Pg.order_by_desc MarketIndex.updatedAt (rows (marketIndices w)))
   else Err connection_failure).
Proof.
  unfold getMarketIndices. run_storage. destruct (online w (length (statements w))); reflexivity.
Qed.

(** X10. The handlers of [GET /api/stocks], [/api/currencies],
    [/api/market/indices], [/api/favorites] and [/api/auth/user] send one
    [SELECT] and change no table.  With the database reachable they answer
    200: the three lists hold every row of their table once, last updated
    first; the favorites are those the store returns for the caller; the
    user is the caller's row, or [undefined] when there is none, never a
    404.  With the database unreachable they answer 500 and write one line
    to the console. *)
Theorem read_handlers_change_nothing (w : World) (sub : string) :
  let reads {A : Type} (run : World -> World * Reply A) (table : string) (good : A -> Prop) :=
    let '(w', res) := run w in
    database w' = database w /\
    statements w' = statements w ++ [SELECT table] /\
    if reachable w
    then code res = 200%nat /\ console w' = console w /\
         exists data, content res = Data data /\ good data
    else code res = 500%nat /\ length (console w') = S (length (console w)) /\
         exists message, content res = Message message in
  reads get_stocks "stocks"
    (fun l => l ≡ₚ rows (stocks w) /\
              StronglySorted (fun a b => Stock.updatedAt b <= Stock.updatedAt a) l) /\
  reads get_currencies "currency_pairs"
    (fun l => l ≡ₚ rows (currencyPairs w) /\
              StronglySorted (fun a b => CurrencyPair.updatedAt b <= CurrencyPair.updatedAt a) l) /\
  reads get_market_indices "market_indices"
    (fun l => l ≡ₚ rows (marketIndices w) /\
              StronglySorted (fun a b => MarketIndex.updatedAt b <= MarketIndex.updatedAt a) l) /\
  reads (get_favorites sub) "user_favorites"
    (fun l => snd (getUserFavorites sub w) = Ok l) /\
  reads (get_auth_user sub) "users"
    (fun user => match user with
                 | Some u => u ∈ users w /\ User.id u = sub
                 | None => Forall (fun u => User.id u <> sub) (users w)
                 end).
Proof.
  cbv zeta. unfold get_stocks, get_currencies, get_market_indices, get_favorites, get_auth_user,
    try_catch. cbv [mbind mret Storage_bind Storage_ret].
  rewrite getStocks_run, getCurrencyPairs_run, getMarketIndices_run, getUserFavorites_run,
    getUser_run.
  destruct (reachable w) eqn:Hreach; cbn [fst snd code content json status_json].
  - repeat split; try reflexivity;
      try (eexists; split; [reflexivity|]).
    + split; [apply order_by_desc_Permutation|apply order_by_desc_sorted].
    + split; [apply order_by_desc_Permutation|apply order_by_desc_sorted].
    + split; [apply order_by_desc_Permutation|apply order_by_desc_sorted].
    + reflexivity.
    + destruct (first_row _) as [u|] eqn:Hu.
      * unfold first_row in Hu. apply head_Some_elem_of in Hu.
        apply select_where_elem in Hu as [Hin Hid]. apply String.eqb_eq in Hid. auto.
      * unfold first_row in Hu. apply head_None in Hu. apply Forall_forall. intros u Hin Hid.
        assert (Hsel : u ∈ Pg.select_where (fun u => string_eq (User.id u) sub) (users w)).
        { apply select_where_elem. split; [exact Hin|]. apply String.eqb_eq. exact Hid. }
        rewrite Hu in Hsel. inversion Hsel.
  - repeat split; try reflexivity;
      try (simpl; rewrite length_app; simpl; lia); eexists; reflexivity.
Qed.

(** ** [GET /api/stocks/:id] *)

Lemma toString_negative (c : N) (e : Z) :
  c <> 0%N ->
  Js.toString (Js.Finite true c e) = "-" +:+ Js.toString (Js.Finite false c e).
Proof.
  intros Hc. unfold Js.toString. destruct (N.eqb_spec c 0%N) as [|_]; [contradiction|].
  reflexivity.
Qed.

Lemma int4_in_digits (neg : bool) (ds : list N) :
  ds <> [] -> Forall (fun d => (d < 10)%N) ds ->
  int4_in (Js.sign_prefix neg +:+ Digits.show ds) =
  let x := Z.of_N (Digits.of_digits ds) in
  let z := if neg then - x else x in
  if (- 2 ^ 31 <=? z) && (z <? 2 ^ 31) then Ok z else Err numeric_value_out_of_range.
Proof.
  intros Hne Hlt. unfold int4_in. rewrite list_ascii_of_string_app, list_ascii_of_show.
  destruct ds as [|d ds]; [contradiction|].
  rewrite fmap_cons, parse_sign_prefix by (inversion Hlt; assumption).
  rewrite <- fmap_cons, <- (app_nil_r (Digits.digit_char <$> d :: ds)).
  rewrite span_digits by (exact Hlt || exact I). reflexivity.
Qed.

Lemma int4_in_not_digits (neg : bool) (ds : list N) (ch : ascii) (rest : string) :
  ds <> [] -> Forall (fun d => (d < 10)%N) ds -> Digits.char_digit ch = None ->
  is_Ok (int4_in (Js.sign_prefix neg +:+ Digits.show ds +:+ String ch rest)) = false.
Proof.
  intros Hne Hlt Hch. unfold int4_in.
  rewrite !list_ascii_of_string_app, list_ascii_of_show.
  destruct ds as [|d ds]; [contradiction|].
  rewrite fmap_cons, <- app_comm_cons, parse_sign_prefix by (inversion Hlt; assumption).
  rewrite app_comm_cons, <- fmap_cons. simpl list_ascii_of_string.
  rewrite span_digits by (exact Hlt || exact Hch). reflexivity.
Qed.

Lemma digits_nonempty (c : N) : c <> 0%N -> Digits.digits c <> [].
Proof.
  intros Hc H. unfold Digits.digits in H. apply (f_equal (@rev N)) in H.
  rewrite rev_involutive in H. revert H. apply le_digits_nonempty. exact Hc.
Qed.

(** An integer passed as the [id] parameter arrives as itself if it is
    within the range of [integer], and is refused otherwise. *)
Lemma int4_in_toString_of_Z (z : Z) :
  if (- 2 ^ 31 <=? z) && (z <? 2 ^ 31)
  then int4_in (Js.toString (Js.of_Z z)) = Ok z
  else is_Ok (int4_in (Js.toString (Js.of_Z z))) = false.
Proof.
  unfold Js.of_Z. destruct (N.eq_dec (Z.abs_N z) 0%N) as [Hz|Hnz].
  - assert (z = 0) as -> by lia. reflexivity.
  - assert (Hsign : Js.toString (Js.Finite (z <? 0) (Z.abs_N z) 0) =
                    Js.sign_prefix (z <? 0) +:+ Js.toString (Js.Finite false (Z.abs_N z) 0)).
    { destruct (z <? 0); [apply toString_negative; exact Hnz|reflexivity]. }
    rewrite Hsign.
    destruct (N.lt_ge_cases (Z.abs_N z) (10 ^ 21)) as [Hlt|Hge].
    + rewrite toString_integer by assumption.
      rewrite int4_in_digits by (apply digits_lt || apply digits_nonempty; exact Hnz).
      cbv zeta. rewrite digits_value.
      assert ((if z <? 0 then - Z.of_N (Z.abs_N z) else Z.of_N (Z.abs_N z)) = z) as ->.
      { destruct (Z.ltb_spec z 0); lia. }
      destruct ((- 2 ^ 31 <=? z) && (z <? 2 ^ 31)); reflexivity.
    + destruct (toString_exponent (Z.abs_N z) Hge) as (ds & ch & rest & Hne & Hlt & Hch & ->).
      assert ((- 2 ^ 31 <=? z) && (z <? 2 ^ 31) = false) as ->.
      { apply andb_false_iff. destruct (Z.leb_spec (- 2 ^ 31) z); [right|left; reflexivity].
        apply Z.ltb_ge. assert (Z.of_N (10 ^ 21) <= Z.of_N (Z.abs_N z)) by lia.
        change (Z.of_N (10 ^ 21)) with (10 ^ 21) in *. lia. }
      apply int4_in_not_digits; assumption.
Qed.

Lemma getStock_number_run (id : Js.number) (w : World) :
  getStock_number id w =
  (after_statement 0 (SELECT "stocks") w,
   if reachable w then
     result_map
       (fun z => first_row (Pg.select_where (fun r => Stock.id r =? z) (rows (stocks w))))
       (int4_in (Js.toString id))
   else Err connection_failure).
Proof.
  unfold getStock_number. run_storage. destruct (online w (length (statements w))); [|reflexivity].
  destruct (int4_in (Js.toString id)); reflexivity.
Qed.

Lemma first_row_find {Row : Type} (test : Row -> bool) (l : list Row) :
  first_row (Pg.select_where test l) = List.find test l.
Proof.
  unfold first_row, Pg.select_where. induction l as [|r l IH]; [reflexivity|].
  simpl. destruct (test r); [reflexivity|exact IH].
Qed.

(** X11. [GET /api/stocks/:id] changes no table.  For an [id] that
    [parseInt] reads as an integer within the range of the key column, and
    the database reachable, the answer is the first stock with that id, or
    404 "Stock not found" when there is none; the stock is then the one
    [getStock] returns.  For an [id] that is no number, or an integer out of
    that range, the database refuses the parameter and the answer is 500,
    not 404; so it is when the database is unreachable. *)
Theorem get_stock_responses (w : World) (id : Js.number) :
  let '(w', res) := get_stock id w in
  database w' = database w /\
  (reachable w = false -> res = status_json 500 "Failed to fetch stock") /\
  (id = Js.NaN -> res = status_json 500 "Failed to fetch stock") /\
  (forall z, id = Js.of_Z z -> reachable w = true ->
     if (- 2 ^ 31 <=? z) && (z <? 2 ^ 31) then
       snd (getStock z w) = Ok (List.find (fun r => Stock.id r =? z) (rows (stocks w))) /\
       match List.find (fun r => Stock.id r =? z) (rows (stocks w)) with
       | Some stock => res = json stock
       | None => res = status_json 404 "Stock not found"
       end
     else res = status_json 500 "Failed to fetch stock").
Proof.
  unfold get_stock, try_catch. cbv [mbind mret Storage_bind Storage_ret].
  rewrite getStock_number_run.
  destruct (reachable w) eqn:Hreach.
  - destruct (int4_in (Js.toString id)) as [z0|e] eqn:Hin; cbn [result_map result_bind].
    + rewrite first_row_find.
      assert (Hz : forall z, id = Js.of_Z z ->
                     if (- 2 ^ 31 <=? z) && (z <? 2 ^ 31) then z0 = z else False).
      { intros z ->. pose proof (int4_in_toString_of_Z z) as H.
        destruct ((- 2 ^ 31 <=? z) && (z <? 2 ^ 31)); rewrite Hin in H;
          [injection H as ->; reflexivity|discriminate H]. }
      destruct (List.find (fun r => Stock.id r =? z0) (rows (stocks w))) as [stock|] eqn:Hf;
        (split; [reflexivity|]; split; [discriminate|]; split;
         [intros ->; discriminate Hin|]);
        intros z Hid _; specialize (Hz z Hid);
        destruct ((- 2 ^ 31 <=? z) && (z <? 2 ^ 31)); try contradiction; subst z0;
        rewrite getStock_run, first_row_find; cbn [snd]; rewrite Hreach, Hf; split; reflexivity.
    + split; [reflexivity|]. split; [discriminate|]. split; [reflexivity|].
      intros z -> _. pose proof (int4_in_toString_of_Z z) as H.
      destruct ((- 2 ^ 31 <=? z) && (z <? 2 ^ 31)); [|reflexivity].
      rewrite Hin in H. discriminate H.
  - cbn [fst snd]. split; [reflexivity|]. split; [reflexivity|]. split; [reflexivity|].
    intros z _ Hf. discriminate Hf.
Qed.

(** ** The handlers of the favorites and of the user list *)

(** X12. [POST /api/favorites] answers 400 when [itemType] or [itemId] is
    missing or empty, and then sends nothing to the store and leaves the
    world as it was.  With both present and not empty it calls
    [addUserFavorite] once, for the caller and no other user: fulfilled, the
    answer is the new favorite, whose user is the caller; rejected, the
    answer is 500 and no favorite is added, which is what a caller without a
    row in [users] gets. *)
Theorem post_favorite_responses (w : World) (sub : string) :
  (forall itemType itemId,
     Js.truthy_string itemType && Js.truthy_string itemId = false ->
     post_favorite sub itemType itemId w =
     (w, status_json 400 "itemType and itemId are required")) /\
  (forall type item, type <> EmptyString -> item <> EmptyString ->
     let '(w', res) := post_favorite sub (Some type) (Some item) w in
     match addUserFavorite (favorite None sub type item) w with
     | (w1, Ok row) =>
         w' = w1 /\ res = json row /\ UserFavorite.userId row = sub /\
         UserFavorite.itemType row = type /\ UserFavorite.itemId row = item
     | (w1, Err _) =>
         res = status_json 500 "Failed to add favorite" /\
         rows (userFavorites w') = rows (userFavorites w)
     end /\
     (user_exists w sub = false -> code res = 500%nat)).
Proof.
  split.
  - intros itemType itemId Hfalsy.
    unfold post_favorite, try_catch. cbv [mbind mret Storage_bind Storage_ret].
    destruct itemType as [type|]; [|reflexivity].
    destruct itemId as [item|]; [|reflexivity].
    apply andb_false_iff in Hfalsy as [-> | ->]; [|rewrite orb_true_r]; reflexivity.
  - intros type item Ht Hi.
    unfold post_favorite, try_catch. cbv [mbind mret Storage_bind Storage_ret].
    assert (Js.truthy_string (Some type) = true) as ->
      by (apply negb_true_iff, String.eqb_neq; exact Ht).
    assert (Js.truthy_string (Some item) = true) as ->
      by (apply negb_true_iff, String.eqb_neq; exact Hi).
    cbn [negb orb].
    change {| InsertUserFavorite.id := None; InsertUserFavorite.userId := sub;
              InsertUserFavorite.itemType := type; InsertUserFavorite.itemId := item |}
      with (favorite None sub type item).
    pose proof (addUserFavorite_rows (favorite None sub type item) w) as Hrows.
    pose proof (addUserFavorite_needs_user w (favorite None sub type item)) as Hfk.
    destruct (addUserFavorite (favorite None sub type item) w) as [w1 [row|e]]; cbv beta iota.
    + destruct Hrows as (_ & Hu & Htype & Hitem & _). simpl in Hu, Htype, Hitem.
      split; [repeat split; assumption|].
      intros Hno. specialize (Hfk Hno). discriminate Hfk.
    + split; [|reflexivity]. split; [reflexivity|]. exact Hrows.
Qed.


(** X14. [GET /api/admin/users] changes no table.  It answers 200 only to
    a caller whose row in [users] has the role ["admin"], and then with the
    same three demonstration users whatever the table holds; a caller with
    another role, or without a row, gets 403, and an unreachable database
    gives 500. *)
Theorem get_admin_users_responses (w : World) (sub : string) :
  let '(w', res) := get_admin_users sub w in
  database w' = database w /\
  (reachable w = false -> res = status_json 500 "Failed to fetch users") /\
  (reachable w = true ->
   (res = json mockUsers /\
    exists u, u ∈ users w /\ User.id u = sub /\ User.role u = "admin") \/
   (res = status_json 403 "Admin access required" /\
    forall u, List.find (fun u => string_eq (User.id u) sub) (users w) = Some u ->
              User.role u <> "admin")).
Proof.
  unfold get_admin_users, try_catch. cbv [mbind mret Storage_bind Storage_ret].
  rewrite getUser_run. destruct (reachable w); cbn [fst snd].
  - rewrite first_row_find.
    destruct (List.find (fun u => string_eq (User.id u) sub) (users w)) as [u|] eqn:Hf;
      cbn [not_admin].
    + destruct (string_eq (User.role u) "admin") eqn:Hrole; cbn [negb].
      * split; [reflexivity|]. split; [discriminate|]. intros _. left. split; [reflexivity|].
        apply find_some in Hf as [Hin Hid]. exists u.
        split; [apply list_elem_of_In; exact Hin|].
        split; apply String.eqb_eq; assumption.
      * split; [reflexivity|]. split; [discriminate|]. intros _. right. split; [reflexivity|].
        intros u' Hu'. injection Hu' as <-. apply String.eqb_neq. exact Hrole.
    + split; [reflexivity|]. split; [discriminate|]. intros _. right. split; [reflexivity|].
      intros u' Hu'. discriminate Hu'.
  - split; [reflexivity|]. split; [reflexivity|]. intros H. discriminate H.
Qed.

(** ** [initializeSampleData] *)

Lemma for_of_cons_Ok {A B : Type} (f : A -> Storage B) (x : A) (xs : list A) (w w' : World) :
  for_of (x :: xs) f w = (w', Ok tt) ->
  exists w1 b, f x w = (w1, Ok b) /\ for_of xs f w1 = (w', Ok tt).
Proof.
  simpl. cbv [mbind Storage_bind]. destruct (f x w) as [w1 [b|e]]; [eauto|discriminate].
Qed.

Lemma for_of_nil_Ok {A B : Type} (f : A -> Storage B) (w w' : World) :
  for_of [] f w = (w', Ok tt) -> w' = w.
Proof. simpl. cbv [mret Storage_ret]. congruence. Qed.

(** What every step of a loop leaves alone, the loop leaves alone. *)
Lemma for_of_frame {A B C : Type} (P : World -> C) (f : A -> Storage B) (xs : list A) (w : World) :
  (forall x w, P (fst (f x w)) = P w) -> P (fst (for_of xs f w)) = P w.
Proof.
  intros Hf. revert w. induction xs as [|x xs IH]; intros w; [reflexivity|].
  simpl. cbv [mbind Storage_bind]. pose proof (Hf x w) as Hx.
  destruct (f x w) as [w1 [b|e]]; simpl in Hx |- *; [|exact Hx].
  rewrite IH. exact Hx.
Qed.

Section Loop.
Context {Ins Row : Type}.
Variable f : Ins -> Storage Row.
Variable table : World -> list Row.
Variable key : Ins -> string.
Variable row_key : Row -> string.
Variable written : Ins -> Row -> Prop.

Hypothesis f_keys : forall x w w' r,
  f x w = (w', Ok r) ->
  row_key <$> table w' =
  if bool_decide (key x ∈ row_key <$> table w) then row_key <$> table w
  else (row_key <$> table w) ++ [key x].

Hypothesis f_written : forall x w w' r,
  f x w = (w', Ok r) -> r ∈ table w' /\ row_key r = key x /\ written x r.

Hypothesis f_others : forall x w r,
  r ∈ table w -> row_key r <> key x -> r ∈ table (fst (f x w)).

(** A loop over records whose keys are all in the table adds no row. *)
Lemma for_of_present (xs : list Ins) (w w' : World) :
  for_of xs f w = (w', Ok tt) ->
  (forall x, x ∈ xs -> key x ∈ row_key <$> table w) ->
  row_key <$> table w' = row_key <$> table w.
Proof.
  revert w. induction xs as [|x xs IH]; intros w Hrun Hin.
  - apply for_of_nil_Ok in Hrun. subst w'. reflexivity.
  - apply for_of_cons_Ok in Hrun as (w1 & b & Hx & Hrest).
    pose proof (f_keys _ _ _ _ Hx) as Hk.
    rewrite bool_decide_eq_true_2 in Hk by (apply Hin, list_elem_of_here).
    rewrite <- Hk. apply IH; [exact Hrest|].
    intros y Hy. rewrite Hk. apply Hin, list_elem_of_further, Hy.
Qed.

(** After a loop the key of every record is in the table, and no key has
    left it. *)
Lemma for_of_keys (xs : list Ins) (w w' : World) :
  for_of xs f w = (w', Ok tt) ->
  (forall x, x ∈ xs -> key x ∈ row_key <$> table w') /\
  (forall k, k ∈ row_key <$> table w -> k ∈ row_key <$> table w').
Proof.
  revert w. induction xs as [|x xs IH]; intros w Hrun.
  - apply for_of_nil_Ok in Hrun. subst w'. split; [intros x Hx; inversion Hx|auto].
  - apply for_of_cons_Ok in Hrun as (w1 & b & Hx & Hrest).
    pose proof (f_keys _ _ _ _ Hx) as Hk. destruct (IH _ Hrest) as [Hall Hkeep].
    assert (Hsub : forall k, k ∈ row_key <$> table w -> k ∈ row_key <$> table w1).
    { intros k Hin. rewrite Hk. destruct (bool_decide _); [exact Hin|].
      apply elem_of_app. left. exact Hin. }
    assert (Hnow : key x ∈ row_key <$> table w1).
    { rewrite Hk. destruct (bool_decide_reflect (key x ∈ row_key <$> table w)) as [Hy|_];
        [exact Hy|]. apply elem_of_app. right. apply list_elem_of_here. }
    split; [|auto].
    intros y Hy. apply elem_of_cons in Hy as [->|Hy]; [apply Hkeep, Hnow|apply Hall, Hy].
Qed.

(** After a loop over records of distinct keys each record is in the
    table as it was written. *)
Lemma for_of_written (xs : list Ins) (w w' : World) :
  NoDup (key <$> xs) ->
  for_of xs f w = (w', Ok tt) ->
  forall x, x ∈ xs -> exists r, r ∈ table w' /\ row_key r = key x /\ written x r.
Proof.
  revert w. induction xs as [|x xs IH]; intros w Hnd Hrun y Hy; [inversion Hy|].
  rewrite fmap_cons in Hnd. apply NoDup_cons in Hnd as [Hfresh Hnd].
  apply for_of_cons_Ok in Hrun as (w1 & b & Hx & Hrest).
  apply elem_of_cons in Hy as [->|Hy]; [|exact (IH _ Hnd Hrest y Hy)].
  destruct (f_written _ _ _ _ Hx) as (Hin & Hkey & Hw).
  exists b. split; [|auto].
  clear IH Hx. revert w1 Hin Hrest. induction xs as [|z xs IH]; intros w1 Hin Hrest.
  - apply for_of_nil_Ok in Hrest. subst w'. exact Hin.
  - apply for_of_cons_Ok in Hrest as (w2 & c & Hz & Hrest).
    rewrite fmap_cons in Hfresh, Hnd. apply NoDup_cons in Hnd as [_ Hnd].
    apply (IH (fun H => Hfresh (list_elem_of_further _ _ _ H)) Hnd w2); [|exact Hrest].
    pose proof (f_others z w1 b Hin) as Ho. rewrite Hz in Ho. apply Ho.
    rewrite Hkey. intros Heq. apply Hfresh. rewrite Heq. apply list_elem_of_here.
Qed.

End Loop.

Section UpsertKeys.
Context {Row K : Type} `{EqDecision K}.
Variable uniques : list (Pg.UniqueIndex Row).
Variable target : Row -> Pg.Datum.
Variable k : Row -> K.
Hypothesis target_k : forall a b, target a = target b <-> k a = k b.

(** The keys of the arbiter column after an upsert: as they were, or with
    the new one at the end. *)
Lemma upsert_keys (proposed : Row) (set : Row -> Row) (rows rows' : list Row) (row : Row) :
  (forall old, k (set old) = k proposed) ->
  Pg.insert_on_conflict_do_update uniques target proposed set rows = Ok (rows', row) ->
  k <$> rows' =
  if bool_decide (k proposed ∈ k <$> rows) then k <$> rows else (k <$> rows) ++ [k proposed].
Proof.
  intros Hset Hup.
  apply upsert_Ok in Hup as [(i & old & Hi & Heq & -> & _ & _)|(Hnew & -> & _ & _)].
  - apply target_k in Heq. rewrite bool_decide_eq_true_2.
    + rewrite list_fmap_insert, Hset, <- Heq. apply list_insert_id.
      rewrite list_lookup_fmap, Hi. reflexivity.
    + rewrite <- Heq. apply list_elem_of_fmap_2. eapply list_elem_of_lookup_2. exact Hi.
  - rewrite bool_decide_eq_false_2.
    + rewrite fmap_app. reflexivity.
    + intros (x & Hx & Hin)%list_elem_of_fmap. apply Hnew.
      apply list_elem_of_fmap. exists x. split; [|exact Hin]. apply target_k. exact Hx.
Qed.

(** An upsert leaves the rows of other keys in the table. *)
Lemma upsert_others (proposed : Row) (set : Row -> Row) (rows : list Row) (r : Row) :
  r ∈ rows -> k r <> k proposed ->
  match Pg.insert_on_conflict_do_update uniques target proposed set rows with
  | Ok (rows', _) => r ∈ rows'
  | Err _ => True
  end.
Proof.
  intros Hin Hne.
  destruct (Pg.insert_on_conflict_do_update uniques target proposed set rows)
    as [[rows' row]|e] eqn:Hup; [|exact I].
  apply upsert_Ok in Hup as [(i & old & Hi & Heq & -> & _ & _)|(_ & -> & _ & _)].
  - apply list_elem_of_lookup in Hin as [j Hj].
    assert (i <> j) by (intros ->; rewrite Hi in Hj; injection Hj as ->; apply Hne, target_k, Heq).
    apply (list_elem_of_lookup_2 _ j). rewrite list_lookup_insert_ne by assumption. exact Hj.
  - apply elem_of_app. left. exact Hin.
Qed.

End UpsertKeys.

Lemma stocks_symbol_k (a b : Stock.t) : stocks_symbol a = stocks_symbol b <-> Stock.symbol a = Stock.symbol b.
Proof. unfold stocks_symbol. split; congruence. Qed.

Lemma currency_pairs_symbol_k (a b : CurrencyPair.t) :
  currency_pairs_symbol a = currency_pairs_symbol b <-> CurrencyPair.symbol a = CurrencyPair.symbol b.
Proof. unfold currency_pairs_symbol. split; congruence. Qed.

Lemma market_indices_symbol_k (a b : MarketIndex.t) :
  market_indices_symbol a = market_indices_symbol b <-> MarketIndex.symbol a = MarketIndex.symbol b.
Proof. unfold market_indices_symbol. split; congruence. Qed.

(** *** The three upserts, as the loops see them *)

Lemma upsertStock_keys (x : InsertStock.t) (w w' : World) (r : Stock.t) :
  upsertStock x w = (w', Ok r) ->
  Stock.symbol <$> rows (stocks w') =
  if bool_decide (InsertStock.symbol x ∈ Stock.symbol <$> rows (stocks w))
  then Stock.symbol <$> rows (stocks w)
  else (Stock.symbol <$> rows (stocks w)) ++ [InsertStock.symbol x].
Proof.
  intros (v & id & _ & Hv & _ & Hup)%upsertStock_Ok.
  pose proof (stocks_coerce_Ok _ _ Hv) as (_ & Hsym & _).
  apply (upsert_keys _ _ Stock.symbol stocks_symbol_k) in Hup; [|reflexivity].
  simpl in Hup. rewrite Hsym in Hup. exact Hup.
Qed.

Lemma upsertStock_others (x : InsertStock.t) (w : World) (r : Stock.t) :
  r ∈ rows (stocks w) -> Stock.symbol r <> InsertStock.symbol x ->
  r ∈ rows (stocks (fst (upsertStock x w))).
Proof.
  intros Hin Hne. rewrite upsertStock_run. cbv zeta.
  destruct (reachable w); [|exact Hin].
  destruct (stocks_coerce x) as [v|e] eqn:Hv; [|exact Hin].
  pose proof (stocks_coerce_Ok _ _ Hv) as (_ & Hsym & _).
  destruct (InsertStock.id v) as [i|]; cbn [drawn];
    match goal with
    | |- context [Pg.insert_on_conflict_do_update ?u ?t ?p ?s ?l] =>
        pose proof (upsert_others u t Stock.symbol stocks_symbol_k p s l r Hin) as Ho;
        destruct (Pg.insert_on_conflict_do_update u t p s l) as [[rows' row]|e]
    end; simpl in *; try exact Hin; apply Ho; congruence.
Qed.

Lemma upsertCurrencyPair_keys (x : InsertCurrencyPair.t) (w w' : World) (r : CurrencyPair.t) :
  upsertCurrencyPair x w = (w', Ok r) ->
  CurrencyPair.symbol <$> rows (currencyPairs w') =
  if bool_decide (InsertCurrencyPair.symbol x ∈ CurrencyPair.symbol <$> rows (currencyPairs w))
  then CurrencyPair.symbol <$> rows (currencyPairs w)
  else (CurrencyPair.symbol <$> rows (currencyPairs w)) ++ [InsertCurrencyPair.symbol x].
Proof.
  intros (v & id & _ & Hv & _ & Hup)%upsertCurrencyPair_Ok.
  pose proof (currency_pairs_coerce_Ok _ _ Hv) as (_ & Hsym & _).
  apply (upsert_keys _ _ CurrencyPair.symbol currency_pairs_symbol_k) in Hup; [|reflexivity].
  simpl in Hup. rewrite Hsym in Hup. exact Hup.
Qed.

Lemma upsertCurrencyPair_others (x : InsertCurrencyPair.t) (w : World) (r : CurrencyPair.t) :
  r ∈ rows (currencyPairs w) -> CurrencyPair.symbol r <> InsertCurrencyPair.symbol x ->
  r ∈ rows (currencyPairs (fst (upsertCurrencyPair x w))).
Proof.
  intros Hin Hne. rewrite upsertCurrencyPair_run. cbv zeta.
  destruct (reachable w); [|exact Hin].
  destruct (currency_pairs_coerce x) as [v|e] eqn:Hv; [|exact Hin].
  pose proof (currency_pairs_coerce_Ok _ _ Hv) as (_ & Hsym & _).
  destruct (InsertCurrencyPair.id v) as [i|]; cbn [drawn];
    match goal with
    | |- context [Pg.insert_on_conflict_do_update ?u ?t ?p ?s ?l] =>
        pose proof (upsert_others u t CurrencyPair.symbol currency_pairs_symbol_k p s l r Hin)
          as Ho;
        destruct (Pg.insert_on_conflict_do_update u t p s l) as [[rows' row]|e]
    end; simpl in *; try exact Hin; apply Ho; congruence.
Qed.

Lemma upsertMarketIndex_keys (x : InsertMarketIndex.t) (w w' : World) (r : MarketIndex.t) :
  upsertMarketIndex x w = (w', Ok r) ->
  MarketIndex.symbol <$> rows (marketIndices w') =
  if bool_decide (InsertMarketIndex.symbol x ∈ MarketIndex.symbol <$> rows (marketIndices w))
  then MarketIndex.symbol <$> rows (marketIndices w)
  else (MarketIndex.symbol <$> rows (marketIndices w)) ++ [InsertMarketIndex.symbol x].
Proof.
  intros (v & id & _ & Hv & _ & _ & Hup)%upsertMarketIndex_Ok.
  pose proof (market_indices_coerce_Ok _ _ Hv) as (_ & _ & Hsym & _).
  apply (upsert_keys _ _ MarketIndex.symbol market_indices_symbol_k) in Hup; [|reflexivity].
  simpl in Hup. rewrite Hsym in Hup. exact Hup.
Qed.

Lemma upsertMarketIndex_others (x : InsertMarketIndex.t) (w : World) (r : MarketIndex.t) :
  r ∈ rows (marketIndices w) -> MarketIndex.symbol r <> InsertMarketIndex.symbol x ->
  r ∈ rows (marketIndices (fst (upsertMarketIndex x w))).
Proof.
  intros Hin Hne. rewrite upsertMarketIndex_run. cbv zeta.
  destruct (reachable w); [|exact Hin].
  destruct (market_indices_coerce x) as [v|e] eqn:Hv; [|exact Hin].
  pose proof (market_indices_coerce_Ok _ _ Hv) as (_ & _ & Hsym & _).
  destruct (InsertMarketIndex.id v) as [i|]; cbn [drawn];
    match goal with
    | |- context [Pg.insert_on_conflict_do_update ?u ?t ?p ?s ?l] =>
        pose proof (upsert_others u t MarketIndex.symbol market_indices_symbol_k p s l r Hin)
          as Ho;
        destruct (Pg.insert_on_conflict_do_update u t p s l) as [[rows' row]|e]
    end; simpl in *; try exact Hin; apply Ho; congruence.
Qed.

(** *** What each write leaves alone *)

Lemma upsertStock_beside (x : InsertStock.t) (w : World) :
  beside stocks_table (fst (upsertStock x w)) = beside stocks_table w.
Proof.
  rewrite upsertStock_run. cbv zeta. destruct (reachable w); [|reflexivity].
  destruct (stocks_coerce x) as [v|e]; [|reflexivity].
  destruct (InsertStock.id v); cbn [drawn];
    destruct (Pg.insert_on_conflict_do_update _ _ _ _ _) as [[rows' row]|e]; reflexivity.
Qed.

Lemma upsertCurrencyPair_beside (x : InsertCurrencyPair.t) (w : World) :
  beside currency_pairs_table (fst (upsertCurrencyPair x w)) = beside currency_pairs_table w.
Proof.
  rewrite upsertCurrencyPair_run. cbv zeta. destruct (reachable w); [|reflexivity].
  destruct (currency_pairs_coerce x) as [v|e]; [|reflexivity].
  destruct (InsertCurrencyPair.id v); cbn [drawn];
    destruct (Pg.insert_on_conflict_do_update _ _ _ _ _) as [[rows' row]|e]; reflexivity.
Qed.

Lemma upsertMarketIndex_beside (x : InsertMarketIndex.t) (w : World) :
  beside market_indices_table (fst (upsertMarketIndex x w)) = beside market_indices_table w.
Proof.
  rewrite upsertMarketIndex_run. cbv zeta. destruct (reachable w); [|reflexivity].
  destruct (market_indices_coerce x) as [v|e]; [|reflexivity].
  destruct (InsertMarketIndex.id v); cbn [drawn];
    destruct (Pg.insert_on_conflict_do_update _ _ _ _ _) as [[rows' row]|e]; reflexivity.
Qed.

Lemma upsertNewsArticle_beside (x : InsertNewsArticle.t) (w : World) :
  beside news_articles_table (fst (upsertNewsArticle x w)) = beside news_articles_table w.
Proof.
  rewrite upsertNewsArticle_run. cbv zeta. destruct (reachable w); [|reflexivity].
  destruct (InsertNewsArticle.id x); cbn [drawn];
    destruct (Pg.insert _ _ _) as [[rows' row]|e]; reflexivity.
Qed.

Lemma beside_stocks (w w' : World) :
  beside stocks_table w' = beside stocks_table w ->
  users w' = users w /\ currencyPairs w' = currencyPairs w /\ newsArticles w' = newsArticles w /\
  userFavorites w' = userFavorites w /\ marketIndices w' = marketIndices w /\
  console w' = console w.
Proof. unfold beside, database. simpl. intros H. injection H. auto 10. Qed.

Lemma beside_currency_pairs (w w' : World) :
  beside currency_pairs_table w' = beside currency_pairs_table w ->
  users w' = users w /\ stocks w' = stocks w /\ newsArticles w' = newsArticles w /\
  userFavorites w' = userFavorites w /\ marketIndices w' = marketIndices w /\
  console w' = console w.
Proof. unfold beside, database. simpl. intros H. injection H. auto 10. Qed.

Lemma beside_market_indices (w w' : World) :
  beside market_indices_table w' = beside market_indices_table w ->
  users w' = users w /\ stocks w' = stocks w /\ currencyPairs w' = currencyPairs w /\
  newsArticles w' = newsArticles w /\ userFavorites w' = userFavorites w /\
  console w' = console w.
Proof. unfold beside, database. simpl. intros H. injection H. auto 10. Qed.

Lemma beside_news_articles (w w' : World) :
  beside news_articles_table w' = beside news_articles_table w ->
  users w' = users w /\ stocks w' = stocks w /\ currencyPairs w' = currencyPairs w /\
  userFavorites w' = userFavorites w /\ marketIndices w' = marketIndices w /\
  console w' = console w.
Proof. unfold beside, database. simpl. intros H. injection H. auto 10. Qed.

(** *** The run, loop by loop *)

Lemma sampleNews_run (w : World) :
  exists news,
    sampleNews w = (set_clock_reads (4 + clock_reads w) w, Ok news) /\
    length news = 4%nat /\
    Forall (fun a => InsertNewsArticle.id a = None) news.
Proof.
  eexists. split; [reflexivity|]. split; [reflexivity|]. repeat constructor.
Qed.

Lemma initializeSampleData_run (w : World) :
  initializeSampleData w =
  match for_of sampleIndices upsertMarketIndex w with
  | (w1, Ok _) =>
      match for_of sampleStocks upsertStock w1 with
      | (w2, Ok _) =>
          match for_of sampleCurrencies upsertCurrencyPair w2 with
          | (w3, Ok _) =>
              match sampleNews w3 with
              | (w4, Ok news) =>
                  match for_of news upsertNewsArticle w4 with
                  | (w5, Ok _) => (console_log seeding_done w5, tt)
                  | (w5, Err _) => (console_error seeding_failed w5, tt)
                  end
              | (w4, Err _) => (console_error seeding_failed w4, tt)
              end
          | (w3, Err _) => (console_error seeding_failed w3, tt)
          end
      | (w2, Err _) => (console_error seeding_failed w2, tt)
      end
  | (w1, Err _) => (console_error seeding_failed w1, tt)
  end.
Proof.
  unfold initializeSampleData, try_catch, log. cbv [mbind Storage_bind].
  destruct (for_of sampleIndices upsertMarketIndex w) as [w1 [[]|e]]; [|reflexivity].
  destruct (for_of sampleStocks upsertStock w1) as [w2 [[]|e]]; [|reflexivity].
  destruct (for_of sampleCurrencies upsertCurrencyPair w2) as [w3 [[]|e]]; [|reflexivity].
  destruct (sampleNews w3) as [w4 [news|e]]; [|reflexivity].
  destruct (for_of news upsertNewsArticle w4) as [w5 [[]|e]]; reflexivity.
Qed.

Lemma for_of_invariant {A B : Type} (I : World -> Prop) (f : A -> Storage B)
    (xs : list A) (w : World) :
  (forall x w, I w -> I (fst (f x w))) -> I w -> I (fst (for_of xs f w)).
Proof.
  intros Hf. revert w. induction xs as [|x xs IH]; intros w Hw; [exact Hw|].
  simpl. cbv [mbind Storage_bind]. pose proof (Hf x w Hw) as Hx.
  destruct (f x w) as [w1 [b|e]]; simpl in Hx |- *; [apply IH|]; exact Hx.
Qed.

Lemma upsertNewsArticle_appends (x : InsertNewsArticle.t) (w w' : World) (r : NewsArticle.t) :
  upsertNewsArticle x w = (w', Ok r) ->
  rows (newsArticles w') = rows (newsArticles w) ++ [r].
Proof.
  rewrite upsertNewsArticle_run. cbv zeta. destruct (reachable w); [|discriminate].
  destruct (InsertNewsArticle.id x); cbn [drawn];
    destruct (Pg.insert _ _ _) as [[rows' row]|e] eqn:Hins; try discriminate;
    intros H; injection H as <- <-; apply insert_Ok in Hins as (-> & -> & _); reflexivity.
Qed.

Lemma for_of_news_length (xs : list InsertNewsArticle.t) (w w' : World) :
  for_of xs upsertNewsArticle w = (w', Ok tt) ->
  length (rows (newsArticles w')) = (length (rows (newsArticles w)) + length xs)%nat.
Proof.
  revert w. induction xs as [|x xs IH]; intros w Hrun.
  - apply for_of_nil_Ok in Hrun. subst w'. simpl. lia.
  - apply for_of_cons_Ok in Hrun as (w1 & b & Hx & Hrest).
    rewrite (IH _ Hrest), (upsertNewsArticle_appends _ _ _ _ Hx), length_app. simpl. lia.
Qed.

(** What the loops of [initializeSampleData] leave alone. *)
Lemma loops_beside (w : World) :
  (forall xs, beside market_indices_table (fst (for_of xs upsertMarketIndex w)) =
              beside market_indices_table w) /\
  (forall xs, beside stocks_table (fst (for_of xs upsertStock w)) = beside stocks_table w) /\
  (forall xs, beside currency_pairs_table (fst (for_of xs upsertCurrencyPair w)) =
              beside currency_pairs_table w) /\
  (forall xs, beside news_articles_table (fst (for_of xs upsertNewsArticle w)) =
              beside news_articles_table w).
Proof.
  repeat split; intros xs.
  - apply (for_of_frame (beside market_indices_table)). apply upsertMarketIndex_beside.
  - apply (for_of_frame (beside stocks_table)). apply upsertStock_beside.
  - apply (for_of_frame (beside currency_pairs_table)). apply upsertCurrencyPair_beside.
  - apply (for_of_frame (beside news_articles_table)). apply upsertNewsArticle_beside.
Qed.


Lemma unharmed_refl (w : World) : unharmed w w.
Proof. unfold unharmed. auto 10. Qed.

Lemma unharmed_indices (w0 : World) (x : InsertMarketIndex.t) (w : World) :
  unharmed w0 w -> unharmed w0 (fst (upsertMarketIndex x w)).
Proof.
  unfold unharmed. intros (Hu & Hf & Hc & Hi & Hs & Hp).
  destruct (beside_market_indices _ _ (upsertMarketIndex_beside x w))
    as (-> & -> & -> & _ & -> & ->).
  repeat split; try assumption.
  intros H. apply upsertMarketIndex_unique_keys. auto.
Qed.

Lemma unharmed_stocks (w0 : World) (x : InsertStock.t) (w : World) :
  unharmed w0 w -> unharmed w0 (fst (upsertStock x w)).
Proof.
  unfold unharmed. intros (Hu & Hf & Hc & Hi & Hs & Hp).
  destruct (beside_stocks _ _ (upsertStock_beside x w)) as (-> & -> & _ & -> & -> & ->).
  repeat split; try assumption.
  intros H. apply upsertStock_unique_keys. auto.
Qed.

Lemma unharmed_currencies (w0 : World) (x : InsertCurrencyPair.t) (w : World) :
  unharmed w0 w -> unharmed w0 (fst (upsertCurrencyPair x w)).
Proof.
  unfold unharmed. intros (Hu & Hf & Hc & Hi & Hs & Hp).
  destruct (beside_currency_pairs _ _ (upsertCurrencyPair_beside x w))
    as (-> & -> & _ & -> & -> & ->).
  repeat split; try assumption.
  intros H. apply upsertCurrencyPair_unique_keys. auto.
Qed.

Lemma unharmed_news (w0 : World) (x : InsertNewsArticle.t) (w : World) :
  unharmed w0 w -> unharmed w0 (fst (upsertNewsArticle x w)).
Proof.
  unfold unharmed. intros (Hu & Hf & Hc & Hi & Hs & Hp).
  destruct (beside_news_articles _ _ (upsertNewsArticle_beside x w))
    as (-> & -> & -> & -> & -> & ->).
  repeat split; assumption.
Qed.

(** Every run ends with one line on the console, written to a world that
    is unharmed. *)
Lemma initializeSampleData_cases (w : World) :
  exists wk,
    unharmed w wk /\
    (fst (initializeSampleData w) = console_log seeding_done wk \/
     fst (initializeSampleData w) = console_error seeding_failed wk).
Proof.
  rewrite initializeSampleData_run.
  pose proof (for_of_invariant (unharmed w) upsertMarketIndex sampleIndices w
                (unharmed_indices w) (unharmed_refl w)) as H1.
  destruct (for_of sampleIndices upsertMarketIndex w) as [w1 [[]|e]]; simpl in H1; [|eauto].
  pose proof (for_of_invariant (unharmed w) upsertStock sampleStocks w1
                (unharmed_stocks w) H1) as H2.
  destruct (for_of sampleStocks upsertStock w1) as [w2 [[]|e]]; simpl in H2; [|eauto].
  pose proof (for_of_invariant (unharmed w) upsertCurrencyPair sampleCurrencies w2
                (unharmed_currencies w) H2) as H3.
  destruct (for_of sampleCurrencies upsertCurrencyPair w2) as [w3 [[]|e]]; simpl in H3; [|eauto].
  destruct (sampleNews_run w3) as (news & -> & _).
  assert (H4 : unharmed w (set_clock_reads (4 + clock_reads w3) w3)) by exact H3.
  pose proof (for_of_invariant (unharmed w) upsertNewsArticle news _
                (unharmed_news w) H4) as H5.
  destruct (for_of news upsertNewsArticle _) as [w5 [[]|e]]; simpl in H5; eauto.
Qed.

(** X15. [initializeSampleData] rejects nothing: it ends with one line on
    the console, the success line when every seed was written and the error
    line when one was refused, after which no further seed is written.  It
    leaves [users] and the favorites alone and the unique indexes of the
    seeded tables intact.  With the database unreachable at its first
    statement it sends that one statement, changes no table and logs the
    error. *)
Theorem initializeSampleData_logs_once (w : World) :
  let w' := fst (initializeSampleData w) in
  (console w' = console w ++ [seeding_done] \/ console w' = console w ++ [seeding_failed]) /\
  users w' = users w /\ userFavorites w' = userFavorites w /\
  (Pg.unique_keys market_indices_indexes (rows (marketIndices w)) ->
   Pg.unique_keys market_indices_indexes (rows (marketIndices w'))) /\
  (Pg.unique_keys stocks_indexes (rows (stocks w)) ->
   Pg.unique_keys stocks_indexes (rows (stocks w'))) /\
  (Pg.unique_keys currency_pairs_indexes (rows (currencyPairs w)) ->
   Pg.unique_keys currency_pairs_indexes (rows (currencyPairs w'))) /\
  (reachable w = false ->
   database w' = database w /\
   console w' = console w ++ [seeding_failed] /\
   statements w' = statements w ++ [INSERT "market_indices"]).
Proof.
  intros w'. subst w'.
  destruct (initializeSampleData_cases w) as (wk & (Hu & Hf & Hc & Hi & Hs & Hp) & Hend).
  split; [|split; [|split; [|split; [|split; [|split]]]]].
  - destruct Hend as [-> | ->]; [left|right]; simpl; rewrite Hc; reflexivity.
  - destruct Hend as [-> | ->]; exact Hu.
  - destruct Hend as [-> | ->]; exact Hf.
  - destruct Hend as [-> | ->]; exact Hi.
  - destruct Hend as [-> | ->]; exact Hs.
  - destruct Hend as [-> | ->]; exact Hp.
  - intros Hoff. clear Hend. rewrite initializeSampleData_run.
    unfold sampleIndices. cbv zeta. cbn [for_of]. cbv [mbind Storage_bind].
    rewrite upsertMarketIndex_run. cbv zeta. rewrite Hoff. cbv beta iota.
    repeat split.
Qed.

(** A run that ended with the success line went through every loop. *)
Lemma seeds_stages (w : World) :
  seeds w ->
  exists w1 w2 w3 w5 news,
    stages w w1 w2 w3 w5 news /\
    for_of sampleIndices upsertMarketIndex w = (w1, Ok tt) /\
    for_of sampleStocks upsertStock w1 = (w2, Ok tt) /\
    for_of sampleCurrencies upsertCurrencyPair w2 = (w3, Ok tt) /\
    for_of news upsertNewsArticle (set_clock_reads (4 + clock_reads w3) w3) = (w5, Ok tt) /\
    fst (initializeSampleData w) = console_log seeding_done w5.
Proof.
  unfold seeds. rewrite initializeSampleData_run.
  destruct (loops_beside w) as (Hb1 & _). specialize (Hb1 sampleIndices).
  destruct (for_of sampleIndices upsertMarketIndex w) as [w1 o1] eqn:H1. simpl in Hb1.
  destruct (loops_beside w1) as (_ & Hb2 & _). specialize (Hb2 sampleStocks).
  destruct (for_of sampleStocks upsertStock w1) as [w2 o2] eqn:H2. simpl in Hb2.
  destruct (loops_beside w2) as (_ & _ & Hb3 & _). specialize (Hb3 sampleCurrencies).
  destruct (for_of sampleCurrencies upsertCurrencyPair w2) as [w3 o3] eqn:H3. simpl in Hb3.
  destruct (sampleNews_run w3) as (news & Hnews & Hlen & _). rewrite Hnews.
  destruct (loops_beside (set_clock_reads (4 + clock_reads w3) w3)) as (_ & _ & _ & Hb5).
  specialize (Hb5 news).
  destruct (for_of news upsertNewsArticle _) as [w5 o5] eqn:H5. simpl in Hb5.
  assert (Hc1 : console w1 = console w) by (apply beside_market_indices in Hb1; tauto).
  assert (Hc2 : console w2 = console w1) by (apply beside_stocks in Hb2; tauto).
  assert (Hc3 : console w3 = console w2) by (apply beside_currency_pairs in Hb3; tauto).
  assert (Hc5 : console w5 = console w3) by (apply beside_news_articles in Hb5; tauto).
  assert (Hno : forall wk, console wk = console w ->
            console (console_error seeding_failed wk) = console w ++ [seeding_done] -> False).
  { intros wk Hk. simpl. rewrite Hk. intros H. apply app_inv_head in H. discriminate H. }
  destruct o1 as [[]|e]; [|intros H; exfalso; exact (Hno w1 Hc1 H)].
  destruct o2 as [[]|e]; [|intros H; exfalso; apply (Hno w2); [congruence|exact H]].
  destruct o3 as [[]|e]; [|intros H; exfalso; apply (Hno w3); [congruence|exact H]].
  destruct o5 as [[]|e]; [|intros H; exfalso; apply (Hno w5); [congruence|exact H]].
  intros _. exists w1, w2, w3, w5, news.
  split; [|auto 10]. constructor; try assumption.
  - rewrite H1. reflexivity.
  - rewrite H2. reflexivity.
  - rewrite H3. reflexivity.
  - rewrite H5. reflexivity.
Qed.

Lemma upsertCurrencyPair_written (pair : InsertCurrencyPair.t) (w w' : World)
    (row : CurrencyPair.t) :
  upsertCurrencyPair pair w = (w', Ok row) ->
  row ∈ rows (currencyPairs w') /\
  CurrencyPair.symbol row = InsertCurrencyPair.symbol pair /\ pair_written pair row.
Proof.
  intros (v & id & _ & Hv & _ & Hup)%upsertCurrencyPair_Ok.
  pose proof (currency_pairs_coerce_Ok _ _ Hv) as (_ & Hsym & Hb & Hq & Hr & Hc & Hcp & Hm).
  split; [exact (upsert_row_elem _ _ _ _ _ _ _ Hup)|].
  assert (Hmargin : forall m' old, InsertCurrencyPair.margin pair = Some m' ->
            Pg.numeric 5 2 m' = Ok (default old (InsertCurrencyPair.margin v))).
  { intros m' old Hpm. rewrite Hpm in Hm. simpl in Hm.
    apply result_map_Ok in Hm as (y & Hy & ->). exact Hy. }
  apply upsert_Ok in Hup as [(i & old & _ & _ & _ & -> & _)|(_ & _ & -> & _)];
    (split; [exact Hsym|]); unfold pair_written; simpl;
    rewrite Hsym, Hb, Hq; repeat split; try assumption; intros m' Hpm; apply Hmargin; exact Hpm.
Qed.

Lemma upsertMarketIndex_written (index : InsertMarketIndex.t) (w w' : World)
    (row : MarketIndex.t) :
  upsertMarketIndex index w = (w', Ok row) ->
  row ∈ rows (marketIndices w') /\
  MarketIndex.symbol row = InsertMarketIndex.symbol index /\ index_written index row.
Proof.
  intros (v & id & _ & Hv & Hid & _ & Hup)%upsertMarketIndex_Ok.
  split; [exact (upsert_row_elem _ _ _ _ _ _ _ Hup)|].
  assert (Hw : index_written index row).
  { apply upsert_Ok in Hup as [(i & old & _ & _ & _ & -> & _)|(_ & _ & -> & _)].
    - apply market_indices_set_written. exact Hv.
    - apply market_indices_values_written; assumption. }
  split; [|exact Hw]. destruct Hw as (_ & Hs & _). exact Hs.
Qed.

Lemma upsertStock_written_key (stock : InsertStock.t) (w w' : World) (row : Stock.t) :
  upsertStock stock w = (w', Ok row) ->
  row ∈ rows (stocks w') /\
  Stock.symbol row = InsertStock.symbol stock /\ stock_written stock row.
Proof.
  intros [Hw Hin]%upsertStock_written. split; [exact Hin|]. split; [|exact Hw].
  destruct Hw as (Hs & _). exact Hs.
Qed.

Lemma stages_tables (w w1 w2 w3 w5 : World) (news : list InsertNewsArticle.t) :
  stages w w1 w2 w3 w5 news ->
  marketIndices w5 = marketIndices w1 /\
  stocks w1 = stocks w /\ stocks w5 = stocks w2 /\
  currencyPairs w2 = currencyPairs w /\ currencyPairs w5 = currencyPairs w3 /\
  newsArticles w3 = newsArticles w.
Proof.
  intros [_ _ _ _ _ H1 H2 H3 H5].
  apply beside_market_indices in H1. apply beside_stocks in H2.
  apply beside_currency_pairs in H3. apply beside_news_articles in H5.
  destruct H1 as (_ & ? & ? & ? & _). destruct H2 as (_ & ? & ? & _ & ? & _).
  destruct H3 as (_ & ? & ? & _ & ? & _). destruct H5 as (_ & ? & ? & _ & ? & _).
  repeat split; congruence.
Qed.

Lemma sample_keys_distinct :
  NoDup (InsertMarketIndex.symbol <$> sampleIndices) /\
  NoDup (InsertStock.symbol <$> sampleStocks) /\
  NoDup (InsertCurrencyPair.symbol <$> sampleCurrencies).
Proof. repeat split; apply (bool_decide_unpack _); vm_compute; exact I. Qed.

(** X16. When [initializeSampleData] has run to its end, whatever the
    tables held before, every seeded currency pair is in its table with the
    seeded margin, rate and changes, every seeded stock with the seeded
    company, price, changes and volume, and every seeded index with the
    seeded name, value and changes: a margin an administrator had set is
    overwritten. *)
Theorem initializeSampleData_overwrites (w : World) :
  seeds w ->
  let w' := fst (initializeSampleData w) in
  (forall pair, pair ∈ sampleCurrencies ->
     exists row, row ∈ rows (currencyPairs w') /\
       CurrencyPair.symbol row = InsertCurrencyPair.symbol pair /\
       Some (CurrencyPair.margin row) = InsertCurrencyPair.margin pair /\
       CurrencyPair.rate row = InsertCurrencyPair.rate pair /\
       CurrencyPair.change row = InsertCurrencyPair.change pair /\
       CurrencyPair.changePercent row = InsertCurrencyPair.changePercent pair) /\
  (forall stock, stock ∈ sampleStocks ->
     exists row, row ∈ rows (stocks w') /\
       Stock.symbol row = InsertStock.symbol stock /\
       Stock.company row = InsertStock.company stock /\
       Stock.price row = InsertStock.price stock /\
       Stock.change row = InsertStock.change stock /\
       Stock.changePercent row = InsertStock.changePercent stock /\
       Stock.volume row = InsertStock.volume stock) /\
  (forall index, index ∈ sampleIndices ->
     exists row, row ∈ rows (marketIndices w') /\
       MarketIndex.symbol row = InsertMarketIndex.symbol index /\
       MarketIndex.name row = InsertMarketIndex.name index /\
       MarketIndex.value row = InsertMarketIndex.value index /\
       MarketIndex.change row = InsertMarketIndex.change index /\
       MarketIndex.changePercent row = InsertMarketIndex.changePercent index).
Proof.
  intros (w1 & w2 & w3 & w5 & news & Hst & H1 & H2 & H3 & _ & Hend)%seeds_stages w'.
  subst w'. rewrite Hend. simpl.
  destruct (stages_tables _ _ _ _ _ _ Hst) as (Ti & _ & Ts & _ & Tc & _).
  destruct sample_keys_distinct as (Ni & Ns & Nc).
  rewrite Ti, Ts, Tc.
  split; [|split].
  - intros pair Hin.
    destruct (for_of_written upsertCurrencyPair (fun w => rows (currencyPairs w))
                InsertCurrencyPair.symbol CurrencyPair.symbol pair_written
                upsertCurrencyPair_written upsertCurrencyPair_others
                sampleCurrencies w2 w3 Nc H3 pair Hin) as (row & Hrow & Hkey & Hw).
    exists row. split; [exact Hrow|]. split; [exact Hkey|].
    destruct Hw as (_ & _ & _ & Hr & Hc & Hcp & Hm).
    unfold sampleCurrencies in Hin. cbv zeta in Hin.
    repeat (apply elem_of_cons in Hin as [->|Hin]); [..|inversion Hin];
      specialize (Hm _ eq_refl); vm_compute in Hr, Hc, Hcp, Hm;
      injection Hr as Hr; injection Hc as Hc; injection Hcp as Hcp; injection Hm as Hm;
      (split; [exact (f_equal Some (eq_sym Hm))|]); (split; [exact (eq_sym Hr)|]);
      (split; [exact (eq_sym Hc)|exact (eq_sym Hcp)]).
  - intros stock Hin.
    destruct (for_of_written upsertStock (fun w => rows (stocks w))
                InsertStock.symbol Stock.symbol stock_written
                upsertStock_written_key upsertStock_others
                sampleStocks w1 w2 Ns H2 stock Hin) as (row & Hrow & Hkey & Hw).
    exists row. split; [exact Hrow|]. split; [exact Hkey|].
    destruct Hw as (_ & Hco & Hp & Hc & Hcp & Hv & _).
    split; [exact Hco|].
    unfold sampleStocks in Hin. cbv zeta in Hin.
    repeat (apply elem_of_cons in Hin as [->|Hin]); [..|inversion Hin];
      vm_compute in Hp, Hc, Hcp;
      injection Hp as Hp; injection Hc as Hc; injection Hcp as Hcp;
      (split; [exact (eq_sym Hp)|]); (split; [exact (eq_sym Hc)|]);
      (split; [exact (eq_sym Hcp)|exact Hv]).
  - intros index Hin.
    destruct (for_of_written upsertMarketIndex (fun w => rows (marketIndices w))
                InsertMarketIndex.symbol MarketIndex.symbol index_written
                upsertMarketIndex_written upsertMarketIndex_others
                sampleIndices w w1 Ni H1 index Hin) as (row & Hrow & Hkey & Hw).
    exists row. split; [exact Hrow|]. split; [exact Hkey|].
    destruct Hw as (Hn & _ & Hv & Hc & Hcp & _).
    split; [exact Hn|].
    unfold sampleIndices in Hin. cbv zeta in Hin.
    repeat (apply elem_of_cons in Hin as [->|Hin]); [..|inversion Hin];
      vm_compute in Hv, Hc, Hcp;
      injection Hv as Hv; injection Hc as Hc; injection Hcp as Hcp;
      (split; [exact (eq_sym Hv)|]); (split; [exact (eq_sym Hc)|exact (eq_sym Hcp)]).
Qed.

(** X16 at the seeded world in which the margin of EUR/USD had been set to
    0.5: after the next run it is 0.25 again. *)
Lemma initializeSampleData_overwrites_witness :
  seeds margin_raised /\
  exists row,
    row ∈ rows (currencyPairs (fst (initializeSampleData margin_raised))) /\
    CurrencyPair.symbol row = InsertCurrencyPair.symbol eur_usd /\
    Some (CurrencyPair.margin row) = InsertCurrencyPair.margin eur_usd /\
    CurrencyPair.rate row = InsertCurrencyPair.rate eur_usd /\
    CurrencyPair.change row = InsertCurrencyPair.change eur_usd /\
    CurrencyPair.changePercent row = InsertCurrencyPair.changePercent eur_usd.
Proof.
  assert (Hs : seeds margin_raised) by (unfold seeds; vm_compute; reflexivity).
  split; [exact Hs|].
  apply (proj1 (initializeSampleData_overwrites margin_raised Hs) eur_usd).
  unfold sampleCurrencies, eur_usd. apply list_elem_of_here.
Defined.


(** The margin set by the administrator survives the new rate. *)
Example new_rate_keeps_margin :
  result_map CurrencyPair.margin (snd (upsertCurrencyPair eur_usd_rate margin_raised)) =
  Ok "0.50".
Proof. vm_compute. reflexivity. Qed.

(** X17. When [initializeSampleData] has run to its end and runs to its
    end once more, as at the next start of the server, the second run adds
    no stock, no currency pair and no market index, the symbols of the three
    tables being what they were, but four more news articles: each run
    stores its four articles anew. *)
Theorem initializeSampleData_again (w : World) :
  seeds w -> seeds (fst (initializeSampleData w)) ->
  let w1 := fst (initializeSampleData w) in
  let w2 := fst (initializeSampleData w1) in
  Stock.symbol <$> rows (stocks w2) = Stock.symbol <$> rows (stocks w1) /\
  CurrencyPair.symbol <$> rows (currencyPairs w2) =
    CurrencyPair.symbol <$> rows (currencyPairs w1) /\
  MarketIndex.symbol <$> rows (marketIndices w2) =
    MarketIndex.symbol <$> rows (marketIndices w1) /\
  length (rows (newsArticles w1)) = (length (rows (newsArticles w)) + 4)%nat /\
  length (rows (newsArticles w2)) = (length (rows (newsArticles w)) + 8)%nat.
Proof.
  intros Hs1 Hs2 w1 w2. subst w2.
  apply seeds_stages in Hs1 as (a1 & a2 & a3 & a5 & news & Hst & H1 & H2 & H3 & H5 & Hend).
  apply seeds_stages in Hs2 as (b1 & b2 & b3 & b5 & news' & Hst' & H1' & H2' & H3' & H5' & Hend').
  destruct (stages_tables _ _ _ _ _ _ Hst) as (Ti & Ts1 & Ts & Tc1 & Tc & Tn).
  destruct (stages_tables _ _ _ _ _ _ Hst') as (Ti' & Ts1' & Ts' & Tc1' & Tc' & Tn').
  fold w1 in H1', Hst', Ts1', Tc1', Tn', Hend' |- *.
  assert (Hw1 : stocks w1 = stocks a2 /\ currencyPairs w1 = currencyPairs a3 /\
                marketIndices w1 = marketIndices a1 /\ newsArticles w1 = newsArticles a5).
  { subst w1. rewrite Hend. simpl. auto. }
  destruct Hw1 as (Es & Ec & Ei & En).
  rewrite Hend'. simpl.
  (* the keys of the seeds are in the tables after the first run *)
  destruct (for_of_keys upsertMarketIndex (fun w => rows (marketIndices w))
              InsertMarketIndex.symbol MarketIndex.symbol upsertMarketIndex_keys
              _ _ _ H1) as [Ki _].
  destruct (for_of_keys upsertStock (fun w => rows (stocks w))
              InsertStock.symbol Stock.symbol upsertStock_keys _ _ _ H2) as [Ks _].
  destruct (for_of_keys upsertCurrencyPair (fun w => rows (currencyPairs w))
              InsertCurrencyPair.symbol CurrencyPair.symbol upsertCurrencyPair_keys
              _ _ _ H3) as [Kc _].
  split; [|split; [|split; [|split]]].
  - rewrite Ts', Es.
    rewrite (for_of_present upsertStock (fun w => rows (stocks w))
               InsertStock.symbol Stock.symbol upsertStock_keys _ _ _ H2').
    + rewrite Ts1', Es. reflexivity.
    + simpl. rewrite Ts1', Es. exact Ks.
  - rewrite Tc', Ec.
    rewrite (for_of_present upsertCurrencyPair (fun w => rows (currencyPairs w))
               InsertCurrencyPair.symbol CurrencyPair.symbol upsertCurrencyPair_keys
               _ _ _ H3').
    + rewrite Tc1', Ec. reflexivity.
    + simpl. rewrite Tc1', Ec. exact Kc.
  - rewrite Ti', Ei.
    rewrite (for_of_present upsertMarketIndex (fun w => rows (marketIndices w))
               InsertMarketIndex.symbol MarketIndex.symbol upsertMarketIndex_keys
               _ _ _ H1').
    + rewrite Ei. reflexivity.
    + simpl. rewrite Ei. exact Ki.
  - rewrite En, (for_of_news_length _ _ _ H5). simpl. rewrite Tn.
    rewrite (stage_articles _ _ _ _ _ _ Hst). reflexivity.
  - rewrite (for_of_news_length _ _ _ H5'). simpl. rewrite Tn', En.
    rewrite (for_of_news_length _ _ _ H5). simpl. rewrite Tn.
    rewrite (stage_articles _ _ _ _ _ _ Hst), (stage_articles _ _ _ _ _ _ Hst'). lia.
Qed.

(** X17 at a fresh database: two starts of the server. *)
Lemma initializeSampleData_again_witness :
  seeds (fresh ticking) /\ seeds (fst (initializeSampleData (fresh ticking))) /\
  length (rows (newsArticles
                 (fst (initializeSampleData (fst (initializeSampleData (fresh ticking))))))) =
  (length (rows (newsArticles (fresh ticking))) + 8)%nat.
Proof.
  assert (H1 : seeds (fresh ticking)) by (unfold seeds; vm_compute; reflexivity).
  assert (H2 : seeds (fst (initializeSampleData (fresh ticking))))
    by (unfold seeds; vm_compute; reflexivity).
  split; [exact H1|]. split; [exact H2|].
  exact (proj2 (proj2 (proj2 (proj2 (initializeSampleData_again (fresh ticking) H1 H2))))).
Defined.

(** ** The timers of the WebSocket server *)

Lemma timed_replace (srv : Server) (w : World) (ws : nat) (s s' : Socket) :
  timed srv -> sockets srv !! ws = Some s ->
  readyState s' = readyState s -> updateInterval s' = updateInterval s ->
  timed {| env := w; sockets := <[ws := s']> (sockets srv); timers := timers srv;
           next_socket := next_socket srv; next_timer := next_timer srv |}.
Proof.
  intros Ht Hs Hr Hu ws0 s0. simpl. destruct (decide (ws = ws0)) as [<-|Hne].
  - rewrite lookup_insert_eq. intros H. injection H as <-. rewrite Hr, Hu. exact (Ht ws s Hs).
  - rewrite lookup_insert_ne by exact Hne. apply Ht.
Qed.

Lemma sendMarketUpdate_timed (ws : nat) (srv : Server) :
  timed srv -> timed (sendMarketUpdate ws srv).
Proof.
  intros Ht. rewrite sendMarketUpdate_run.
  destruct (sockets srv !! ws) as [s|] eqn:Hs.
  - rewrite (alter_as_insert _ _ _ _ Hs). eapply timed_replace; eauto.
  - rewrite (alter_absent _ _ _ Hs). exact Ht.
Qed.

Lemma timed_clear (srv : Server) (w : World) (ws : nat) (s : Socket) (r : ReadyState) :
  consistent srv -> timed srv -> sockets srv !! ws = Some s -> r <> OPEN ->
  timed {| env := w; sockets := <[ws := set_readyState r s]> (sockets srv);
           timers := delete (updateInterval s) (timers srv);
           next_socket := next_socket srv; next_timer := next_timer srv |}.
Proof.
  intros Hc Ht Hs Hr ws0 s0. simpl. destruct (decide (ws = ws0)) as [<-|Hne].
  - rewrite lookup_insert_eq. intros H. injection H as <-. simpl.
    split; [intros Hopen; contradiction|]. intros _. apply lookup_delete_eq.
  - rewrite lookup_insert_ne by exact Hne. intros Hs0.
    assert (updateInterval s <> updateInterval s0) as Hdiff.
    { intros Heq. apply Hne. exact (own_interval srv Hc _ _ _ _ Hs Hs0 Heq). }
    rewrite lookup_delete_ne by exact Hdiff. exact (Ht ws0 s0 Hs0).
Qed.

Lemma on_connection_timed (srv : Server) :
  consistent srv -> timed srv -> timed (on_connection srv).
Proof.
  intros Hc Ht. unfold on_connection. cbv zeta. rewrite sendMarketUpdate_run. simpl.
  rewrite (alter_as_insert _ _ _ _ (lookup_insert_eq _ _ _)), insert_insert_eq.
  intros ws s. simpl. destruct (decide (next_socket srv = ws)) as [<-|Hne].
  - rewrite lookup_insert_eq. intros H. injection H as <-. simpl.
    rewrite lookup_insert_eq. split; [reflexivity|discriminate].
  - rewrite lookup_insert_ne by exact Hne. intros Hs.
    pose proof (socket_bounds srv Hc ws s Hs) as [_ Hb].
    rewrite lookup_insert_ne by lia. exact (Ht ws s Hs).
Qed.

Lemma step_timed (e : Event) (srv : Server) :
  consistent srv -> timed srv -> timed (step e srv).
Proof.
  intros Hc Ht. destruct e as [|t|ws k|ws|ws|ws|h]; cbn [step].
  - apply on_connection_timed; assumption.
  - destruct (timers srv !! t); [apply sendMarketUpdate_timed|]; exact Ht.
  - destruct (sockets srv !! ws) as [s|] eqn:Hs; [|exact Ht].
    destruct (pending s !! k) as [outcome|]; [|exact Ht].
    destruct (sendMarketUpdate_resume_run ws (set_pending (delete k (pending s)) s) outcome srv)
      as (w & s' & -> & Hr & Hu & _).
    apply (timed_replace srv w ws s s' Ht Hs); assumption.
  - destruct (sockets srv !! ws) as [s|] eqn:Hs; [|exact Ht].
    destruct (decide (readyState s = OPEN)) as [Hopen|]; [|exact Ht].
    intros ws0 s0. simpl. destruct (decide (ws = ws0)) as [<-|Hne].
    + rewrite lookup_insert_eq. intros H. injection H as <-. simpl.
      split; discriminate.
    + rewrite lookup_insert_ne by exact Hne. apply Ht.
  - destruct (sockets srv !! ws) as [s|] eqn:Hs; [|exact Ht].
    rewrite perform_all_on_close. simpl.
    apply (timed_clear srv _ ws s CLOSED Hc Ht Hs). discriminate.
  - destruct (sockets srv !! ws) as [s|] eqn:Hs; [|exact Ht].
    rewrite perform_all_on_error. simpl.
    apply (timed_clear srv _ ws s _ Hc Ht Hs).
    destruct (decide (readyState s = CLOSED)); discriminate.
  - exact Ht.
Qed.

(** X18. In every state the server reaches from its start, whatever the
    event loop has dispatched, each open connection has its timer set, a
    timer of period 4000 ms that calls the [sendMarketUpdate] of that
    connection, and no closed connection has a timer; and every timer that
    is set belongs to a connection that is not closed. *)
Theorem timers_follow_connections (w : World) (es : list Event) :
  let srv := run es (listening w) in
  timed srv /\
  forall t tm, timers srv !! t = Some tm ->
    delay tm = 4000 /\
    exists s, sockets srv !! callback tm = Some s /\ updateInterval s = t /\
              readyState s <> CLOSED.
Proof.
  cbv zeta.
  assert (Hinv : forall es srv, consistent srv -> timed srv ->
                   consistent (run es srv) /\ timed (run es srv)).
  { clear es. intros es. induction es as [|e es IH]; intros srv Hc Ht; [auto|].
    simpl. apply IH; [apply step_consistent|apply step_timed]; assumption. }
  destruct (Hinv es (listening w)) as [Hc Ht].
  - apply listening_consistent.
  - intros ws s Hs. simpl in Hs. rewrite lookup_empty in Hs. discriminate Hs.
  - split; [exact Ht|]. intros t tm Htm.
    destruct (timer_owner _ Hc t tm Htm) as (Hd & s & Hs & Hu).
    split; [exact Hd|]. exists s. split; [exact Hs|]. split; [exact Hu|].
    intros Hclosed. destruct (Ht _ _ Hs) as [_ Hnone].
    rewrite Hu in Hnone. rewrite (Hnone Hclosed) in Htm. discriminate Htm.
Qed.

(** X19. A new connection does not wait for the first tick: the handler
    of ['connection'] leaves the socket open with nothing sent, its timer
    set and one call of [sendMarketUpdate] suspended on its four reads, and
    when these settle fulfilled the first snapshot is sent. *)
Theorem connection_gets_first_snapshot (srv : Server) :
  let ws := next_socket srv in
  let srv1 := step Connection srv in
  exists s,
    sockets srv1 !! ws = Some s /\
    readyState s = OPEN /\ sent s = [] /\ calls s = 1%nat /\
    pending s = [snd (market_reads (console_log "New WebSocket connection" (env srv)))] /\
    timers srv1 !! updateInterval s = Some {| callback := ws; delay := 4000 |} /\
    statements (env srv1) = statements (env srv) ++ snapshot_statements /\
    forall snapshot, pending s = [Ok snapshot] ->
      exists s', sockets (step (ReadsSettled ws 0) srv1) !! ws = Some s' /\
                 sent s' = [market_update snapshot (clock (env srv1) (clock_reads (env srv1)))].
Proof.
  cbv zeta. cbn [step]. unfold on_connection. cbv zeta. rewrite sendMarketUpdate_run. simpl.
  rewrite (alter_as_insert _ _ _ _ (lookup_insert_eq _ _ _)), insert_insert_eq.
  rewrite lookup_insert_eq. eexists. split; [reflexivity|]. simpl.
  split; [reflexivity|]. split; [reflexivity|]. split; [reflexivity|]. split; [reflexivity|].
  split; [apply lookup_insert_eq|]. split.
  - unfold market_reads, Promise_all4.
    rewrite getStocks_run. cbn [fst snd]. rewrite getCurrencyPairs_run. cbn [fst snd].
    rewrite getMarketIndices_run. cbn [fst snd]. rewrite getNewsArticles_run. cbn [fst snd].
    simpl. rewrite <- !app_assoc. reflexivity.
  - intros snapshot Hp. injection Hp as Hp. rewrite Hp.
    unfold sendMarketUpdate_resume. cbn [readyState set_pending suspend].
    destruct (decide (OPEN = OPEN)) as [_|Hn]; [|contradiction].
    cbn [read_clock env]. cbv zeta. cbn [sockets set_env set_sockets].
    rewrite lookup_insert_eq. eexists. split; [reflexivity|]. reflexivity.
Qed.

Lemma market_reads_frame (w : World) :
  let w' := fst (market_reads w) in
  database w' = database w /\ console w' = console w /\
  statements w' = statements w ++ snapshot_statements.
Proof.
  cbv zeta. unfold market_reads, Promise_all4.
  rewrite getStocks_run. cbn [fst snd]. rewrite getCurrencyPairs_run. cbn [fst snd].
  rewrite getMarketIndices_run. cbn [fst snd]. rewrite getNewsArticles_run. cbn [fst snd].
  simpl. rewrite <- !app_assoc. repeat split.
Qed.

(** X20. Each tick of a timer sends the four reads of a snapshot to the
    database, whatever the state of its connection, and nothing else: it
    writes to no table and to the console not at all, sends no message to any
    connection, and leaves one more call suspended on its socket, without
    waiting for the reads of an earlier tick. *)
Theorem tick_reads_four_tables (srv : Server) (t : nat) (tm : Timer) :
  timers srv !! t = Some tm ->
  let srv' := step (IntervalElapsed t) srv in
  statements (env srv') = statements (env srv) ++ snapshot_statements /\
  database (env srv') = database (env srv) /\
  console (env srv') = console (env srv) /\
  timers srv' = timers srv /\
  (forall ws, sent <$> sockets srv' !! ws = sent <$> sockets srv !! ws) /\
  (forall s, sockets srv !! callback tm = Some s ->
     exists s', sockets srv' !! callback tm = Some s' /\
                length (pending s') = S (length (pending s)) /\
                readyState s' = readyState s).
Proof.
  intros Ht. cbv zeta. cbn [step]. rewrite Ht, sendMarketUpdate_run. simpl.
  destruct (market_reads_frame (env srv)) as (Hdb & Hcon & Hst).
  split; [exact Hst|]. split; [exact Hdb|]. split; [exact Hcon|]. split; [reflexivity|].
  split.
  - intros ws. destruct (decide (callback tm = ws)) as [<-|Hne].
    + rewrite lookup_alter_eq. destruct (sockets srv !! callback tm); reflexivity.
    + rewrite lookup_alter_ne by exact Hne. reflexivity.
  - intros s Hs. rewrite lookup_alter_eq, Hs. eexists. split; [reflexivity|].
    simpl. rewrite length_app. simpl. split; [lia|reflexivity].
Qed.

(** X20 at a server with two connections, the first of which is about to
    close. *)
Lemma tick_reads_four_tables_witness :
  let srv := step (CloseFrame 0) two_connections in
  exists tm,
    timers srv !! 0%nat = Some tm /\
    statements (env (step (IntervalElapsed 0) srv)) = statements (env srv) ++ snapshot_statements.
Proof.
  intros srv.
  destruct (timers srv !! 0%nat) as [tm|] eqn:Ht; [|vm_compute in Ht; discriminate Ht].
  exists tm. split; [reflexivity|].
  exact (proj1 (tick_reads_four_tables srv 0 tm Ht)).
Defined.
